(** * Driver-Management: the workbook importer

    A shallow embedding of [scripts/import_master_driver_sep.py] and the
    properties of its parsing and extraction pipeline.

    Conventions of the embedding.
    - A Python [str] is a Rocq [string]; the character numbered [k] stands
      for the code point U+00[k], so the development covers the texts made
      of code points below 256.  On that range [\d] is [0-9],
      [str.strip] removes the characters of [is_space] and [str.lower]
      is the character-wise map [lower_char].
    - A Python [int] is a [Z]; list positions and lengths are [nat].
    - Exceptions are values of [exn] carried by [result].
    - The header map and the per-row column map are [gmap]s, the set of
      seen keys is a [gset]; a record is an association list, because the
      order of its keys is the order in which the script writes them. *)

From Stdlib Require Import ZArith Ascii DecimalString DecimalNat Lia.
From Stdlib Require String.
From stdpp Require Import base option list list_numbers gmap strings.

Local Open Scope Z_scope.

(** ** Exceptions *)

Inductive exn : Type :=
  | RuntimeError (* raised by [find_header_row] *)
  | OverflowError (* raised by the [datetime] arithmetic *).

Inductive result (A : Type) : Type :=
  | Ok (a : A)
  | Raise (e : exn).
Arguments Ok {A} a.
Arguments Raise {A} e.

Definition bind {A B} (r : result A) (k : A → result B) : result B :=
  match r with
  | Ok a => k a
  | Raise e => Raise e
  end.

Notation "x ←! r ; k" := (bind r (λ x, k))
  (at level 20, r at level 100, k at level 200, right associativity,
   format "x  ←!  r ;  '/' k").

Definition is_ok {A} (r : result A) : Prop :=
  match r with Ok _ => True | Raise _ => False end.

(** ** Characters and strings *)

Definition ord (ch : ascii) : Z := Z.of_N (N_of_ascii ch).

Definition is_digit (ch : ascii) : bool := (48 <=? ord ch) && (ord ch <=? 57).
Definition is_upper_AZ (ch : ascii) : bool := (65 <=? ord ch) && (ord ch <=? 90).

(** [str.isspace] on the code points below 256: TAB..CR, FS..US, SPACE,
    NEL and NO-BREAK SPACE. *)
Definition is_space (ch : ascii) : bool :=
  let o := ord ch in
  ((9 <=? o) && (o <=? 13)) || ((28 <=? o) && (o <=? 32))
  || (o =? 133) || (o =? 160).

(** [str.lower] on one code point below 256: A..Z and the accented capitals
    U+00C0..U+00DE (without the multiplication sign U+00D7) move up by 32. *)
Definition lower_char (ch : ascii) : ascii :=
  let o := ord ch in
  if ((65 <=? o) && (o <=? 90))
     || ((192 <=? o) && (o <=? 222) && negb (o =? 215))
  then ascii_of_N (Z.to_N (o + 32)) else ch.

Fixpoint lower (s : string) : string :=
  match s with
  | EmptyString => EmptyString
  | String ch rest => String (lower_char ch) (lower rest)
  end.

Fixpoint lstrip (s : string) : string :=
  match s with
  | EmptyString => EmptyString
  | String ch rest => if is_space ch then lstrip rest else s
  end.

Definition rstrip (s : string) : string := String.rev (lstrip (String.rev s)).

Definition strip (s : string) : string := rstrip (lstrip s).

Fixpoint all_chars (p : ascii → bool) (s : string) : bool :=
  match s with
  | EmptyString => true
  | String ch rest => p ch && all_chars p rest
  end.

Fixpoint is_prefix (p s : string) : bool :=
  match p, s with
  | EmptyString, _ => true
  | String a p', String b s' => bool_decide (a = b) && is_prefix p' s'
  | String _ _, EmptyString => false
  end.

(** [k in s] for two strings. *)
Fixpoint contains (s k : string) : bool :=
  is_prefix k s ||
  match s with
  | EmptyString => false
  | String _ rest => contains rest k
  end.

(** [sep.join(parts)]. *)
Fixpoint join (sep : string) (parts : list string) : string :=
  match parts with
  | [] => ""
  | [p] => p
  | p :: rest => p +:+ sep +:+ join sep rest
  end.

(** [str(n)] for a natural number. *)
Definition str_of_nat (n : nat) : string :=
  NilEmpty.string_of_uint (Nat.to_uint n).

(** The truth value of a string: empty is false. *)
Definition truthy (s : string) : bool := negb (bool_decide (s = "")).

(** [a or b] on strings. *)
Definition str_or (a b : string) : string := if truthy a then a else b.

(** ** [col_to_num] *)

Fixpoint col_to_num_loop (n : Z) (col : string) : Z :=
  match col with
  | EmptyString => n
  | String ch rest => col_to_num_loop (n * 26 + (ord ch - 64)) rest
  end.

Definition col_to_num (col : string) : Z := col_to_num_loop 0 col.


(** ** [normalize_text] *)

(** [s.replace(old, new)] for a non-empty [old]: occurrences are replaced
    from left to right without overlap; [skip] counts the characters of
    the occurrence just replaced that are still to be passed over. *)
Fixpoint replace_loop (old new : string) (skip : nat) (s : string) : string :=
  match s with
  | EmptyString => EmptyString
  | String ch rest =>
      match skip with
      | S k => replace_loop old new k rest
      | O =>
          if is_prefix old s
          then new +:+ replace_loop old new (String.length old - 1) rest
          else String ch (replace_loop old new 0 rest)
      end
  end.

Definition replace (old new s : string) : string := replace_loop old new 0 s.

Definition CR : string := String "013"%char "".
Definition LF : string := String "010"%char "".

Definition normalize_text (v : string) : string :=
  strip (replace CR LF (replace (CR +:+ LF) LF v)).

(** ** The proleptic Gregorian calendar of [datetime] *)

Definition is_leap (year : Z) : bool :=
  (year mod 4 =? 0) && (negb (year mod 100 =? 0) || (year mod 400 =? 0)).

Definition days_before_year (year : Z) : Z :=
  let y := year - 1 in y * 365 + y / 4 - y / 100 + y / 400.

Definition DAYS_IN_MONTH (month : Z) : Z :=
  match month with
  | 1 => 31 | 2 => 28 | 3 => 31 | 4 => 30 | 5 => 31 | 6 => 30
  | 7 => 31 | 8 => 31 | 9 => 30 | 10 => 31 | 11 => 30 | 12 => 31
  | _ => -1
  end.

Definition DAYS_BEFORE_MONTH (month : Z) : Z :=
  match month with
  | 1 => 0 | 2 => 31 | 3 => 59 | 4 => 90 | 5 => 120 | 6 => 151
  | 7 => 181 | 8 => 212 | 9 => 243 | 10 => 273 | 11 => 304 | 12 => 334
  | _ => -1
  end.

Definition days_in_month (year month : Z) : Z :=
  if (month =? 2) && is_leap year then 29 else DAYS_IN_MONTH month.

Definition days_before_month (year month : Z) : Z :=
  DAYS_BEFORE_MONTH month + (if (2 <? month) && is_leap year then 1 else 0).

(** The day number of a date, counting 0001-01-01 as day 1. *)
Definition ymd2ord (year month day : Z) : Z :=
  days_before_year year + days_before_month year month + day.

Definition valid_date (year month day : Z) : Prop :=
  1 ≤ year ≤ 9999 ∧ 1 ≤ month ≤ 12 ∧ 1 ≤ day ≤ days_in_month year month.

Definition DI400Y : Z := 146097.
Definition DI100Y : Z := 36524.
Definition DI4Y : Z := 1461.
Definition MAXORDINAL : Z := 3652059.

(** The date of a day number, as [datetime] computes it. *)
Definition ord2ymd (n : Z) : Z * Z * Z :=
  let n := n - 1 in
  let n400 := n / DI400Y in
  let n := n mod DI400Y in
  let year := n400 * 400 + 1 in
  let n100 := n / DI100Y in
  let n := n mod DI100Y in
  let n4 := n / DI4Y in
  let n := n mod DI4Y in
  let n1 := n / 365 in
  let n := n mod 365 in
  let year := year + (n100 * 100 + n4 * 4 + n1) in
  if (n1 =? 4) || (n100 =? 4) then (year - 1, 12, 31)
  else
    let leapyear := (n1 =? 3) && (negb (n4 =? 24) || (n100 =? 3)) in
    let month := Z.shiftr (n + 50) 5 in
    let preceding :=
      DAYS_BEFORE_MONTH month + (if (2 <? month) && leapyear then 1 else 0) in
    if n <? preceding then
      let month := month - 1 in
      let preceding :=
        preceding
        - (DAYS_IN_MONTH month + (if (month =? 2) && leapyear then 1 else 0)) in
      (year, month, n - preceding + 1)
    else (year, month, n - preceding + 1).

(** [datetime(year, month, day) + timedelta(days=n)]: the sum of the day
    numbers must be a day of the years 1..9999, otherwise [OverflowError]
    (a [timedelta] beyond 999999999 days raises the same exception). *)
Definition datetime_add_days (date : Z * Z * Z) (n : Z) : result (Z * Z * Z) :=
  let '(year, month, day) := date in
  let o := ymd2ord year month day + n in
  if (0 <? o) && (o <=? MAXORDINAL) then Ok (ord2ymd o) else Raise OverflowError.

Definition str_of_Z (n : Z) : string := str_of_nat (Z.to_nat n).

(** Zero padding of a number to a width, as [%Y], [%m] and [%d] do. *)
Definition zero_pad (width : nat) (s : string) : string :=
  Nat.iter (width - String.length s) (String "0"%char) s.

(** [date.strftime('%Y-%m-%d')]. *)
Definition strftime_ymd (date : Z * Z * Z) : string :=
  let '(year, month, day) := date in
  zero_pad 4 (str_of_Z year) +:+ "-" +:+ zero_pad 2 (str_of_Z month)
  +:+ "-" +:+ zero_pad 2 (str_of_Z day).

(** ** [excel_serial_to_iso] *)

(** The longest prefix of characters satisfying [p], and what follows. *)
Fixpoint span (p : ascii → bool) (s : string) : string * string :=
  match s with
  | EmptyString => (EmptyString, EmptyString)
  | String ch rest =>
      if p ch then let '(a, b) := span p rest in (String ch a, b)
      else (EmptyString, s)
  end.

Definition is_zero_char (ch : ascii) : bool := bool_decide (ch = "0"%char).

(** [re.fullmatch(r'\d+(?:\.0+)?', value)]: the digits matched by [\d+]
    when the whole of [value] matches.  A digit run is followed by the end
    or by a dot, neither of which is a digit, so [\d+] takes the whole run. *)
Definition fullmatch_serial (value : string) : option string :=
  let '(digits, rest) := span is_digit value in
  if bool_decide (digits = "") then None
  else
    match rest with
    | EmptyString => Some digits
    | String ch zeros =>
        if bool_decide (ch = "."%char) && truthy zeros
           && all_chars is_zero_char zeros
        then Some digits else None
    end.

Fixpoint int_of_digits_loop (n : Z) (s : string) : Z :=
  match s with
  | EmptyString => n
  | String ch rest => int_of_digits_loop (n * 10 + (ord ch - 48)) rest
  end.

(** The value of a decimal digit string. *)
Definition int_of_digits (s : string) : Z := int_of_digits_loop 0 s.

(** The epoch of the day count. *)
Definition base : Z * Z * Z := (1899, 12, 30).

(** [int(float(value))] is the value [n] of the digits whenever [n < 2^53];
    beyond that the float is a rounding of [n] that is still at least
    [2^53] (or infinite, and [int] raises [OverflowError]), and every such
    day count leaves the calendar, so that the outcome below,
    [OverflowError], is the same. *)
Definition excel_serial_to_iso (value : string) : result string :=
  let value := strip value in
  if bool_decide (value = "") then Ok ""
  else
    match fullmatch_serial value with
    | Some digits =>
        let n := int_of_digits digits in
        if n <=? 0 then Ok ""
        else date ←! datetime_add_days base n; Ok (strftime_ymd date)
    | None => Ok value
    end.

(** ** [is_headerish] *)

Definition is_headerish (v : string) (phrases : list string) : bool :=
  let lv := lower (normalize_text v) in
  if bool_decide (lv = "") then true
  else existsb (λ p, contains lv p) phrases.

(** ** The worksheet rows of [load_workbook_rows] *)

(** What the script reads of a [c] element of a worksheet: the attributes
    [r] and [t] when present, the text of the [is/t] descendant when there
    is one, and the text of the [v] child when there is one.  The text of
    an element is [None] when the element is empty. *)
Record cell_elem : Type := {
  attr_r : option string;
  attr_t : option string;
  inline_t : option (option string);
  value_v : option (option string);
}.

(** [x.text or '']. *)
Definition text_or_empty (text : option string) : string := default "" text.

(** [re.match(r'([A-Z]+)(\d+)', r)]: the letters of group 1 when the
    reference starts with capital letters followed by a digit. *)
Definition match_cell_ref (r : string) : option string :=
  let '(letters, rest) := span is_upper_AZ r in
  if truthy letters
     && match rest with
        | String ch _ => is_digit ch
        | EmptyString => false
        end
  then Some letters else None.

(** The digits of an integer literal, with single underscores allowed
    between two digits; [after_digit] tells whether the character before
    was a digit. *)
Fixpoint int_literal_loop (n : Z) (after_digit : bool) (s : string) : option Z :=
  match s with
  | EmptyString => if after_digit then Some n else None
  | String ch rest =>
      if is_digit ch then int_literal_loop (n * 10 + (ord ch - 48)) true rest
      else if bool_decide (ch = "_"%char) && after_digit
      then int_literal_loop n false rest
      else None
  end.

(** [int(txt)]: white space around the literal is dropped, a sign may
    come first; [None] stands for [ValueError].  The limit that an
    interpreter may put on the number of digits of a literal (4300 by
    default from CPython 3.11 on) is left out: for a longer literal the
    interpreter raises [ValueError], and the cell keeps its text, where
    this function reads the number.  The two differ in the cell text only
    when such a literal is a position of the table, which takes a literal
    padded with zeros to more than 4300 digits. *)
Definition py_int (txt : string) : option Z :=
  match strip txt with
  | String "-" body => Z.opp <$> int_literal_loop 0 false body
  | String "+" body => int_literal_loop 0 false body
  | body => int_literal_loop 0 false body
  end.

(** [l[i]] for a list: positions [-len l .. len l - 1] exist, a negative
    one counts from the end; [None] stands for [IndexError]. *)
Definition py_index {A} (l : list A) (i : Z) : option A :=
  let len := Z.of_nat (length l) in
  if (0 <=? i) && (i <? len) then l !! Z.to_nat i
  else if (- len <=? i) && (i <? 0) then l !! Z.to_nat (i + len)
  else None.

(** The text of a cell (lines 75-90); the [try] falls back to [txt] on any
    exception of [shared[int(txt)]]. *)
Definition cell_text (shared : list string) (c : cell_elem) : string :=
  match inline_t c with
  | Some text => text_or_empty text
  | None =>
      match value_v c with
      | None => ""
      | Some text =>
          let txt := text_or_empty text in
          if bool_decide (attr_t c = Some "s") then
            match py_int txt ≫= py_index shared with
            | Some val => val
            | None => txt
            end
          else txt
      end
  end.

(** One step of the loop over the [c] elements of a row: [vals[col] = val],
    or [continue] when the reference does not match. *)
Definition add_cell (shared : list string) (vals : gmap Z string)
    (c : cell_elem) : gmap Z string :=
  match match_cell_ref (default "" (attr_r c)) with
  | None => vals
  | Some letters => <[col_to_num letters := cell_text shared c]> vals
  end.

Definition row_vals (shared : list string) (rr : list cell_elem) : gmap Z string :=
  foldl (add_cell shared) ∅ rr.

(** [max(vals)], the largest key of a dictionary that is not empty. *)
Definition max_key (vals : gmap Z string) : Z :=
  match (map_to_list vals).*1 with
  | [] => 0
  | k :: ks => foldl Z.max k ks
  end.

(** Lines 92-94: nothing for an empty [vals], otherwise the dense row
    [[vals.get(i, '') for i in range(1, mx + 1)]]. *)
Definition dense_row (vals : gmap Z string) : option (list string) :=
  if bool_decide (vals = ∅) then None
  else Some ((λ i, default "" (vals !! i)) <$> seqZ 1 (max_key vals)).

(** The rows of one worksheet, from its [row] elements in document order. *)
Definition worksheet_rows (shared : list string)
    (sheet_data : list (list cell_elem)) : list (list string) :=
  foldl (λ rows rr,
           match dense_row (row_vals shared rr) with
           | Some row => rows ++ [row]
           | None => rows
           end) [] sheet_data.

(** ** [find_header_row] *)

Definition header_text (row : list string) : string :=
  join " | " ((λ x, lower (normalize_text x)) <$> row).

Definition row_has_keys (must_have : list string) (row : list string) : bool :=
  forallb (λ k, contains (header_text row) k) must_have.

(** [{normalize_text(v).lower(): idx for idx, v in enumerate(row)}]: a later
    column replaces an earlier one of the same title. *)
Definition header_cols (row : list string) : gmap string nat :=
  foldl (λ cols iv, <[lower (normalize_text iv.2) := iv.1]> cols) ∅
        (imap pair row).

Fixpoint find_header_row_from (i : nat) (rows : list (list string))
    (must_have : list string) : result (nat * gmap string nat) :=
  match rows with
  | [] => Raise RuntimeError
  | row :: rest =>
      if row_has_keys must_have row then Ok (i, header_cols row)
      else find_header_row_from (S i) rest must_have
  end.

Definition find_header_row (rows : list (list string))
    (must_have : list string) : result (nat * gmap string nat) :=
  find_header_row_from 0 rows must_have.

(** ** [get] *)

Definition get (row : list string) (idx : option nat) : string :=
  match idx with
  | None => ""
  | Some i =>
      if bool_decide (length row ≤ i)%nat then ""
      else normalize_text (default "" (row !! i))
  end.

(** ** Records *)

(** A record is a dictionary from field names to texts, in insertion order. *)
Abbreviation record := (list (string * string)).

Fixpoint dict_get (key : string) (d : record) : option string :=
  match d with
  | [] => None
  | (k, v) :: rest => if bool_decide (k = key) then Some v else dict_get key rest
  end.

(** [d[key]] for a key that the dictionary has. *)
Definition dict_item (d : record) (key : string) : string :=
  default "" (dict_get key d).

(** [d[key] = val]: the value is replaced in place, a new key goes last. *)
Fixpoint dict_set (key val : string) (d : record) : record :=
  match d with
  | [] => [(key, val)]
  | (k, v) :: rest =>
      if bool_decide (k = key) then (k, val) :: rest
      else (k, v) :: dict_set key val rest
  end.

(** [any(rec[k] for k in rec if k != 'id')]. *)
Definition any_but_id (rec : record) : bool :=
  existsb (λ kv, truthy kv.2)
          (filter (λ kv, kv.1 ≠ "id") rec).

(** [f'{prefix}_{n}']. *)
Definition make_id (prefix : string) (n : nat) : string :=
  prefix +:+ "_" +:+ str_of_nat n.

(** ** The extraction loop

    The six extractors share one loop: [out] starts empty and every row
    after the header either appends one record or is passed over
    ([continue]).  [step] is the body of the loop; it receives [len(out)]. *)
Fixpoint extract_rows (step : nat → list string → result (option record))
    (rows : list (list string)) (out : list record) : result (list record) :=
  match rows with
  | [] => Ok out
  | row :: rest =>
      r ←! step (length out) row;
      extract_rows step rest
        (match r with
         | Some rec => out ++ [rec]
         | None => out
         end)
  end.

(** ** [parse_drivers] *)

Definition drivers_keys : list string :=
  ["driver name"; "home base"; "availability"].

Definition drivers_phrases : list string :=
  ["driver name"; "past drivers"; "drivers that have been dismissed"].

Definition position_title_nl : string := "position / " +:+ LF +:+ "division".

Definition drivers_step (cols : gmap string nat) (n : nat)
    (row : list string) : result (option record) :=
  let name := get row (cols !! "driver name:") in
  if is_headerish name drivers_phrases then Ok None
  else
    let home := get row (cols !! "home base:") in
    let pos := str_or (get row (cols !! position_title_nl))
                      (get row (cols !! "position / division")) in
    let notes := get row (cols !! "driver availability & constraints") in
    let twic := str_or (get row (cols !! "twic card"))
                       (get row (cols !! "twic card ")) in
    if negb (existsb truthy [name; home; pos; notes; twic]) then Ok None
    else if bool_decide (name = "") then Ok None
    else Ok (Some [
      ("id", make_id "sep" (n + 1));
      ("name", name);
      ("homeBase", home);
      ("position", pos);
      ("notes", notes);
      ("twic", twic);
      ("hiredCity", "");
      ("currentCity", "");
      ("preferredPartner", "");
      ("routeRestrictions", "")]).

Definition parse_drivers (rows : list (list string)) : result (list record) :=
  hc ←! find_header_row rows drivers_keys;
  extract_rows (drivers_step hc.2) (drop (hc.1 + 1) rows) [].

(** ** [parse_leads] *)

Definition leads_keys : list string :=
  ["driver name"; "date of position acceptance"; "date sent to phase 2"].

(** The dictionary [rec] of a row; [n] is [len(out)]. *)
Definition leads_record (cols : gmap string nat) (n : nat)
    (row : list string) : result record :=
  let name := get row (cols !! "driver name") in
  dateAccepted ←! excel_serial_to_iso (get row (cols !! "date of position acceptance"));
  dateSentPhase2 ←! excel_serial_to_iso (get row (cols !! "date sent to phase 2"));
  Ok [
    ("id", make_id "lead" (n + 1));
    ("name", name);
    ("dateAccepted", dateAccepted);
    ("dateSentPhase2", dateSentPhase2);
    ("position", get row (cols !! "position"));
    ("recruiter", get row (cols !! "recruiter"));
    ("notes", get row (cols !! "notes"))].

Definition leads_step (cols : gmap string nat) (n : nat)
    (row : list string) : result (option record) :=
  let name := get row (cols !! "driver name") in
  if is_headerish name ["driver name"] then Ok None
  else
    rec ←! leads_record cols n row;
    if negb (existsb (λ k, truthy (dict_item rec k))
               ["name"; "dateAccepted"; "dateSentPhase2"; "position";
                "recruiter"; "notes"])
    then Ok None
    else if bool_decide (dict_item rec "name" = "") then Ok None
    else Ok (Some rec).

Definition parse_leads (rows : list (list string)) : result (list record) :=
  hc ←! find_header_row rows leads_keys;
  extract_rows (leads_step hc.2) (drop (hc.1 + 1) rows) [].

(** ** [parse_otr] *)

Definition otr_keys : list string :=
  ["driver name"; "ajg dt"; "gh dt"; "onboarding training"].

(** The dictionary [rec] of a row; [n] is [len(out)]. *)
Definition otr_record (prefix : string) (cols : gmap string nat) (n : nat)
    (row : list string) : result record :=
  let name := get row (cols !! "driver name") in
  passed ←! excel_serial_to_iso (get row (cols !! "passed"));
  rtgDate ←! excel_serial_to_iso (get row (cols !! "rtg date"));
  Ok [
    ("id", make_id prefix (n + 1));
    ("passed", passed);
    ("name", name);
    ("age", get row (cols !! "age"));
    ("position", get row (cols !! "position"));
    ("yoe", get row (cols !! "years of experience"));
    ("phone", get row (cols !! "phone#"));
    ("location", get row (cols !! "location"));
    ("ajgCH", get row (cols !! "ajg ch"));
    ("ghCH", get row (cols !! "gh ch"));
    ("i9", get row (cols !! "i9"));
    ("nhpw", get row (cols !! "nhpw"));
    ("ajgDT", get row (cols !! "ajg dt"));
    ("ghDT", get row (cols !! "gh dt"));
    ("onboarding", get row (cols !! "onboarding training"));
    ("insurance", get row (cols !! "added to insurance"));
    ("gtg", get row (cols !! "gtg?"));
    ("dispatched", get row (cols !! "dispatched"));
    ("notes", get row (cols !! "notes"));
    ("rtgDate", rtgDate)].

Definition otr_step (prefix : string) (cols : gmap string nat) (n : nat)
    (row : list string) : result (option record) :=
  let name := get row (cols !! "driver name") in
  if is_headerish name ["driver name"] then Ok None
  else
    rec ←! otr_record prefix cols n row;
    if negb (any_but_id rec) then Ok None
    else if bool_decide (dict_item rec "name" = "") then Ok None
    else Ok (Some rec).

Definition parse_otr (rows : list (list string)) (prefix : string)
    : result (list record) :=
  hc ←! find_header_row rows otr_keys;
  extract_rows (otr_step prefix hc.2) (drop (hc.1 + 1) rows) [].

(** ** [parse_ag4_hires] *)

Definition ag4_hires_keys : list string :=
  ["driver name"; "ag4 dt"; "dot medical"; "onboarding training"].

(** The dictionary [rec] of a row; [n] is [len(out)]. *)
Definition ag4_hires_record (cols : gmap string nat) (n : nat)
    (row : list string) : result record :=
  let name := get row (cols !! "driver name") in
  passed ←! excel_serial_to_iso (get row (cols !! "passed"));
  rtgDate ←! excel_serial_to_iso (get row (cols !! "rtg date"));
  Ok [
    ("id", make_id "ag4" (n + 1));
    ("passed", passed);
    ("name", name);
    ("age", get row (cols !! "age"));
    ("position", get row (cols !! "position"));
    ("yoe", get row (cols !! "yoe"));
    ("phone", get row (cols !! "phone#"));
    ("location", get row (cols !! "location"));
    ("rtgDate", rtgDate);
    ("nhpw", get row (cols !! "nhpw"));
    ("i9", get row (cols !! "i9 call completed"));
    ("ag4DT", get row (cols !! "ag4 dt"));
    ("dotMedical", get row (cols !! "dot medical test"));
    ("onboarding", get row (cols !! "onboarding training"));
    ("insurance", get row (cols !! "added to insurance"));
    ("gtg", get row (cols !! "gtg?"));
    ("dispatched", get row (cols !! "dispatched"));
    ("notes", get row (cols !! "notes"))].

Definition ag4_hires_step (cols : gmap string nat) (n : nat)
    (row : list string) : result (option record) :=
  let name := get row (cols !! "driver name") in
  if is_headerish name ["driver name"] then Ok None
  else
    rec ←! ag4_hires_record cols n row;
    if negb (any_but_id rec) then Ok None
    else if bool_decide (dict_item rec "name" = "") then Ok None
    else Ok (Some rec).

Definition parse_ag4_hires (rows : list (list string)) : result (list record) :=
  hc ←! find_header_row rows ag4_hires_keys;
  extract_rows (ag4_hires_step hc.2) (drop (hc.1 + 1) rows) [].

(** ** [parse_ag4_sep] *)

Definition ag4_sep_keys : list string :=
  ["driver name"; "ag4 dt"; "onboarding training"; "return date"].

(** The dictionary [rec] of a row; [n] is [len(out)]. *)
Definition ag4_sep_record (cols : gmap string nat) (n : nat)
    (row : list string) : result record :=
  let name := get row (cols !! "driver name") in
  passed ←! excel_serial_to_iso (get row (cols !! "passed"));
  rtgDate ←! excel_serial_to_iso (get row (cols !! "rtg date"));
  returnDate ←! excel_serial_to_iso (get row (cols !! "return date"));
  Ok [
    ("id", make_id "ag4sep" (n + 1));
    ("passed", passed);
    ("name", name);
    ("nhpw", get row (cols !! "nhpw"));
    ("ag4DT", get row (cols !! "ag4 dt"));
    ("onboarding", get row (cols !! "onboarding training"));
    ("insurance", get row (cols !! "added to insurance"));
    ("gtg", get row (cols !! "gtg?"));
    ("dispatched", get row (cols !! "dispatched"));
    ("notes", get row (cols !! "notes"));
    ("rtgDate", rtgDate);
    ("returnDate", returnDate);
    ("location", get row (cols !! "location"));
    ("phone", get row (cols !! "number"));
    ("position", get row (cols !! "position"))].

Definition ag4_sep_step (cols : gmap string nat) (n : nat)
    (row : list string) : result (option record) :=
  let name := get row (cols !! "driver name") in
  if is_headerish name ["driver name"] then Ok None
  else
    rec ←! ag4_sep_record cols n row;
    if negb (any_but_id rec) then Ok None
    else if bool_decide (dict_item rec "name" = "") then Ok None
    else Ok (Some rec).

Definition parse_ag4_sep (rows : list (list string)) : result (list record) :=
  hc ←! find_header_row rows ag4_sep_keys;
  extract_rows (ag4_sep_step hc.2) (drop (hc.1 + 1) rows) [].

(** ** [parse_historical] *)

Definition historical_keys : list string :=
  ["last name"; "first name"; "termination date"].

Definition historical_phrases : list string :=
  ["last name"; "past drivers"; "drivers that have been dismissed"].

(** The dictionary [rec] of a row; [n] is [len(out)]. *)
Definition historical_record (cols : gmap string nat) (n : nat)
    (row : list string) : result record :=
  let ln := get row (cols !! "last name") in
  terminationDate ←! excel_serial_to_iso (get row (cols !! "termination date"));
  Ok [
    ("id", make_id "hist" (n + 1));
    ("lastName", ln);
    ("firstName", get row (cols !! "first name"));
    ("position", get row (cols !! "position"));
    ("terminationDate", terminationDate);
    ("incentives", str_or (get row (cols !! "incentives"))
                          (get row (cols !! "incentives ")))].

Definition historical_step (cols : gmap string nat) (n : nat)
    (row : list string) : result (option record) :=
  let ln := get row (cols !! "last name") in
  if is_headerish ln historical_phrases then Ok None
  else
    rec ←! historical_record cols n row;
    if negb (any_but_id rec) then Ok None
    else if bool_decide (dict_item rec "lastName" = "") then Ok None
    else Ok (Some rec).

Definition parse_historical (rows : list (list string)) : result (list record) :=
  hc ←! find_header_row rows historical_keys;
  extract_rows (historical_step hc.2) (drop (hc.1 + 1) rows) [].

(** ** [dedupe_otr] *)

(** [r.get(key, '')]. *)
Definition dict_get_default (r : record) (key : string) : string :=
  default "" (dict_get key r).

Definition otr_key (r : record) : string * string * string * string :=
  (lower (normalize_text (dict_get_default r "name")),
   normalize_text (dict_get_default r "phone"),
   normalize_text (dict_get_default r "passed"),
   normalize_text (dict_get_default r "rtgDate")).

(** The first loop: [seen] and [out] are the two accumulators. *)
Fixpoint dedupe_loop (seen : gset (string * string * string * string))
    (out : list record) (records : list record) : list record :=
  match records with
  | [] => out
  | r :: rest =>
      let key := otr_key r in
      if bool_decide (key ∈ seen) then dedupe_loop seen out rest
      else dedupe_loop ({[key]} ∪ seen) (out ++ [r]) rest
  end.

(** The second loop renumbers: [enumerate(out, 1)] starts at 1.  The script
    writes the identifier into the record object that the caller passed;
    the returned list holds one object per key, so that no object of the
    result is written twice. *)
Definition dedupe_otr (records : list record) : list record :=
  imap (λ i r, dict_set "id" (make_id "otr" (i + 1)) r)
       (dedupe_loop ∅ [] records).

(** ** The workbook of [load_workbook_rows]

    The archive is taken as opened and its members as parsed: what the
    script reads of them is kept, the rest of the XML is left out.  The
    model starts where the archive has its workbook member with a [sheets]
    element and its relationship member, and every member that is read is
    well-formed XML; the exceptions of [zipfile] and of the XML parser on
    other archives are outside it. *)

(** The exceptions of the driver: a key that a dictionary, an attribute
    table or the archive does not have, or an exception of an extractor. *)
Inductive run_exn : Type :=
  | KeyError (key : string)
  | Extractor (e : exn).

Inductive outcome (A : Type) : Type :=
  | Done (a : A)
  | Failed (e : run_exn).
Arguments Done {A} a.
Arguments Failed {A} e.

Definition and_then {A B} (r : outcome A) (k : A → outcome B) : outcome B :=
  match r with
  | Done a => k a
  | Failed e => Failed e
  end.

Notation "x ←? r ; k" := (and_then r (λ x, k))
  (at level 20, r at level 100, k at level 200, right associativity,
   format "x  ←?  r ;  '/' k").

(** Lines 49-53.  [ss] holds, for each [si] element of the shared-string
    member, the texts of its [t] descendants; it is [None] when the archive
    has no such member.  Each [si] gives one text, [''.join(...)]. *)
Definition shared_strings (ss : option (list (list (option string))))
    : list string :=
  match ss with
  | None => []
  | Some sis => (λ ts, join "" (text_or_empty <$> ts)) <$> sis
  end.

(** A child of the root of the relationship member: its attributes [Id]
    and [Target], when present. *)
Record rel_elem : Type := {
  rel_id : option string;
  rel_target : option string;
}.

(** A child of the [sheets] element of the workbook member: its attribute
    [name] and its relationship id, when present. *)
Record sheet_elem : Type := {
  sheet_name : option string;
  sheet_rid : option string;
}.

(** What the script reads of the archive: the [si] elements, the sheet and
    relationship elements, and the [row] elements under [sheetData] of the
    members that are worksheets, by member name. *)
Record archive : Type := {
  shared_si : option (list (list (option string)));
  workbook_sheets : list sheet_elem;
  workbook_rels : list rel_elem;
  worksheet_member : gmap string (list (list cell_elem));
}.

(** [{r.attrib['Id']: r.attrib['Target'] for r in rels}]. *)
Fixpoint rel_map (rels : list rel_elem) (relmap : gmap string string)
    : outcome (gmap string string) :=
  match rels with
  | [] => Done relmap
  | r :: rest =>
      match rel_id r with
      | None => Failed (KeyError "Id")
      | Some id =>
          match rel_target r with
          | None => Failed (KeyError "Target")
          | Some target => rel_map rest (<[id := target]> relmap)
          end
      end
  end.

(** [relmap.get(rid, '')], [rid] being [s.attrib.get(...)]. *)
Definition sheet_target (relmap : gmap string string) (s : sheet_elem) : string :=
  default "" (sheet_rid s ≫= λ rid, relmap !! rid).

(** The loop over the sheet elements (lines 60-95): a sheet whose target
    is not a worksheet is passed over, a worksheet that the archive does
    not have is a [KeyError] of [z.read]. *)
Fixpoint load_sheets (members : gmap string (list (list cell_elem)))
    (shared : list string) (relmap : gmap string string)
    (elems : list sheet_elem) (sheets : gmap string (list (list string)))
    : outcome (gmap string (list (list string))) :=
  match elems with
  | [] => Done sheets
  | s :: rest =>
      match sheet_name s with
      | None => Failed (KeyError "name")
      | Some name =>
          let target := sheet_target relmap s in
          if negb (is_prefix "worksheets/" target)
          then load_sheets members shared relmap rest sheets
          else
            match members !! ("xl/" +:+ target) with
            | None => Failed (KeyError ("xl/" +:+ target))
            | Some sheet_data =>
                load_sheets members shared relmap rest
                  (<[name := worksheet_rows shared sheet_data]> sheets)
            end
      end
  end.

Definition load_workbook_rows (a : archive)
    : outcome (gmap string (list (list string))) :=
  let shared := shared_strings (shared_si a) in
  relmap ←? rel_map (workbook_rels a) ∅;
  load_sheets (worksheet_member a) shared relmap (workbook_sheets a) ∅.

(** ** [main]: the database *)

(** [sheets[name]]. *)
Definition sheet_item (sheets : gmap string (list (list string)))
    (name : string) : outcome (list (list string)) :=
  match sheets !! name with
  | Some rows => Done rows
  | None => Failed (KeyError name)
  end.

(** The call of an extractor from [main]. *)
Definition run {A} (r : result A) : outcome A :=
  match r with
  | Ok a => Done a
  | Raise e => Failed (Extractor e)
  end.

(** Lines 316-332: the dictionary [db], from the sheets. *)
Definition build_db (sheets : gmap string (list (list string)))
    : outcome (list (string * list record)) :=
  rows ←? sheet_item sheets "Driver Utilization (Driver Sep)";
  drivers ←? run (parse_drivers rows);
  rows ←? sheet_item sheets "LEADS";
  leads ←? run (parse_leads rows);
  rows ←? sheet_item sheets "OTR New Hires Status";
  otr_main ←? run (parse_otr rows "otrmain");
  rows ←? sheet_item sheets "AJGGH New Hires Status";
  otr_ajggh ←? run (parse_otr rows "otrajggh");
  let otr := dedupe_otr (otr_main ++ otr_ajggh) in
  rows ←? sheet_item sheets "AG4 New Hire Status";
  ag4_hires ←? run (parse_ag4_hires rows);
  rows ←? sheet_item sheets "AG4 Driver Sep";
  ag4_sep ←? run (parse_ag4_sep rows);
  rows ←? sheet_item sheets "Historical Drivers";
  historical ←? run (parse_historical rows);
  Done [ ("driversSep", drivers);
         ("leads", leads);
         ("otrHires", otr);
         ("ag4Hires", ag4_hires);
         ("ag4Sep", ag4_sep);
         ("historical", historical) ].

(** The database of [main], from the archive. *)
Definition main_db (a : archive) : outcome (list (string * list record)) :=
  sheets ←? load_workbook_rows a;
  build_db sheets.

(** ** Auxiliary definitions of the proofs *)

(** The month and day of the [n]-th day (from 0) of a year. *)
Definition month_day (leapyear : bool) (n : Z) : Z * Z :=
  let month := Z.shiftr (n + 50) 5 in
  let preceding :=
    DAYS_BEFORE_MONTH month + (if (2 <? month) && leapyear then 1 else 0) in
  if n <? preceding then
    let month := month - 1 in
    let preceding :=
      preceding
      - (DAYS_IN_MONTH month + (if (month =? 2) && leapyear then 1 else 0)) in
    (month, n - preceding + 1)
  else (month, n - preceding + 1).

Definition month_day_ok (leapyear : bool) (n : Z) : bool :=
  let '(m, d) := month_day leapyear n in
  (1 <=? m) && (m <=? 12) && (1 <=? d)
  && (d <=? (if (m =? 2) && leapyear then 29 else DAYS_IN_MONTH m))
  && (DAYS_BEFORE_MONTH m + (if (2 <? m) && leapyear then 1 else 0) + d =? n + 1).

(** [value] is in the language of [\d+(?:\.0+)?], with [digits] the part
    matched by [\d+]. *)
Definition matches_serial (value digits : string) : Prop :=
  digits ≠ "" ∧ all_chars is_digit digits = true
  ∧ (value = digits
     ∨ ∃ zeros, value = digits +:+ String "."%char zeros
                ∧ zeros ≠ "" ∧ all_chars is_zero_char zeros = true).

Definition not_space (ch : ascii) : bool := negb (is_space ch).

(** The title of a header cell as the header map records it. *)
Definition title (v : string) : string := lower (normalize_text v).

(** [k] occurs in [s]. *)
Definition occurs_in (k s : string) : Prop :=
  ∃ before after, s = before +:+ k +:+ after.

(** The joined text of [row] contains every keyword of [must_have]. *)
Definition has_all_keys (must_have row : list string) : Prop :=
  ∀ k, k ∈ must_have → occurs_in k (header_text row).

(** The column number of a [c] element, when its reference matches. *)
Definition cell_column (c : cell_elem) : option Z :=
  col_to_num <$> match_cell_ref (default "" (attr_r c)).

(** The column numbers seen in a [row] element. *)
Definition row_columns (rr : list cell_elem) : list Z := omap cell_column rr.

(** The records of [records] whose key is neither that of a record of
    [before] nor that of an earlier record of [records]. *)
Definition first_occurrences_after (before records : list record) : list record :=
  omap id
    (imap (λ i r,
             if decide (otr_key r ∈ otr_key <$> (before ++ take i records))
             then None else Some r)
          records).

(** The first record of each group of equal keys, in the order of the
    input. *)
Definition first_occurrences (records : list record) : list record :=
  first_occurrences_after [] records.

(** *** The six extractors seen as one

    The definitions below only name the parts of the six extractors, so
    that one statement covers them all. *)

Inductive sheet : Type :=
  | Drivers
  | Leads
  | Otr (prefix : string)
  | Ag4Hires
  | Ag4Sep
  | Historical.

Definition parse_sheet (s : sheet) (rows : list (list string))
    : result (list record) :=
  match s with
  | Drivers => parse_drivers rows
  | Leads => parse_leads rows
  | Otr prefix => parse_otr rows prefix
  | Ag4Hires => parse_ag4_hires rows
  | Ag4Sep => parse_ag4_sep rows
  | Historical => parse_historical rows
  end.

Definition sheet_keys (s : sheet) : list string :=
  match s with
  | Drivers => drivers_keys
  | Leads => leads_keys
  | Otr _ => otr_keys
  | Ag4Hires => ag4_hires_keys
  | Ag4Sep => ag4_sep_keys
  | Historical => historical_keys
  end.

Definition sheet_step (s : sheet)
    : gmap string nat → nat → list string → result (option record) :=
  match s with
  | Drivers => drivers_step
  | Leads => leads_step
  | Otr prefix => otr_step prefix
  | Ag4Hires => ag4_hires_step
  | Ag4Sep => ag4_sep_step
  | Historical => historical_step
  end.

(** The identity field of a row. *)
Definition sheet_identity (s : sheet) (cols : gmap string nat)
    (row : list string) : string :=
  match s with
  | Drivers => get row (cols !! "driver name:")
  | Historical => get row (cols !! "last name")
  | _ => get row (cols !! "driver name")
  end.

(** The header-echo and caption phrases of a sheet. *)
Definition sheet_phrases (s : sheet) : list string :=
  match s with
  | Drivers => drivers_phrases
  | Historical => historical_phrases
  | _ => ["driver name"]
  end.

(** The record that [parse_drivers] appends. *)
Definition drivers_record (cols : gmap string nat) (n : nat)
    (row : list string) : record :=
  [ ("id", make_id "sep" (n + 1));
    ("name", get row (cols !! "driver name:"));
    ("homeBase", get row (cols !! "home base:"));
    ("position", str_or (get row (cols !! position_title_nl))
                        (get row (cols !! "position / division")));
    ("notes", get row (cols !! "driver availability & constraints"));
    ("twic", str_or (get row (cols !! "twic card"))
                    (get row (cols !! "twic card ")));
    ("hiredCity", "");
    ("currentCity", "");
    ("preferredPartner", "");
    ("routeRestrictions", "") ].

Definition sheet_record (s : sheet) (cols : gmap string nat) (n : nat)
    (row : list string) : result record :=
  match s with
  | Drivers => Ok (drivers_record cols n row)
  | Leads => leads_record cols n row
  | Otr prefix => otr_record prefix cols n row
  | Ag4Hires => ag4_hires_record cols n row
  | Ag4Sep => ag4_sep_record cols n row
  | Historical => historical_record cols n row
  end.

(** The rows that an extractor does not pass over. *)
Definition kept_rows (s : sheet) (cols : gmap string nat)
    (rows : list (list string)) : list (list string) :=
  filter (λ row, is_headerish (sheet_identity s cols row) (sheet_phrases s) = false)
         rows.

(** All the results in order, or the first exception. *)
Fixpoint collect {A} (rs : list (result A)) : result (list A) :=
  match rs with
  | [] => Ok []
  | r :: rest => a ←! r; l ←! collect rest; Ok (a :: l)
  end.

(** The fields of the records of a sheet that are read from a column, each
    with the titles under which the column is looked up. *)
Definition sheet_fields (s : sheet) : list (string * list string) :=
  match s with
  | Drivers =>
      [ ("name", ["driver name:"]);
        ("homeBase", ["home base:"]);
        ("position", [position_title_nl; "position / division"]);
        ("notes", ["driver availability & constraints"]);
        ("twic", ["twic card"; "twic card "]) ]
  | Leads =>
      [ ("name", ["driver name"]);
        ("dateAccepted", ["date of position acceptance"]);
        ("dateSentPhase2", ["date sent to phase 2"]);
        ("position", ["position"]);
        ("recruiter", ["recruiter"]);
        ("notes", ["notes"]) ]
  | Otr _ =>
      [ ("passed", ["passed"]);
        ("name", ["driver name"]);
        ("age", ["age"]);
        ("position", ["position"]);
        ("yoe", ["years of experience"]);
        ("phone", ["phone#"]);
        ("location", ["location"]);
        ("ajgCH", ["ajg ch"]);
        ("ghCH", ["gh ch"]);
        ("i9", ["i9"]);
        ("nhpw", ["nhpw"]);
        ("ajgDT", ["ajg dt"]);
        ("ghDT", ["gh dt"]);
        ("onboarding", ["onboarding training"]);
        ("insurance", ["added to insurance"]);
        ("gtg", ["gtg?"]);
        ("dispatched", ["dispatched"]);
        ("notes", ["notes"]);
        ("rtgDate", ["rtg date"]) ]
  | Ag4Hires =>
      [ ("passed", ["passed"]);
        ("name", ["driver name"]);
        ("age", ["age"]);
        ("position", ["position"]);
        ("yoe", ["yoe"]);
        ("phone", ["phone#"]);
        ("location", ["location"]);
        ("rtgDate", ["rtg date"]);
        ("nhpw", ["nhpw"]);
        ("i9", ["i9 call completed"]);
        ("ag4DT", ["ag4 dt"]);
        ("dotMedical", ["dot medical test"]);
        ("onboarding", ["onboarding training"]);
        ("insurance", ["added to insurance"]);
        ("gtg", ["gtg?"]);
        ("dispatched", ["dispatched"]);
        ("notes", ["notes"]) ]
  | Ag4Sep =>
      [ ("passed", ["passed"]);
        ("name", ["driver name"]);
        ("nhpw", ["nhpw"]);
        ("ag4DT", ["ag4 dt"]);
        ("onboarding", ["onboarding training"]);
        ("insurance", ["added to insurance"]);
        ("gtg", ["gtg?"]);
        ("dispatched", ["dispatched"]);
        ("notes", ["notes"]);
        ("rtgDate", ["rtg date"]);
        ("returnDate", ["return date"]);
        ("location", ["location"]);
        ("phone", ["number"]);
        ("position", ["position"]) ]
  | Historical =>
      [ ("lastName", ["last name"]);
        ("firstName", ["first name"]);
        ("position", ["position"]);
        ("terminationDate", ["termination date"]);
        ("incentives", ["incentives"; "incentives "]) ]
  end.

(** The titles of the columns that a sheet converts as date serials. *)
Definition sheet_date_titles (s : sheet) : list string :=
  match s with
  | Drivers => []
  | Leads => ["date of position acceptance"; "date sent to phase 2"]
  | Otr _ => ["passed"; "rtg date"]
  | Ag4Hires => ["passed"; "rtg date"]
  | Ag4Sep => ["passed"; "rtg date"; "return date"]
  | Historical => ["termination date"]
  end.

(** The first text of a list that is not empty, the empty text if there is
    none. *)
Fixpoint first_nonempty (vals : list string) : string :=
  match vals with
  | [] => ""
  | v :: rest => if bool_decide (v = "") then first_nonempty rest else v
  end.

(** The fields that are looked up under a primary title and a fallback. *)
Definition fallback_fields : list (sheet * string * list string) :=
  [ (Drivers, "position", [position_title_nl; "position / division"]);
    (Drivers, "twic", ["twic card"; "twic card "]);
    (Historical, "incentives", ["incentives"; "incentives "]) ].

(** The text does not start with a white-space character. *)
Definition starts_clean (s : string) : bool :=
  match s with
  | EmptyString => true
  | String ch _ => negb (is_space ch)
  end.

(** *** Auxiliary definitions of the further properties *)

(** The text has no carriage return. *)
Definition no_CR (s : string) : bool :=
  all_chars (λ ch, negb (bool_decide ("013"%char = ch))) s.

(** The text is in the form that [normalize_text] produces: no carriage
    return and no white space at either end. *)
Definition normalized (s : string) : Prop :=
  no_CR s = true ∧ starts_clean s = true ∧ starts_clean (String.rev s) = true.

(** A character of an ISO date: a digit or a dash. *)
Definition is_date_char (ch : ascii) : bool :=
  is_digit ch || bool_decide (ch = "-"%char).

(** The prefix of the identifiers of a sheet. *)
Definition sheet_prefix (s : sheet) : string :=
  match s with
  | Drivers => "sep"
  | Leads => "lead"
  | Otr prefix => prefix
  | Ag4Hires => "ag4"
  | Ag4Sep => "ag4sep"
  | Historical => "hist"
  end.

(** The field names of the records of a sheet, in the order in which the
    script writes them. *)
Definition sheet_columns (s : sheet) : list string :=
  match s with
  | Drivers =>
      ["id"; "name"; "homeBase"; "position"; "notes"; "twic"; "hiredCity";
       "currentCity"; "preferredPartner"; "routeRestrictions"]
  | Leads =>
      ["id"; "name"; "dateAccepted"; "dateSentPhase2"; "position";
       "recruiter"; "notes"]
  | Otr _ =>
      ["id"; "passed"; "name"; "age"; "position"; "yoe"; "phone"; "location";
       "ajgCH"; "ghCH"; "i9"; "nhpw"; "ajgDT"; "ghDT"; "onboarding";
       "insurance"; "gtg"; "dispatched"; "notes"; "rtgDate"]
  | Ag4Hires =>
      ["id"; "passed"; "name"; "age"; "position"; "yoe"; "phone"; "location";
       "rtgDate"; "nhpw"; "i9"; "ag4DT"; "dotMedical"; "onboarding";
       "insurance"; "gtg"; "dispatched"; "notes"]
  | Ag4Sep =>
      ["id"; "passed"; "name"; "nhpw"; "ag4DT"; "onboarding"; "insurance";
       "gtg"; "dispatched"; "notes"; "rtgDate"; "returnDate"; "location";
       "phone"; "position"]
  | Historical =>
      ["id"; "lastName"; "firstName"; "position"; "terminationDate";
       "incentives"]
  end.

(** The name of the identity field in the records of a sheet. *)
Definition identity_field (s : sheet) : string :=
  match s with
  | Historical => "lastName"
  | _ => "name"
  end.

(** The fields of the records of a sheet that hold converted dates. *)
Definition sheet_date_fields (s : sheet) : list string :=
  match s with
  | Drivers => []
  | Leads => ["dateAccepted"; "dateSentPhase2"]
  | Otr _ => ["passed"; "rtgDate"]
  | Ag4Hires => ["passed"; "rtgDate"]
  | Ag4Sep => ["passed"; "rtgDate"; "returnDate"]
  | Historical => ["terminationDate"]
  end.

(** The capital letter of value [v], for [1 ≤ v ≤ 26]. *)
Definition letter_of_value (v : Z) : ascii := ascii_of_N (Z.to_N (64 + v)).

(** The relationship table when every relationship element has its two
    attributes: a later element replaces an earlier one of the same id. *)
Definition rel_table_from (relmap : gmap string string)
    (rels : list rel_elem) : gmap string string :=
  foldl (λ m r,
           match rel_id r, rel_target r with
           | Some id, Some target => <[id := target]> m
           | _, _ => m
           end) relmap rels.

Definition rel_table (rels : list rel_elem) : gmap string string :=
  rel_table_from ∅ rels.

(** The sheet element names a worksheet of the archive. *)
Definition is_worksheet (relmap : gmap string string) (s : sheet_elem) : Prop :=
  is_prefix "worksheets/" (sheet_target relmap s) = true.

(** The sheets that [main] reads, each with its extractor, in the order of
    the script. *)
Definition sheet_plan : list (string * sheet) :=
  [ ("Driver Utilization (Driver Sep)", Drivers);
    ("LEADS", Leads);
    ("OTR New Hires Status", Otr "otrmain");
    ("AJGGH New Hires Status", Otr "otrajggh");
    ("AG4 New Hire Status", Ag4Hires);
    ("AG4 Driver Sep", Ag4Sep);
    ("Historical Drivers", Historical) ].

(** The categories of the database, each with the prefix of its
    identifiers. *)
Definition db_prefixes : list (string * string) :=
  [ ("driversSep", "sep");
    ("leads", "lead");
    ("otrHires", "otr");
    ("ag4Hires", "ag4");
    ("ag4Sep", "ag4sep");
    ("historical", "hist") ].

(** What [main] gets for one entry of the plan: the item of the sheet
    dictionary, then the extractor on it. *)
Definition sheet_result (sheets : gmap string (list (list string)))
    (p : string * sheet) : outcome (list record) :=
  rows ←? sheet_item sheets p.1;
  run (parse_sheet p.2 rows).

(** The results of a sequence of steps, up to the first that fails. *)
Fixpoint all_done {A} (rs : list (outcome A)) : outcome (list A) :=
  match rs with
  | [] => Done []
  | r :: rest =>
      a ←? r;
      others ←? all_done rest;
      Done (a :: others)
  end.

(** The database from the outputs of the seven extractors, in the order of
    the plan. *)
Definition db_of (outs : list (list record)) : list (string * list record) :=
  match outs with
  | [drivers; leads; otr_main; otr_ajggh; ag4_hires; ag4_sep; historical] =>
      [ ("driversSep", drivers);
        ("leads", leads);
        ("otrHires", dedupe_otr (otr_main ++ otr_ajggh));
        ("ag4Hires", ag4_hires);
        ("ag4Sep", ag4_sep);
        ("historical", historical) ]
  | _ => []
  end.

(** *** A small workbook

    One worksheet per entry of the plan and a chart sheet; a cell holds its
    text as a value, but for the text of the one shared string, which it
    holds by index. *)
Definition example_cell (r v : string) : cell_elem :=
  if bool_decide (v = "Driver Name")
  then {| attr_r := Some r; attr_t := Some "s"; inline_t := None;
          value_v := Some (Some "0") |}
  else {| attr_r := Some r; attr_t := None; inline_t := None;
          value_v := Some (Some v) |}.

Definition example_member (rows : list (list string))
    : list (list cell_elem) :=
  imap (λ i row,
          imap (λ j v,
                  example_cell
                    (String (letter_of_value (Z.of_nat j + 1))
                            (str_of_nat (i + 1))) v)
               row)
       rows.

Definition example_grids : list (string * list (list string)) :=
  [ ("Driver Utilization (Driver Sep)",
     [ ["Driver Name:"; "Home Base:"; "Driver Availability & Constraints"];
       ["Al"; "Reno"; "none"] ]);
    ("LEADS",
     [ ["Driver Name"; "Date of Position Acceptance"; "Date Sent to Phase 2"];
       ["Bo"; ""; "45000"] ]);
    ("OTR New Hires Status",
     [ ["Driver Name"; "AJG DT"; "GH DT"; "Onboarding Training"];
       ["Cy"; ""; ""; ""];
       ["Di"; ""; ""; ""] ]);
    ("AJGGH New Hires Status",
     [ ["Driver Name"; "AJG DT"; "GH DT"; "Onboarding Training"];
       ["Cy"; ""; ""; ""];
       ["Ed"; ""; ""; ""] ]);
    ("AG4 New Hire Status",
     [ ["Driver Name"; "AG4 DT"; "DOT Medical"; "Onboarding Training"];
       ["Fa"; ""; ""; ""] ]);
    ("AG4 Driver Sep",
     [ ["Driver Name"; "AG4 DT"; "Onboarding Training"; "Return Date"];
       ["Gi"; ""; ""; ""] ]);
    ("Historical Drivers",
     [ ["Last Name"; "First Name"; "Termination Date"];
       ["Ho"; "Hal"; ""] ]) ].

Definition example_sheets : gmap string (list (list string)) :=
  list_to_map example_grids.

Definition example_archive : archive :=
  {| shared_si := Some [[Some "Driver "; None; Some "Name"]];
     workbook_sheets :=
       {| sheet_name := Some "Chart"; sheet_rid := Some "rId0" |}
       :: imap (λ i g, {| sheet_name := Some g.1;
                          sheet_rid := Some ("rId" +:+ str_of_nat (i + 1)) |})
               example_grids;
     workbook_rels :=
       {| rel_id := Some "rId0";
          rel_target := Some "chartsheets/sheet1.xml" |}
       :: imap (λ i g, {| rel_id := Some ("rId" +:+ str_of_nat (i + 1));
                          rel_target :=
                            Some ("worksheets/sheet" +:+ str_of_nat (i + 1)
                                  +:+ ".xml") |})
               example_grids;
     worksheet_member :=
       list_to_map
         (imap (λ i g,
                  ("xl/worksheets/sheet" +:+ str_of_nat (i + 1) +:+ ".xml",
                   example_member g.2))
               example_grids) |}.

(** The database of the small workbook. *)
Definition example_db : list (string * list record) :=
  Eval vm_compute in
    match build_db example_sheets with
    | Done db => db
    | Failed _ => []
    end.

(** * Properties *)

(** ** Evaluation on sample inputs *)

Example col_to_num_A : col_to_num "A" = 1.
Proof. reflexivity. Qed.

Example col_to_num_BA : col_to_num "BA" = 53.
Proof. reflexivity. Qed.

Example strip_spaces : strip "  a b  " = "a b".
Proof. reflexivity. Qed.

Example lower_title : lower "Driver NAME:" = "driver name:".
Proof. reflexivity. Qed.

Example contains_keyword :
  contains "a | driver name | b" "driver name" = true.
Proof. reflexivity. Qed.

Example str_of_nat_120 : str_of_nat 120 = "120".
Proof. reflexivity. Qed.

Example normalize_text_line_ends :
  normalize_text (" a" +:+ CR +:+ LF +:+ "b" +:+ CR +:+ "c" +:+ CR)
  = "a" +:+ LF +:+ "b" +:+ LF +:+ "c".
Proof. reflexivity. Qed.

Example serial_1 : excel_serial_to_iso "1" = Ok "1899-12-31".
Proof. reflexivity. Qed.

Example serial_2 : excel_serial_to_iso "2" = Ok "1900-01-01".
Proof. reflexivity. Qed.

Example serial_60 : excel_serial_to_iso " 60 " = Ok "1900-02-28".
Proof. reflexivity. Qed.

Example serial_45000 : excel_serial_to_iso "45000.00" = Ok "2023-03-15".
Proof. reflexivity. Qed.

Example serial_last : excel_serial_to_iso "2958465" = Ok "9999-12-31".
Proof. vm_compute. reflexivity. Qed.

Example serial_beyond : excel_serial_to_iso "2958466" = Raise OverflowError.
Proof. vm_compute. reflexivity. Qed.

Example py_int_samples :
  py_int " +1_0 " = Some 10 ∧ py_int "-3" = Some (-3)
  ∧ py_int "1__0" = None ∧ py_int "1.0" = None ∧ py_int "" = None.
Proof. repeat split; reflexivity. Qed.

Example py_index_samples :
  py_index ["a"; "b"; "c"] 2 = Some "c" ∧ py_index ["a"; "b"; "c"] 3 = None
  ∧ py_index ["a"; "b"; "c"] (-3) = Some "a"
  ∧ py_index ["a"; "b"; "c"] (-4) = None.
Proof. repeat split; reflexivity. Qed.

(** ** Strings *)

Lemma app_cons (ch : ascii) (s t : string) :
  String ch s +:+ t = String ch (s +:+ t).
Proof. reflexivity. Qed.

Lemma app_empty_l (t : string) : "" +:+ t = t.
Proof. reflexivity. Qed.

Lemma app_empty_r (s : string) : s +:+ "" = s.
Proof. induction s as [|ch s IH]; [done|]. by rewrite app_cons, IH. Qed.

Lemma app_assoc_str (s t u : string) : (s +:+ t) +:+ u = s +:+ t +:+ u.
Proof. induction s as [|ch s IH]; [done|]. by rewrite !app_cons, IH. Qed.

Lemma app_length_str (s t : string) :
  String.length (s +:+ t) = (String.length s + String.length t)%nat.
Proof. induction s as [|ch s IH]; [done|]. rewrite app_cons. cbn. by rewrite IH. Qed.

Lemma all_chars_app (p : ascii → bool) (s t : string) :
  all_chars p (s +:+ t) = all_chars p s && all_chars p t.
Proof.
  induction s as [|ch s IH]; [done|]. rewrite app_cons. cbn. rewrite IH.
  by destruct (p ch).
Qed.

Lemma snoc_cases (s : string) :
  s = "" ∨ ∃ s' ch, s = s' +:+ String ch "".
Proof.
  induction s as [|a s IH]; [by left|right].
  destruct IH as [->|(s' & ch & ->)].
  - by exists "", a.
  - by exists (String a s'), ch.
Qed.

Lemma ord_inj (a b : ascii) : ord a = ord b → a = b.
Proof.
  unfold ord. intros H%N2Z.inj.
  rewrite <- (ascii_N_embedding a), <- (ascii_N_embedding b). by rewrite H.
Qed.

Lemma ord_range (ch : ascii) : 0 ≤ ord ch < 256.
Proof. unfold ord. pose proof (N_ascii_bounded ch). lia. Qed.

(** ** [strip] *)

Lemma rev_app_rev_app (s1 s2 s3 : string) :
  String.rev_app (String.rev_app s1 s2) s3 = String.rev_app s2 (s1 +:+ s3).
Proof.
  revert s2 s3. induction s1 as [|ch s1 IH]; intros s2 s3; [done|].
  cbn. by rewrite IH.
Qed.

Lemma rev_involutive (s : string) : String.rev (String.rev s) = s.
Proof. unfold String.rev. rewrite rev_app_rev_app. cbn. apply app_empty_r. Qed.

Lemma all_chars_rev_app (p : ascii → bool) (s1 s2 : string) :
  all_chars p (String.rev_app s1 s2) = all_chars p s1 && all_chars p s2.
Proof.
  revert s2. induction s1 as [|ch s1 IH]; intros s2; [done|].
  cbn. rewrite IH. cbn. destruct (p ch), (all_chars p s1); done.
Qed.

Lemma lstrip_no_space (s : string) :
  all_chars not_space s = true → lstrip s = s.
Proof.
  destruct s as [|ch s]; [done|]. cbn. unfold not_space at 1.
  by destruct (is_space ch).
Qed.

Lemma strip_no_space (s : string) :
  all_chars not_space s = true → strip s = s.
Proof.
  intros Hs. unfold strip, rstrip. rewrite (lstrip_no_space s Hs).
  rewrite lstrip_no_space; [apply rev_involutive|].
  unfold String.rev. by rewrite all_chars_rev_app, Hs.
Qed.

Lemma all_chars_impl (p q : ascii → bool) (s : string) :
  (∀ ch, p ch = true → q ch = true) →
  all_chars p s = true → all_chars q s = true.
Proof.
  intros Hpq. induction s as [|ch s IH]; [done|]. cbn.
  rewrite !andb_true_iff. intros [??]. auto.
Qed.

Lemma digit_not_space (ch : ascii) : is_digit ch = true → not_space ch = true.
Proof.
  unfold is_digit, not_space, is_space. cbv zeta.
  rewrite andb_true_iff, !Z.leb_le. intros [??].
  rewrite negb_true_iff, !orb_false_iff, !andb_false_iff, !Z.leb_gt, !Z.eqb_neq.
  lia.
Qed.

Lemma zero_char_not_space (ch : ascii) :
  is_zero_char ch = true → not_space ch = true.
Proof. unfold is_zero_char. by intros ->%bool_decide_eq_true. Qed.

(** ** Trimmed texts *)

Lemma rev_app_append (s1 s2 : string) :
  String.rev_app s1 s2 = String.rev s1 +:+ s2.
Proof.
  unfold String.rev. revert s2. induction s1 as [|ch s1 IH]; intros s2; [done|].
  cbn. rewrite (IH (String ch s2)), (IH (String ch "")).
  by rewrite app_assoc_str.
Qed.

Lemma rev_append (a b : string) :
  String.rev (a +:+ b) = String.rev b +:+ String.rev a.
Proof.
  induction a as [|ch a IH].
  - by rewrite app_empty_l, app_empty_r.
  - rewrite app_cons. unfold String.rev in *. cbn.
    rewrite (rev_app_append (a +:+ b)), (rev_app_append a).
    unfold String.rev. rewrite IH. by rewrite app_assoc_str.
Qed.

Lemma lstrip_starts_clean (s : string) : starts_clean (lstrip s) = true.
Proof.
  induction s as [|ch s IH]; [done|]. cbn.
  destruct (is_space ch) eqn:Hch; [done|]. cbn. by rewrite Hch.
Qed.

Lemma lstrip_clean (s : string) : starts_clean s = true → lstrip s = s.
Proof.
  destruct s as [|ch s]; [done|]. cbn. by destruct (is_space ch).
Qed.

Lemma lstrip_split (s : string) :
  ∃ w, s = w +:+ lstrip s ∧ all_chars is_space w = true.
Proof.
  induction s as [|ch s (w & Hw & Hsp)]; [by exists ""|]. cbn.
  destruct (is_space ch) eqn:Hch.
  - exists (String ch w). rewrite app_cons, <- Hw. cbn. by rewrite Hch.
  - by exists "".
Qed.

Lemma starts_clean_app (a b : string) :
  a ≠ "" → starts_clean (a +:+ b) = starts_clean a.
Proof. by destruct a. Qed.

Lemma strip_starts_clean (s : string) :
  starts_clean (strip s) = true ∧ starts_clean (String.rev (strip s)) = true.
Proof.
  unfold strip, rstrip. split.
  - destruct (lstrip_split (String.rev (lstrip s))) as (w & Hw & _).
    apply (f_equal String.rev) in Hw.
    rewrite rev_involutive, rev_append in Hw.
    destruct (String.rev (lstrip (String.rev (lstrip s)))) as [|ch t] eqn:Ht;
      [done|].
    rewrite <- (starts_clean_app (String ch t) (String.rev w)) by done.
    rewrite <- Hw. apply lstrip_starts_clean.
  - rewrite rev_involutive. apply lstrip_starts_clean.
Qed.

Lemma strip_clean (s : string) :
  starts_clean s = true → starts_clean (String.rev s) = true → strip s = s.
Proof.
  intros H1 H2. unfold strip, rstrip.
  by rewrite (lstrip_clean s H1), (lstrip_clean _ H2), rev_involutive.
Qed.

Lemma strip_idemp (s : string) : strip (strip s) = strip s.
Proof. destruct (strip_starts_clean s). by apply strip_clean. Qed.

Lemma all_chars_rev (p : ascii → bool) (s : string) :
  all_chars p (String.rev s) = all_chars p s.
Proof. unfold String.rev. by rewrite all_chars_rev_app, andb_true_r. Qed.

Lemma all_chars_lstrip (p : ascii → bool) (s : string) :
  all_chars p s = true → all_chars p (lstrip s) = true.
Proof.
  induction s as [|ch s IH]; [done|]. cbn. rewrite andb_true_iff.
  intros [Hch Hs]. destruct (is_space ch); [by apply IH|].
  cbn. by rewrite Hch, Hs.
Qed.

Lemma all_chars_strip (p : ascii → bool) (s : string) :
  all_chars p s = true → all_chars p (strip s) = true.
Proof.
  intros Hs. unfold strip, rstrip. rewrite all_chars_rev.
  apply all_chars_lstrip. rewrite all_chars_rev. by apply all_chars_lstrip.
Qed.

(** ** [normalize_text] is idempotent *)

Lemma is_prefix_CR (s : string) :
  is_prefix CR s = match s with
                   | String ch _ => bool_decide ("013"%char = ch)
                   | EmptyString => false
                   end.
Proof. destruct s as [|ch s]; [done|]. cbn. by rewrite andb_true_r. Qed.

Lemma replace_CR_no_CR (s : string) :
  all_chars (λ ch, negb (bool_decide ("013"%char = ch))) (replace CR LF s) = true.
Proof.
  unfold replace. induction s as [|ch s IH]; [done|].
  cbn [replace_loop]. rewrite is_prefix_CR. case_bool_decide as Hch.
  - change (String.length CR - 1)%nat with 0%nat.
    unfold LF at 1. rewrite app_cons, app_empty_l.
    cbn [all_chars]. by rewrite IH.
  - cbn. rewrite IH. by rewrite bool_decide_eq_false_2.
Qed.

Lemma replace_loop_absent (old new s : string) :
  (∀ t, is_prefix old t = true → ∃ ch rest, t = String ch rest
        ∧ bool_decide ("013"%char = ch) = true) →
  all_chars (λ ch, negb (bool_decide ("013"%char = ch))) s = true →
  replace_loop old new 0 s = s.
Proof.
  intros Hold. induction s as [|ch s IH]; [done|]. cbn [all_chars replace_loop].
  rewrite andb_true_iff. intros [Hch Hs].
  destruct (is_prefix old (String ch s)) eqn:Hp.
  - apply Hold in Hp as (ch' & rest & [= <- <-] & Hcr). by rewrite Hcr in Hch.
  - by rewrite (IH Hs).
Qed.

Lemma normalize_text_idemp (v : string) :
  normalize_text (normalize_text v) = normalize_text v.
Proof.
  unfold normalize_text at 1.
  assert (Hno : all_chars (λ ch, negb (bool_decide ("013"%char = ch)))
                  (normalize_text v) = true).
  { unfold normalize_text. apply all_chars_strip, replace_CR_no_CR. }
  unfold replace. rewrite (replace_loop_absent (CR +:+ LF)), replace_loop_absent.
  - unfold normalize_text. apply strip_idemp.
  - intros t Ht. rewrite is_prefix_CR in Ht. destruct t as [|ch rest]; [done|].
    by exists ch, rest.
  - done.
  - intros [|ch rest] Ht; [done|]. cbn in Ht.
    apply andb_true_iff in Ht as [Hch _]. by exists ch, rest.
  - done.
Qed.

Lemma get_normalized (row : list string) (idx : option nat) :
  normalize_text (get row idx) = get row idx
  ∧ strip (get row idx) = get row idx.
Proof.
  assert (Hn : ∀ v, strip (normalize_text v) = normalize_text v)
    by (intros v; unfold normalize_text; apply strip_idemp).
  destruct idx as [i|]; [|done]. cbn. case_bool_decide; [done|].
  split; [apply normalize_text_idemp|apply Hn].
Qed.

(** ** Substrings *)

Lemma is_prefix_spec (k s : string) :
  is_prefix k s = true ↔ ∃ after, s = k +:+ after.
Proof.
  revert s. induction k as [|a k IH]; intros s.
  - split; [|by destruct s]. intros _. by exists s.
  - destruct s as [|b s]; cbn.
    + split; [done|]. by intros [after ?].
    + rewrite andb_true_iff, bool_decide_eq_true, IH. split.
      * intros [-> [after ->]]. by exists after.
      * intros [after [= -> ->]]. eauto.
Qed.

Lemma contains_spec (s k : string) :
  contains s k = true ↔ occurs_in k s.
Proof.
  unfold occurs_in. induction s as [|a s IH].
  - cbn. rewrite orb_false_r, is_prefix_spec. split.
    + intros [after ->]. by exists "", after.
    + intros (before & after & H). destruct before; [by exists after|done].
  - cbn [contains]. rewrite orb_true_iff, is_prefix_spec, IH. split.
    + intros [[after ->]|(before & after & ->)].
      * by exists "", after.
      * by exists (String a before), after.
    + intros (before & after & H). destruct before as [|b before].
      * left. by exists after.
      * right. rewrite app_cons in H. injection H as -> ->. eauto.
Qed.

(** ** [col_to_num] *)

Lemma col_to_num_loop_app (n : Z) (s t : string) :
  col_to_num_loop n (s +:+ t) = col_to_num_loop (col_to_num_loop n s) t.
Proof.
  revert n. induction s as [|ch s IH]; intros n; [done|].
  rewrite app_cons. cbn. apply IH.
Qed.

Lemma col_to_num_snoc (s : string) (ch : ascii) :
  col_to_num (s +:+ String ch "") = col_to_num s * 26 + (ord ch - 64).
Proof. unfold col_to_num. by rewrite col_to_num_loop_app. Qed.

Lemma upper_AZ_value (ch : ascii) :
  is_upper_AZ ch = true → 1 ≤ ord ch - 64 ≤ 26.
Proof. unfold is_upper_AZ. rewrite andb_true_iff, !Z.leb_le. lia. Qed.

Lemma col_to_num_nonneg (s : string) :
  all_chars is_upper_AZ s = true → 0 ≤ col_to_num s ∧ (s ≠ "" → 1 ≤ col_to_num s).
Proof.
  remember (String.length s) as k eqn:Hk. revert s Hk.
  induction k as [|k IH]; intros s Hk Hs.
  - destruct s; [|done]. by split.
  - destruct (snoc_cases s) as [->|(s' & ch & ->)]; [done|].
    rewrite all_chars_app in Hs. apply andb_true_iff in Hs as [Hs' Hch].
    cbn in Hch. rewrite andb_true_r in Hch. apply upper_AZ_value in Hch.
    rewrite app_length_str in Hk. cbn in Hk.
    destruct (IH s') as [? _]; [lia|done|].
    rewrite col_to_num_snoc. lia.
Qed.

Lemma col_to_num_inj (s1 s2 : string) :
  all_chars is_upper_AZ s1 = true → all_chars is_upper_AZ s2 = true →
  col_to_num s1 = col_to_num s2 → s1 = s2.
Proof.
  remember (String.length s1) as k eqn:Hk. revert s1 s2 Hk.
  induction k as [|k IH]; intros s1 s2 Hk H1 H2 Heq.
  - destruct s1; [|done].
    destruct (col_to_num_nonneg s2 H2) as [_ Hpos].
    destruct s2; [done|]. specialize (Hpos ltac:(done)).
    change (col_to_num "") with 0 in Heq. lia.
  - destruct (snoc_cases s1) as [->|(s1' & c1 & ->)]; [done|].
    destruct (snoc_cases s2) as [->|(s2' & c2 & ->)].
    + destruct (col_to_num_nonneg _ H1) as [_ Hpos].
      assert (s1' +:+ String c1 "" ≠ "") by (by destruct s1').
      change (col_to_num "") with 0 in Heq. specialize (Hpos ltac:(done)). lia.
    + rewrite all_chars_app in H1, H2.
      apply andb_true_iff in H1 as [H1 Hc1], H2 as [H2 Hc2].
      cbn in Hc1, Hc2. rewrite andb_true_r in Hc1, Hc2.
      apply upper_AZ_value in Hc1, Hc2.
      rewrite !col_to_num_snoc in Heq.
      destruct (col_to_num_nonneg _ H1) as [? _].
      destruct (col_to_num_nonneg _ H2) as [? _].
      rewrite app_length_str in Hk. cbn in Hk.
      assert (col_to_num s1' = col_to_num s2') by lia.
      assert (c1 = c2) by (apply ord_inj; lia).
      f_equal; [|by f_equal]. apply IH; [lia|done..].
Qed.

(** C8.  The column letters are decoded by the positional rule
    [n = n * 26 + letter value] from left to right, a letter counts
    [A = 1 .. Z = 26], and the decoding is injective on the strings of
    capital letters: on the tested range [A], [Z], [AA], [AZ], [BA] give
    1, 26, 27, 52, 53. *)
Theorem col_to_num_bijective_base26 (s1 s2 : string) (ch : ascii) :
  all_chars is_upper_AZ s1 = true →
  all_chars is_upper_AZ s2 = true →
  is_upper_AZ ch = true →
  col_to_num "" = 0
  ∧ col_to_num (s1 +:+ String ch "") = col_to_num s1 * 26 + (ord ch - 64)
  ∧ 1 ≤ ord ch - 64 ≤ 26
  ∧ ord "A" - 64 = 1 ∧ ord "Z" - 64 = 26
  ∧ (col_to_num s1 = col_to_num s2 → s1 = s2)
  ∧ col_to_num "A" = 1 ∧ col_to_num "Z" = 26 ∧ col_to_num "AA" = 27
  ∧ col_to_num "AZ" = 52 ∧ col_to_num "BA" = 53.
Proof.
  intros H1 H2 Hch. split; [done|]. split; [apply col_to_num_snoc|].
  split; [by apply upper_AZ_value|]. do 2 (split; [done|]).
  split; [by apply col_to_num_inj|]. done.
Qed.

Lemma col_to_num_bijective_base26_witness :
  col_to_num ("A" +:+ String "Z" "") = col_to_num "A" * 26 + (ord "Z" - 64)
  ∧ 1 ≤ ord "Z" - 64 ≤ 26.
Proof.
  pose proof (col_to_num_bijective_base26 "A" "BA" "Z" eq_refl eq_refl eq_refl)
    as (_ & H1 & H2 & _).
  exact (conj H1 H2).
Defined.

(** ** The calendar *)

Lemma month_day_table :
  forallb (month_day_ok false) (seqZ 0 365) && forallb (month_day_ok true) (seqZ 0 366) = true.
Proof. vm_compute. reflexivity. Qed.

Lemma month_day_spec (leapyear : bool) (n : Z) :
  0 ≤ n < 365 + (if leapyear then 1 else 0) →
  month_day_ok leapyear n = true.
Proof.
  intros Hn. pose proof month_day_table as H.
  apply andb_true_iff in H as [H0 H1].
  rewrite forallb_forall in H0, H1.
  destruct leapyear.
  - apply H1. apply list_elem_of_In, elem_of_seqZ. lia.
  - apply H0. apply list_elem_of_In, elem_of_seqZ. lia.
Qed.

Lemma ord2ymd_month_day o :
  ord2ymd o =
  let n := o - 1 in
  let n400 := n / DI400Y in
  let n := n mod DI400Y in
  let n100 := n / DI100Y in
  let n := n mod DI100Y in
  let n4 := n / DI4Y in
  let n := n mod DI4Y in
  let n1 := n / 365 in
  let n := n mod 365 in
  let year := n400 * 400 + 1 + (n100 * 100 + n4 * 4 + n1) in
  if (n1 =? 4) || (n100 =? 4) then (year - 1, 12, 31)
  else
    let '(m, d) := month_day ((n1 =? 3) && (negb (n4 =? 24) || (n100 =? 3))) n in
    (year, m, d).
Proof.
  unfold ord2ymd, month_day. cbv zeta.
  destruct (_ || _); [done|].
  by destruct (_ <? _).
Qed.


Lemma is_leap_true (y : Z) :
  is_leap y = true ↔ y mod 4 = 0 ∧ (y mod 100 ≠ 0 ∨ y mod 400 = 0).
Proof.
  unfold is_leap. rewrite andb_true_iff, orb_true_iff, negb_true_iff.
  rewrite !Z.eqb_eq, Z.eqb_neq. done.
Qed.

Lemma is_leap_decomp (n400 n100 n4 n1 : Z) :
  0 ≤ n100 ≤ 3 → 0 ≤ n4 ≤ 24 → 0 ≤ n1 ≤ 3 →
  is_leap (n400 * 400 + 1 + (n100 * 100 + n4 * 4 + n1))
  = (n1 =? 3) && (negb (n4 =? 24) || (n100 =? 3)).
Proof.
  intros ???. apply eq_true_iff_eq. rewrite is_leap_true.
  rewrite andb_true_iff, orb_true_iff, negb_true_iff, !Z.eqb_eq, Z.eqb_neq.
  split.
  - intros [? ?]. Z.div_mod_to_equations. lia.
  - intros [? ?]. Z.div_mod_to_equations. lia.
Qed.

Lemma days_before_year_decomp (n400 n100 n4 n1 : Z) :
  0 ≤ n100 ≤ 3 → 0 ≤ n4 ≤ 24 → 0 ≤ n1 ≤ 3 →
  days_before_year (n400 * 400 + 1 + (n100 * 100 + n4 * 4 + n1))
  = 146097 * n400 + 36524 * n100 + 1461 * n4 + 365 * n1.
Proof.
  intros ???. unfold days_before_year. cbv zeta.
  Z.div_mod_to_equations. lia.
Qed.

Lemma ord2ymd_correct (o : Z) :
  1 ≤ o ≤ MAXORDINAL →
  ∃ y m d, ord2ymd o = (y, m, d) ∧ valid_date y m d ∧ ymd2ord y m d = o.
Proof.
  intros Ho. rewrite ord2ymd_month_day. cbv zeta.
  unfold DI400Y, DI100Y, DI4Y, MAXORDINAL in *.
  assert (Hn0 : ∃ n0, o = n0 + 1 ∧ n0 = o - 1 ∧ 0 ≤ n0 < 3652059) by (exists (o - 1); lia).
  destruct Hn0 as (n0 & Hon & <- & Hn0).
  set (n400 := n0 / 146097). set (r1 := n0 mod 146097).
  set (n100 := r1 / 36524). set (r2 := r1 mod 36524).
  set (n4 := r2 / 1461). set (r3 := r2 mod 1461).
  set (n1 := r3 / 365). set (r4 := r3 mod 365).
  assert (H1 : n0 = 146097 * n400 + r1 ∧ 0 ≤ r1 < 146097 ∧ 0 ≤ n400 ≤ 24).
  { unfold n400, r1. Z.div_mod_to_equations. lia. }
  assert (H2 : r1 = 36524 * n100 + r2 ∧ 0 ≤ r2 < 36524 ∧ 0 ≤ n100 ≤ 4).
  { unfold n100, r2. Z.div_mod_to_equations. lia. }
  assert (H3 : r2 = 1461 * n4 + r3 ∧ 0 ≤ r3 < 1461 ∧ 0 ≤ n4 ≤ 24).
  { unfold n4, r3. Z.div_mod_to_equations. lia. }
  assert (H4 : r3 = 365 * n1 + r4 ∧ 0 ≤ r4 < 365 ∧ 0 ≤ n1 ≤ 4).
  { unfold n1, r4. Z.div_mod_to_equations. lia. }
  clearbody n400 r1 n100 r2 n4 r3 n1 r4.
  destruct ((n1 =? 4) || (n100 =? 4)) eqn:Hlast.
  - (* the last day of a leap year *)
    apply orb_true_iff in Hlast. rewrite !Z.eqb_eq in Hlast.
    eexists _, _, _. split; [reflexivity|].
    assert (Hy : n400 * 400 + 1 + (n100 * 100 + n4 * 4 + n1) - 1
                 = n400 * 400 + 1 + ((n100 * 100 + n4 * 4 + n1 - 4) / 100 * 100
                   + (n100 * 100 + n4 * 4 + n1 - 4) mod 100 / 4 * 4 + 3)).
    { Z.div_mod_to_equations. lia. }
    assert (Hb : 0 ≤ (n100 * 100 + n4 * 4 + n1 - 4) / 100 ≤ 3
                 ∧ 0 ≤ (n100 * 100 + n4 * 4 + n1 - 4) mod 100 / 4 ≤ 24).
    { Z.div_mod_to_equations. lia. }
    unfold valid_date, ymd2ord, days_in_month, days_before_month.
    rewrite Hy.
    rewrite is_leap_decomp, days_before_year_decomp by lia.
    set (b := (n100 * 100 + n4 * 4 + n1 - 4) / 100) in *.
    set (c := (n100 * 100 + n4 * 4 + n1 - 4) mod 100 / 4) in *.
    assert (Hbc : (n100 = 4 ∧ n4 = 0 ∧ n1 = 0 ∧ r4 = 0 ∧ b = 3 ∧ c = 24)
                  ∨ (n100 ≤ 3 ∧ n4 ≤ 23 ∧ n1 = 4 ∧ r4 = 0 ∧ b = n100 ∧ c = n4)).
    { unfold b, c. Z.div_mod_to_equations. lia. }
    clearbody b c.
    destruct Hbc as [(-> & -> & -> & -> & -> & ->)|(? & ? & -> & -> & -> & ->)].
    + simpl. lia.
    + replace (3 =? 3) with true by done.
      replace (n4 =? 24) with false by (symmetry; apply Z.eqb_neq; lia).
      simpl. lia.
  - apply orb_false_iff in Hlast. rewrite !Z.eqb_neq in Hlast.
    set (leap := (n1 =? 3) && (negb (n4 =? 24) || (n100 =? 3))).
    pose proof (month_day_spec leap r4) as Hmd.
    unfold month_day_ok in Hmd.
    destruct (month_day leap r4) as [m d].
    eexists _, _, _. split; [reflexivity|].
    rewrite !andb_true_iff, !Z.leb_le, Z.eqb_eq in Hmd.
    destruct Hmd as ((((? & ?) & ?) & ?) & ?); [destruct leap; lia|].
    unfold valid_date, ymd2ord, days_in_month, days_before_month.
    rewrite is_leap_decomp, days_before_year_decomp by lia.
    fold leap. lia.
Qed.

Lemma is_leap_false (y : Z) :
  is_leap y = false ↔ ¬ (y mod 4 = 0 ∧ (y mod 100 ≠ 0 ∨ y mod 400 = 0)).
Proof. rewrite <- is_leap_true. by destruct (is_leap y). Qed.

Lemma days_before_year_succ (y : Z) :
  days_before_year (y + 1)
  = days_before_year y + 365 + (if is_leap y then 1 else 0).
Proof.
  unfold days_before_year. cbv zeta. destruct (is_leap y) eqn:Hl.
  - apply is_leap_true in Hl. Z.div_mod_to_equations. lia.
  - apply is_leap_false in Hl. Z.div_mod_to_equations. lia.
Qed.

Lemma days_before_year_mono (y y' : Z) :
  y ≤ y' → days_before_year y ≤ days_before_year y'.
Proof.
  intros Hy. unfold days_before_year. cbv zeta. Z.div_mod_to_equations. lia.
Qed.

Lemma month_cases (m : Z) :
  1 ≤ m ≤ 12 →
  m = 1 ∨ m = 2 ∨ m = 3 ∨ m = 4 ∨ m = 5 ∨ m = 6
  ∨ m = 7 ∨ m = 8 ∨ m = 9 ∨ m = 10 ∨ m = 11 ∨ m = 12.
Proof. lia. Qed.

Lemma year_day_bounds (y m d : Z) :
  1 ≤ m ≤ 12 → 1 ≤ d ≤ days_in_month y m →
  1 ≤ days_before_month y m + d ≤ 365 + (if is_leap y then 1 else 0).
Proof.
  intros Hm Hd. unfold days_in_month, days_before_month in *.
  destruct (is_leap y);
    destruct (month_cases m Hm) as [->|[->|[->|[->|[->|[->|[->|[->|[->|[->|[->| ->]]]]]]]]]]];
    cbn in *; lia.
Qed.

Lemma year_day_inj (y m d m' d' : Z) :
  1 ≤ m ≤ 12 → 1 ≤ d ≤ days_in_month y m →
  1 ≤ m' ≤ 12 → 1 ≤ d' ≤ days_in_month y m' →
  days_before_month y m + d = days_before_month y m' + d' →
  m = m' ∧ d = d'.
Proof.
  intros Hm Hd Hm' Hd'. unfold days_in_month, days_before_month in *.
  destruct (is_leap y);
    destruct (month_cases m Hm) as [->|[->|[->|[->|[->|[->|[->|[->|[->|[->|[->| ->]]]]]]]]]]];
    destruct (month_cases m' Hm') as [->|[->|[->|[->|[->|[->|[->|[->|[->|[->|[->| ->]]]]]]]]]]];
    cbn in *; lia.
Qed.

Lemma ymd2ord_lt_year (y m d y' m' d' : Z) :
  valid_date y m d → valid_date y' m' d' → y < y' →
  ymd2ord y m d < ymd2ord y' m' d'.
Proof.
  intros (_ & Hm & Hd) (_ & Hm' & Hd') Hy. unfold ymd2ord.
  pose proof (year_day_bounds y m d Hm Hd).
  pose proof (year_day_bounds y' m' d' Hm' Hd').
  pose proof (days_before_year_succ y).
  pose proof (days_before_year_mono (y + 1) y' ltac:(lia)). lia.
Qed.

(** A day number belongs to one date only. *)
Lemma ymd2ord_inj (y m d y' m' d' : Z) :
  valid_date y m d → valid_date y' m' d' →
  ymd2ord y m d = ymd2ord y' m' d' → y = y' ∧ m = m' ∧ d = d'.
Proof.
  intros Hv Hv' Heq.
  destruct (Z.lt_trichotomy y y') as [Hlt|[->|Hgt]].
  - pose proof (ymd2ord_lt_year _ _ _ _ _ _ Hv Hv' Hlt). lia.
  - split; [done|]. destruct Hv as (_ & Hm & Hd), Hv' as (_ & Hm' & Hd').
    unfold ymd2ord in Heq. apply (year_day_inj y'); [done..|lia].
  - pose proof (ymd2ord_lt_year _ _ _ _ _ _ Hv' Hv Hgt). lia.
Qed.

(** ** The pattern of a date serial *)

Lemma span_spec (p : ascii → bool) (s : string) :
  s = (span p s).1 +:+ (span p s).2
  ∧ all_chars p (span p s).1 = true
  ∧ ((span p s).2 = ""
     ∨ ∃ ch rest, (span p s).2 = String ch rest ∧ p ch = false).
Proof.
  induction s as [|ch s (IH1 & IH2 & IH3)]; [by auto|].
  cbn. destruct (p ch) eqn:Hch.
  - destruct (span p s) as [a b]. cbn in *. rewrite app_cons, Hch, IH2.
    rewrite <- IH1. done.
  - cbn. split; [done|]. split; [done|]. right. by exists ch, s.
Qed.

Lemma span_stop (p : ascii → bool) (a b : string) :
  all_chars p a = true →
  (b = "" ∨ ∃ ch rest, b = String ch rest ∧ p ch = false) →
  span p (a +:+ b) = (a, b).
Proof.
  intros Ha Hb. induction a as [|ch a IH].
  - rewrite app_empty_l. destruct Hb as [->|(ch & rest & -> & Hch)]; [done|].
    cbn. by rewrite Hch.
  - cbn in Ha. apply andb_true_iff in Ha as [Hch Ha].
    rewrite app_cons. cbn. by rewrite Hch, (IH Ha).
Qed.

Lemma dot_not_digit : is_digit "."%char = false.
Proof. reflexivity. Qed.

Lemma fullmatch_serial_Some (value digits : string) :
  fullmatch_serial value = Some digits ↔ matches_serial value digits.
Proof.
  unfold fullmatch_serial, matches_serial. split.
  - destruct (span_spec is_digit value) as (Hv & Hd & Hr).
    destruct (span is_digit value) as [ds rest]. cbn in *.
    case_bool_decide as Hds; [done|].
    destruct rest as [|ch zeros].
    + intros [= <-]. rewrite app_empty_r in Hv. auto.
    + destruct (bool_decide (ch = "."%char)) eqn:Hdot; [|done].
      apply bool_decide_eq_true in Hdot as ->. cbn.
      unfold truthy. case_bool_decide as Hz; [done|]. cbn.
      destruct (all_chars is_zero_char zeros) eqn:Hzs; [|done].
      intros [= <-]. eauto 8.
  - intros (Hne & Hd & [->|(zeros & -> & Hz & Hzs)]).
    + rewrite <- (app_empty_r digits) at 1.
      rewrite span_stop by auto. by rewrite bool_decide_eq_false_2.
    + rewrite span_stop by (eauto using dot_not_digit).
      rewrite bool_decide_eq_false_2 by done. cbn. unfold truthy.
      by rewrite (bool_decide_eq_false_2 (zeros = "")), Hzs.
Qed.

Lemma fullmatch_serial_None (value : string) :
  fullmatch_serial value = None ↔ ∀ digits, ¬ matches_serial value digits.
Proof.
  split.
  - intros Hn digits Hm%fullmatch_serial_Some. congruence.
  - intros Hn. destruct (fullmatch_serial value) as [digits|] eqn:Hf; [|done].
    apply fullmatch_serial_Some in Hf. by destruct (Hn digits).
Qed.

Lemma matches_serial_no_space (value digits : string) :
  matches_serial value digits → all_chars not_space value = true.
Proof.
  intros (_ & Hd & [->|(zeros & -> & _ & Hz)]).
  - eauto using all_chars_impl, digit_not_space.
  - rewrite all_chars_app. cbn.
    rewrite (all_chars_impl _ _ _ digit_not_space Hd).
    by rewrite (all_chars_impl _ _ _ zero_char_not_space Hz).
Qed.

Lemma matches_serial_nonempty (value digits : string) :
  matches_serial value digits → value ≠ "".
Proof.
  intros (Hne & _ & [->|(zeros & -> & _)]); [done|].
  by destruct digits.
Qed.

Lemma int_of_digits_loop_nonneg (n : Z) (s : string) :
  0 ≤ n → all_chars is_digit s = true → 0 ≤ int_of_digits_loop n s.
Proof.
  revert n. induction s as [|ch s IH]; intros n Hn Hs; [done|].
  cbn in *. apply andb_true_iff in Hs as [Hch Hs].
  apply IH; [|done]. unfold is_digit in Hch.
  apply andb_true_iff in Hch as [?%Z.leb_le ?]. lia.
Qed.

(** The conversion of a text that matches the pattern. *)
Lemma excel_serial_matched (value digits : string) :
  matches_serial value digits →
  excel_serial_to_iso value =
    if int_of_digits digits <=? 0 then Ok ""
    else date ←! datetime_add_days base (int_of_digits digits);
         Ok (strftime_ymd date).
Proof.
  intros Hm. unfold excel_serial_to_iso. cbv zeta.
  rewrite (strip_no_space value) by eauto using matches_serial_no_space.
  rewrite bool_decide_eq_false_2 by eauto using matches_serial_nonempty.
  apply fullmatch_serial_Some in Hm. by rewrite Hm.
Qed.

Lemma base_ordinal : ymd2ord 1899 12 30 = 693594.
Proof. reflexivity. Qed.

Lemma matches_serial_unique (value d1 d2 : string) :
  matches_serial value d1 → matches_serial value d2 → d1 = d2.
Proof. intros H1%fullmatch_serial_Some H2%fullmatch_serial_Some. congruence. Qed.

(** The conversion raises only for a day count that leaves the calendar. *)
Lemma excel_serial_Raise (value : string) (e : exn) :
  excel_serial_to_iso value = Raise e
  ↔ e = OverflowError
    ∧ ∃ digits, matches_serial (strip value) digits
                ∧ 2958465 < int_of_digits digits.
Proof.
  unfold excel_serial_to_iso. cbv zeta. case_bool_decide as He.
  - split; [done|]. intros (_ & digits & Hm%matches_serial_nonempty & _). done.
  - destruct (fullmatch_serial (strip value)) as [digits|] eqn:Hf.
    + apply fullmatch_serial_Some in Hf.
      assert (Hord : ∀ n, 0 < n →
                datetime_add_days base n =
                  if n <=? 2958465 then Ok (ord2ymd (693594 + n))
                  else Raise OverflowError).
      { intros n Hn. unfold datetime_add_days, base. rewrite base_ordinal.
        unfold MAXORDINAL. rewrite (proj2 (Z.ltb_lt 0 (693594 + n))) by lia.
        cbn [andb]. destruct (Z.leb_spec (693594 + n) 3652059);
          destruct (Z.leb_spec n 2958465); done || lia. }
      destruct (Z.leb_spec (int_of_digits digits) 0) as [Hle|Hgt].
      * split; [done|]. intros (_ & d' & Hm' & Hbig).
        rewrite (matches_serial_unique _ _ _ Hm' Hf) in Hbig. lia.
      * rewrite (Hord _ Hgt).
        destruct (Z.leb_spec (int_of_digits digits) 2958465) as [Hin|Hout]; cbn.
        -- split; [done|]. intros (_ & d' & Hm' & Hbig).
           rewrite (matches_serial_unique _ _ _ Hm' Hf) in Hbig. lia.
        -- split; [|by intros [-> _]]. intros [= <-]. eauto.
    + split; [done|]. intros (_ & digits & Hm%fullmatch_serial_Some & _).
      congruence.
Qed.

(** C1 (amended).  A text of digits, optionally followed by [.0...], whose
    value [n] lies between 1 and 2958465 is converted to the ISO form of
    the date that lies [n] days after 1899-12-30: the one date of the
    calendar whose day number is that of the epoch plus [n].  [1] gives
    [1899-12-31] and [45000] gives [2023-03-15]. *)
Theorem excel_serial_epoch_plus_days (value digits : string) (n : Z) :
  matches_serial value digits →
  int_of_digits digits = n →
  1 ≤ n ≤ 2958465 →
  (∃ y m d,
      excel_serial_to_iso value = Ok (strftime_ymd (y, m, d))
      ∧ valid_date y m d
      ∧ ymd2ord y m d = ymd2ord 1899 12 30 + n
      ∧ ∀ y' m' d', valid_date y' m' d' →
          ymd2ord y' m' d' = ymd2ord 1899 12 30 + n →
          y' = y ∧ m' = m ∧ d' = d)
  ∧ excel_serial_to_iso "1" = Ok "1899-12-31"
  ∧ excel_serial_to_iso "45000" = Ok "2023-03-15".
Proof.
  intros Hm Hn Hr. split; [|by split].
  rewrite (excel_serial_matched _ _ Hm), Hn.
  rewrite (proj2 (Z.leb_gt n 0)) by lia.
  unfold datetime_add_days, base. rewrite base_ordinal.
  assert (Hin : (0 <? 693594 + n) && (693594 + n <=? MAXORDINAL) = true).
  { unfold MAXORDINAL. apply andb_true_iff. rewrite Z.ltb_lt, Z.leb_le. lia. }
  rewrite Hin. cbn [bind].
  destruct (ord2ymd_correct (693594 + n)) as (y & m & d & -> & Hv & Ho).
  { unfold MAXORDINAL. lia. }
  exists y, m, d. split; [done|]. split; [done|]. split; [done|].
  intros y' m' d' Hv' Ho'. apply ymd2ord_inj; [done..|]. by rewrite Ho, Ho'.
Qed.

Lemma excel_serial_epoch_plus_days_witness :
  ∃ y m d,
    excel_serial_to_iso "45000.0" = Ok (strftime_ymd (y, m, d))
    ∧ valid_date y m d
    ∧ ymd2ord y m d = ymd2ord 1899 12 30 + 45000
    ∧ ∀ y' m' d', valid_date y' m' d' →
        ymd2ord y' m' d' = ymd2ord 1899 12 30 + 45000 →
        y' = y ∧ m' = m ∧ d' = d.
Proof.
  refine (proj1 (excel_serial_epoch_plus_days "45000.0" "45000" 45000 _ _ _)).
  - split; [done|]. split; [reflexivity|]. right. exists "0". by split.
  - reflexivity.
  - lia.
Defined.

(** C1, as stated, fails: one day after 1899-12-30 is 1899-12-31, not
    1900-01-01, and a count that leaves the calendar raises. *)
Lemma excel_serial_claim_counterexample :
  excel_serial_to_iso "1" = Ok "1899-12-31"
  ∧ excel_serial_to_iso "1" ≠ Ok "1900-01-01"
  ∧ excel_serial_to_iso "2958466" = Raise OverflowError.
Proof. split; [reflexivity|]. split; [discriminate|]. vm_compute. reflexivity. Qed.

(** C6 (amended).  The conversion works on the text without its
    surrounding white space.  It gives the empty text when nothing is
    left or when what is left matches the digit pattern with a value that
    is not positive (which, a digit string having no sign, is the value 0),
    and it gives back the trimmed text when that text does not match the
    pattern.  [0] gives the empty text; [-5] and [N/A] are
    given back as they are; the empty text gives the empty text. *)
Theorem excel_serial_other_values (value : string) :
  (strip value = "" → excel_serial_to_iso value = Ok "")
  ∧ (∀ digits, matches_serial (strip value) digits →
       int_of_digits digits ≤ 0 → excel_serial_to_iso value = Ok "")
  ∧ ((∀ digits, ¬ matches_serial (strip value) digits) →
       excel_serial_to_iso value = Ok (strip value))
  ∧ (∀ digits, all_chars is_digit digits = true → 0 ≤ int_of_digits digits)
  ∧ excel_serial_to_iso "0" = Ok ""
  ∧ excel_serial_to_iso "-5" = Ok "-5"
  ∧ excel_serial_to_iso "N/A" = Ok "N/A"
  ∧ excel_serial_to_iso "" = Ok "".
Proof.
  unfold excel_serial_to_iso. cbv zeta. repeat split.
  - intros ->. done.
  - intros digits Hm Hn. apply fullmatch_serial_Some in Hm as ->.
    rewrite (proj2 (Z.leb_le _ 0) Hn). by case_bool_decide.
  - intros Hn. apply fullmatch_serial_None in Hn as ->.
    case_bool_decide as He; [by rewrite He|done].
  - intros digits Hd. by apply int_of_digits_loop_nonneg.
Qed.

Lemma excel_serial_other_values_witness :
  excel_serial_to_iso " 000.0 " = Ok ""
  ∧ excel_serial_to_iso " N/A " = Ok "N/A".
Proof.
  split.
  - refine (proj1 (proj2 (excel_serial_other_values " 000.0 ")) "000" _ _).
    + split; [done|]. split; [reflexivity|]. right. exists "0". by split.
    + vm_compute. discriminate.
  - refine (proj1 (proj2 (proj2 (excel_serial_other_values " N/A "))) _).
    apply fullmatch_serial_None. reflexivity.
Defined.

(** C6, as stated, fails: [-5] does not match the digit pattern and comes
    back as it is, and a text with surrounding white space comes back
    trimmed. *)
Lemma excel_serial_minus_five_counterexample :
  excel_serial_to_iso "-5" = Ok "-5"
  ∧ excel_serial_to_iso "-5" ≠ Ok ""
  ∧ excel_serial_to_iso " N/A" ≠ Ok " N/A".
Proof. split; [reflexivity|]. split; discriminate. Qed.

(** ** [find_header_row] *)

Lemma row_has_keys_spec (must_have row : list string) :
  row_has_keys must_have row = true
  ↔ ∀ k, k ∈ must_have → occurs_in k (header_text row).
Proof.
  unfold row_has_keys. rewrite forallb_forall. split.
  - intros H k Hk%list_elem_of_In. by apply contains_spec, H.
  - intros H k Hk%list_elem_of_In. by apply contains_spec, H.
Qed.

(** The test of a row looks at which keywords are required, not at their
    order or repetition. *)
Lemma row_has_keys_same_keys (ks1 ks2 row : list string) :
  (∀ k, k ∈ ks1 ↔ k ∈ ks2) → row_has_keys ks1 row = row_has_keys ks2 row.
Proof.
  intros Hks. apply eq_true_iff_eq. rewrite !row_has_keys_spec.
  split; intros H k Hk; apply H, Hks, Hk.
Qed.

Lemma header_cols_snoc (row : list string) (v : string) :
  header_cols (row ++ [v]) = <[title v := length row]> (header_cols row).
Proof.
  unfold header_cols. rewrite imap_app, foldl_app. cbn.
  by rewrite Nat.add_0_r.
Qed.

Lemma header_cols_lookup (row : list string) (t : string) (idx : nat) :
  header_cols row !! t = Some idx
  ↔ ∃ v, row !! idx = Some v ∧ title v = t
         ∧ ∀ j v', (idx < j)%nat → row !! j = Some v' → title v' ≠ t.
Proof.
  revert idx. induction row as [|v row IH] using rev_ind; intros idx.
  - unfold header_cols. cbn. rewrite lookup_empty. split; [done|].
    by intros (v & ? & _).
  - rewrite header_cols_snoc, lookup_insert. case_decide as Ht.
    + split.
      * intros [= <-]. exists v. rewrite list_lookup_middle by done.
        split; [done|]. split; [done|]. intros j v' Hj Hv'.
        apply lookup_lt_Some in Hv'. rewrite length_app in Hv'. cbn in Hv'. lia.
      * intros (v0 & Hv0 & Ht0 & Hlast).
        destruct (decide (idx = length row)) as [->|Hne]; [done|].
        exfalso. apply (Hlast (length row) v); [|by apply list_lookup_middle|done].
        apply lookup_lt_Some in Hv0. rewrite length_app in Hv0. cbn in Hv0. lia.
    + rewrite IH. split.
      * intros (v0 & Hv0 & Ht0 & Hlast). exists v0.
        split; [by apply lookup_app_l_Some|]. split; [done|].
        intros j v' Hj Hv'. apply lookup_app_Some in Hv' as [Hv'|[Hlen Hv']].
        -- by eapply Hlast.
        -- apply list_lookup_singleton_Some in Hv' as [_ <-]. done.
      * intros (v0 & Hv0 & Ht0 & Hlast).
        apply lookup_app_Some in Hv0 as [Hv0|[Hlen Hv0]].
        -- exists v0. split; [done|]. split; [done|].
           intros j v' Hj Hv'. eapply Hlast; [done|]. by apply lookup_app_l_Some.
        -- apply list_lookup_singleton_Some in Hv0 as [_ <-]. done.
Qed.

Lemma header_cols_lookup_None (row : list string) (t : string) :
  header_cols row !! t = None ↔ ∀ v, v ∈ row → title v ≠ t.
Proof.
  induction row as [|v row IH] using rev_ind.
  - unfold header_cols. cbn. rewrite lookup_empty. split; [|done].
    intros _ v Hv. by apply elem_of_nil in Hv.
  - rewrite header_cols_snoc, lookup_insert_None, IH. split.
    + intros [H Hv] v' [?| ->%list_elem_of_singleton]%elem_of_app; auto.
    + intros H. split.
      * intros v' Hv'. apply H, elem_of_app. by left.
      * apply H, elem_of_app. right. by apply list_elem_of_singleton.
Qed.

Lemma find_header_row_from_Ok (i0 : nat) (rows : list (list string))
    (must_have : list string) (i : nat) (cols : gmap string nat) :
  find_header_row_from i0 rows must_have = Ok (i, cols)
  ↔ ∃ k row, i = (i0 + k)%nat ∧ rows !! k = Some row
             ∧ row_has_keys must_have row = true
             ∧ (∀ j row', (j < k)%nat → rows !! j = Some row' →
                  row_has_keys must_have row' = false)
             ∧ cols = header_cols row.
Proof.
  revert i0. induction rows as [|row rows IH]; intros i0; cbn.
  - split; [done|]. by intros (k & row & _ & ? & _).
  - destruct (row_has_keys must_have row) eqn:Hrow.
    + split.
      * intros [= <- <-]. exists 0%nat, row. split; [lia|].
        split; [done|]. split; [done|]. split; [lia|done].
      * intros (k & row' & -> & Hk & Hm & Hbefore & ->).
        destruct k as [|k].
        -- cbn in Hk. injection Hk as <-. by rewrite Nat.add_0_r.
        -- specialize (Hbefore 0%nat row ltac:(lia) eq_refl). congruence.
    + rewrite IH. split.
      * intros (k & row' & -> & Hk & Hm & Hbefore & ->).
        exists (S k), row'. split; [lia|]. split; [done|]. split; [done|].
        split; [|done]. intros [|j] r Hj Hr.
        -- cbn in Hr. by injection Hr as <-.
        -- cbn in Hr. eapply Hbefore; [|done]. lia.
      * intros (k & row' & -> & Hk & Hm & Hbefore & ->).
        destruct k as [|k].
        -- cbn in Hk. injection Hk as <-. congruence.
        -- exists k, row'. split; [lia|]. split; [done|]. split; [done|].
           split; [|done]. intros j r Hj Hr. apply (Hbefore (S j) r); [lia|done].
Qed.

Lemma find_header_row_from_Raise (i0 : nat) (rows : list (list string))
    (must_have : list string) (e : exn) :
  find_header_row_from i0 rows must_have = Raise e
  ↔ e = RuntimeError
    ∧ ∀ row, row ∈ rows → row_has_keys must_have row = false.
Proof.
  revert i0. induction rows as [|row rows IH]; intros i0; cbn.
  - split.
    + intros [= <-]. split; [done|]. intros row Hrow. by apply elem_of_nil in Hrow.
    + by intros [-> _].
  - destruct (row_has_keys must_have row) eqn:Hrow.
    + split; [done|]. intros [_ H]. specialize (H row (list_elem_of_here _ _)).
      congruence.
    + rewrite IH. split.
      * intros [-> H]. split; [done|].
        intros r [->|Hr]%elem_of_cons; auto.
      * intros [-> H]. split; [done|]. intros r Hr. apply H. by right.
Qed.

Lemma find_header_row_same_keys (rows : list (list string))
    (ks1 ks2 : list string) :
  (∀ k, k ∈ ks1 ↔ k ∈ ks2) →
  find_header_row rows ks1 = find_header_row rows ks2.
Proof.
  intros Hks. unfold find_header_row. generalize 0%nat.
  induction rows as [|row rows IH]; intros i0; [done|]. cbn.
  rewrite (row_has_keys_same_keys ks1 ks2 row Hks).
  destruct (row_has_keys ks2 row); [done|]. apply IH.
Qed.

Lemma row_has_keys_true (must_have row : list string) :
  row_has_keys must_have row = true ↔ has_all_keys must_have row.
Proof. apply row_has_keys_spec. Qed.

Lemma row_has_keys_false (must_have row : list string) :
  row_has_keys must_have row = false ↔ ¬ has_all_keys must_have row.
Proof.
  unfold has_all_keys. rewrite <- row_has_keys_spec.
  by destruct (row_has_keys must_have row).
Qed.

(** [join] is the concatenation with separator of the standard library. *)
Lemma join_concat (sep : string) (parts : list string) :
  join sep parts = String.concat sep parts.
Proof.
  induction parts as [|p parts IH]; [done|].
  destruct parts as [|q parts]; [done|].
  change (join sep (p :: q :: parts)) with (p +:+ sep +:+ join sep (q :: parts)).
  by rewrite IH.
Qed.

(** A row has all the keywords when each of them is a part of the texts of
    its cells, normalized, lower-cased and joined with [" | "]. *)
Lemma has_all_keys_joined (must_have row : list string) :
  has_all_keys must_have row
  ↔ ∀ k, k ∈ must_have →
      ∃ before after,
        String.concat " | " ((λ x, lower (normalize_text x)) <$> row)
        = before +:+ k +:+ after.
Proof.
  unfold has_all_keys, occurs_in, header_text. by rewrite join_concat.
Qed.

(** C4.  The header locator returns the index of the topmost row whose
    joined lower-cased text contains every required keyword, each keyword
    being looked for on its own, whatever the order of the keywords,
    together with the map that sends each trimmed lower-cased title of that
    row to the zero-based index of its (last) column; it raises the
    header-not-found error exactly when no row contains all keywords.  The
    joined text of a row is written out: the texts of its cells,
    normalized and lower-cased, with [" | "] between them. *)
Theorem find_header_row_first_match (rows : list (list string))
    (must_have : list string) :
  (∀ i cols,
     find_header_row rows must_have = Ok (i, cols)
     ↔ ∃ row, rows !! i = Some row
              ∧ (∀ k, k ∈ must_have →
                   ∃ before after,
                     String.concat " | "
                       ((λ x, lower (normalize_text x)) <$> row)
                     = before +:+ k +:+ after)
              ∧ (∀ j row', (j < i)%nat → rows !! j = Some row' →
                   ∃ k, k ∈ must_have
                        ∧ ∀ before after,
                            String.concat " | "
                              ((λ x, lower (normalize_text x)) <$> row')
                            ≠ before +:+ k +:+ after)
              ∧ cols = header_cols row)
  ∧ (∀ row t idx,
       header_cols row !! t = Some idx
       ↔ ∃ v, row !! idx = Some v ∧ lower (normalize_text v) = t
              ∧ ∀ j v', (idx < j)%nat → row !! j = Some v' →
                  lower (normalize_text v') ≠ t)
  ∧ (find_header_row rows must_have = Raise RuntimeError
     ↔ ∀ row, row ∈ rows →
         ∃ k, k ∈ must_have
              ∧ ∀ before after,
                  String.concat " | "
                    ((λ x, lower (normalize_text x)) <$> row)
                  ≠ before +:+ k +:+ after)
  ∧ (∀ e, find_header_row rows must_have = Raise e → e = RuntimeError)
  ∧ (∀ keys, (∀ k, k ∈ must_have ↔ k ∈ keys) →
       find_header_row rows keys = find_header_row rows must_have).
Proof.
  assert (Hno : ∀ row,
    row_has_keys must_have row = false
    ↔ ∃ k, k ∈ must_have
           ∧ ∀ before after,
               String.concat " | " ((λ x, lower (normalize_text x)) <$> row)
               ≠ before +:+ k +:+ after).
  { intros row. unfold row_has_keys. rewrite <- not_true_iff_false.
    rewrite forallb_forall, <- join_concat. fold (header_text row). split.
    - intros Hnot.
      destruct (existsb (λ k, negb (contains (header_text row) k)) must_have)
        eqn:Hex.
      + apply existsb_exists in Hex as (k & Hk & Hc).
        exists k. split; [by apply list_elem_of_In|].
        intros before after Heq. apply negb_true_iff in Hc.
        apply not_true_iff_false in Hc. apply Hc, contains_spec.
        by exists before, after.
      + exfalso. apply Hnot. intros k Hk.
        destruct (contains (header_text row) k) eqn:Hc; [done|].
        assert (Ht : existsb (λ k, negb (contains (header_text row) k))
                       must_have = true); [|congruence].
        apply existsb_exists. exists k. by rewrite Hc.
    - intros (k & Hk & Hc) Hall.
      apply list_elem_of_In, Hall, contains_spec in Hk
        as (before & after & Heq).
      by apply (Hc before after). }
  split; [|split; [|split; [|split]]].
  - intros i cols. unfold find_header_row. rewrite find_header_row_from_Ok.
    split.
    + intros (k & row & -> & Hk & Hm & Hbefore & ->). exists row.
      split; [done|].
      split; [by apply has_all_keys_joined, row_has_keys_true|].
      split; [|done].
      intros j row' Hj Hrow'. apply Hno. by eapply Hbefore.
    + intros (row & Hi & Hm & Hbefore & ->). exists i, row.
      split; [done|]. split; [done|].
      split; [by apply row_has_keys_true, has_all_keys_joined|].
      split; [|done]. intros j row' Hj Hrow'. apply Hno.
      by eapply Hbefore.
  - intros row t idx. apply header_cols_lookup.
  - unfold find_header_row. rewrite find_header_row_from_Raise. split.
    + intros [_ H] row Hrow. by apply Hno, H.
    + intros H. split; [done|]. intros row Hrow. by apply Hno, H.
  - unfold find_header_row. by intros e [-> _]%find_header_row_from_Raise.
  - intros keys Hks. symmetry. by apply find_header_row_same_keys.
Qed.

Lemma find_header_row_first_match_witness :
  find_header_row
    [ ["Sheet"]; ["x"]; ["Driver Name"; "b"];
      ["Home Base"; " Driver Name "]; ["home base"; "driver name"] ]
    ["driver name"; "home base"]
  = Ok (3%nat, <["driver name" := 1%nat]> (<["home base" := 0%nat]> ∅)).
Proof.
  refine (proj2 (proj1 (find_header_row_first_match
    [ ["Sheet"]; ["x"]; ["Driver Name"; "b"];
      ["Home Base"; " Driver Name "]; ["home base"; "driver name"] ]
    ["driver name"; "home base"]) 3%nat _) _).
  exists ["Home Base"; " Driver Name "]. split; [reflexivity|]. split.
  { intros k Hk. apply elem_of_cons in Hk as [->|Hk].
    - exists "home base | ", "". vm_compute. reflexivity.
    - apply elem_of_cons in Hk as [->|Hk]; [|by apply elem_of_nil in Hk].
      exists "", " | driver name". vm_compute. reflexivity. }
  split; [|vm_compute; reflexivity].
  assert (Habsent : ∀ s k, contains s k = false →
            ∀ before after, s ≠ before +:+ k +:+ after).
  { intros s k Hc before after Heq.
    assert (Ht : contains s k = true); [|congruence].
    apply contains_spec. by exists before, after. }
  intros [|[|[|j]]] row' Hj Hrow'; [| | |lia]; injection Hrow' as <-;
    exists "home base"; (split; [by right; left|]);
    by apply Habsent.
Defined.

Example find_header_row_third :
  fst <$> (match find_header_row
    [["Sheet"]; ["x"]; ["a"; "b"]; ["Home Base"; "Driver Name"]; ["Home base"; "driver name"]]
    ["driver name"; "home base"] with Ok r => Some r | Raise _ => None end)
  = Some 3%nat.
Proof. vm_compute. reflexivity. Qed.

(** ** Titles have no trailing white space *)

Lemma is_space_lower_char (ch : ascii) :
  is_space (lower_char ch) = is_space ch.
Proof. by destruct ch as [[] [] [] [] [] [] [] []]. Qed.

Lemma lower_app (a b : string) : lower (a +:+ b) = lower a +:+ lower b.
Proof.
  induction a as [|ch a IH]; [done|]. rewrite app_cons. cbn.
  by rewrite IH, app_cons.
Qed.

Lemma lower_rev (s : string) : lower (String.rev s) = String.rev (lower s).
Proof.
  induction s as [|ch s IH]; [done|].
  change (String ch s) with (String ch "" +:+ s).
  rewrite rev_append, !lower_app, rev_append, IH. done.
Qed.

Lemma starts_clean_lower (s : string) :
  starts_clean (lower s) = starts_clean s.
Proof. destruct s as [|ch s]; [done|]. cbn. by rewrite is_space_lower_char. Qed.

Lemma title_trimmed (v : string) :
  starts_clean (String.rev (title v)) = true.
Proof.
  unfold title, normalize_text. rewrite <- lower_rev, starts_clean_lower.
  apply strip_starts_clean.
Qed.

(** The header map has no key that ends with a space: the second spelling
    of the [twic] and [incentives] titles is never found. *)
Lemma header_cols_no_trailing_space (row : list string) (t : string) :
  starts_clean (String.rev t) = false → header_cols row !! t = None.
Proof.
  intros Ht. apply header_cols_lookup_None. intros v _ <-.
  by rewrite title_trimmed in Ht.
Qed.

Lemma trailing_space_titles_absent (row : list string) :
  header_cols row !! "twic card " = None
  ∧ header_cols row !! "incentives " = None.
Proof. split; by apply header_cols_no_trailing_space. Qed.

(** ** The worksheet rows *)

Lemma match_cell_ref_Some (r letters : string) :
  match_cell_ref r = Some letters →
  letters ≠ "" ∧ all_chars is_upper_AZ letters = true.
Proof.
  unfold match_cell_ref.
  destruct (span_spec is_upper_AZ r) as (_ & Hl & _).
  destruct (span is_upper_AZ r) as [ls rest]. cbn in Hl.
  unfold truthy. case_bool_decide as Hne; [done|]. cbn.
  destruct rest as [|ch rest]; [done|]. destruct (is_digit ch); [|done].
  by intros [= <-].
Qed.

Lemma cell_column_pos (c : cell_elem) (col : Z) :
  cell_column c = Some col → 1 ≤ col.
Proof.
  unfold cell_column. destruct (match_cell_ref _) as [letters|] eqn:Hm; [|done].
  intros [= <-]. apply match_cell_ref_Some in Hm as [Hne Hup].
  by apply col_to_num_nonneg.
Qed.

Lemma add_cell_column (shared : list string) (vals : gmap Z string)
    (c : cell_elem) :
  add_cell shared vals c =
    match cell_column c with
    | Some col => <[col := cell_text shared c]> vals
    | None => vals
    end.
Proof. unfold add_cell, cell_column. by destruct (match_cell_ref _). Qed.

Lemma row_vals_snoc (shared : list string) (rr : list cell_elem)
    (c : cell_elem) :
  row_vals shared (rr ++ [c]) = add_cell shared (row_vals shared rr) c.
Proof. unfold row_vals. by rewrite foldl_app. Qed.

Lemma row_columns_snoc (rr : list cell_elem) (c : cell_elem) :
  row_columns (rr ++ [c]) = row_columns rr ++ option_list (cell_column c).
Proof.
  unfold row_columns. rewrite omap_app. cbn. by destruct (cell_column c).
Qed.

Lemma row_vals_is_Some (shared : list string) (rr : list cell_elem) (col : Z) :
  is_Some (row_vals shared rr !! col) ↔ col ∈ row_columns rr.
Proof.
  induction rr as [|c rr IH] using rev_ind.
  - unfold row_vals, row_columns. cbn. rewrite lookup_empty, elem_of_nil.
    split; [by intros [??]|done].
  - rewrite row_vals_snoc, row_columns_snoc, add_cell_column, elem_of_app.
    destruct (cell_column c) as [col'|]; cbn.
    + rewrite lookup_insert_is_Some, IH, list_elem_of_singleton.
      destruct (decide (col' = col)) as [->|Hne].
      * split; intros _; [right|left]; done.
      * split; [intros [?|[_ ?]]; [done|by left]|].
        intros [?|?]; [by right|congruence].
    + rewrite IH, elem_of_nil. tauto.
Qed.

Lemma row_vals_Some (shared : list string) (rr : list cell_elem) (col : Z)
    (val : string) :
  row_vals shared rr !! col = Some val →
  ∃ c, c ∈ rr ∧ cell_column c = Some col ∧ cell_text shared c = val.
Proof.
  induction rr as [|c rr IH] using rev_ind.
  - unfold row_vals. cbn. by rewrite lookup_empty.
  - rewrite row_vals_snoc, add_cell_column.
    destruct (cell_column c) as [col'|] eqn:Hc.
    + rewrite lookup_insert. case_decide as Hcol.
      * intros [= <-]. subst col'. exists c. split; [|done].
        apply elem_of_app. right. by apply list_elem_of_singleton.
      * intros (c' & ? & ?)%IH. exists c'. split; [|done].
        apply elem_of_app. by left.
    + intros (c' & ? & ?)%IH. exists c'. split; [|done].
      apply elem_of_app. by left.
Qed.

Lemma foldl_max_spec (k : Z) (ks : list Z) :
  foldl Z.max k ks ∈ k :: ks ∧ ∀ x, x ∈ k :: ks → x ≤ foldl Z.max k ks.
Proof.
  revert k. induction ks as [|k' ks IH]; intros k; cbn.
  - split; [by left|]. intros x ->%list_elem_of_singleton. lia.
  - destruct (IH (Z.max k k')) as [Hin Hle]. split.
    + apply elem_of_cons in Hin as [Hin|Hin]; [|by do 2 right].
      rewrite Hin. destruct (Z.max_spec k k') as [[_ ->]|[_ ->]];
        [right; left|left]; done.
    + intros x Hx. assert (Z.max k k' ≤ foldl Z.max (Z.max k k') ks)
        by (apply Hle; by left).
      apply elem_of_cons in Hx as [->|Hx]; [lia|].
      apply elem_of_cons in Hx as [->|Hx]; [lia|].
      apply Hle. by right.
Qed.

Lemma max_key_spec (vals : gmap Z string) :
  vals ≠ ∅ →
  is_Some (vals !! max_key vals)
  ∧ ∀ k, is_Some (vals !! k) → k ≤ max_key vals.
Proof.
  intros Hne. unfold max_key.
  assert (Hkeys : ∀ k, k ∈ (map_to_list vals).*1 ↔ is_Some (vals !! k)).
  { intros k. rewrite list_elem_of_fmap. split.
    - intros ([k' v] & -> & Hkv%elem_of_map_to_list). by exists v.
    - intros [v Hv]. exists (k, v). split; [done|]. by apply elem_of_map_to_list. }
  destruct ((map_to_list vals).*1) as [|k ks] eqn:Hl.
  - destruct Hne. apply map_to_list_empty_iff.
    by destruct (map_to_list vals).
  - destruct (foldl_max_spec k ks) as [Hin Hle]. split.
    + by apply Hkeys.
    + intros x Hx. by apply Hle, Hkeys.
Qed.

Lemma row_vals_empty (shared : list string) (rr : list cell_elem) :
  row_vals shared rr = ∅ ↔ row_columns rr = [].
Proof.
  split.
  - intros He. destruct (row_columns rr) as [|col cols] eqn:Hc; [done|].
    assert (Hin : col ∈ row_columns rr) by (rewrite Hc; by left).
    apply (row_vals_is_Some shared) in Hin as [v Hv].
    by rewrite He, lookup_empty in Hv.
  - intros Hc. apply map_empty. intros col.
    apply eq_None_not_Some. rewrite row_vals_is_Some, Hc. apply not_elem_of_nil.
Qed.

Lemma worksheet_rows_omap (shared : list string)
    (sheet_data : list (list cell_elem)) :
  worksheet_rows shared sheet_data
  = omap (λ rr, dense_row (row_vals shared rr)) sheet_data.
Proof.
  unfold worksheet_rows.
  enough (H : ∀ acc,
    foldl (λ rows rr,
             match dense_row (row_vals shared rr) with
             | Some row => rows ++ [row]
             | None => rows
             end) acc sheet_data
    = acc ++ omap (λ rr, dense_row (row_vals shared rr)) sheet_data)
    by apply (H []).
  induction sheet_data as [|rr sheet_data IH]; intros acc; cbn.
  - by rewrite app_nil_r.
  - rewrite IH. destruct (dense_row (row_vals shared rr)); [|done].
    by rewrite <- app_assoc.
Qed.

(** C7.  The rows of a worksheet are the dense rows of its [row] elements
    in document order, a [row] element without a cell entry (or whose
    cells all lack a column reference) giving none.  A dense row is as long
    as the highest column number seen in its [row] element, a position
    whose column number was not seen holds the empty text, and any other
    text comes from a cell of that column. *)
Theorem worksheet_rows_dense (shared : list string)
    (sheet_data : list (list cell_elem)) :
  worksheet_rows shared sheet_data
  = omap (λ rr, dense_row (row_vals shared rr)) sheet_data
  ∧ dense_row (row_vals shared []) = None
  ∧ ∀ rr,
      (dense_row (row_vals shared rr) = None ↔ row_columns rr = [])
      ∧ ∀ row, dense_row (row_vals shared rr) = Some row →
          Z.of_nat (length row) ∈ row_columns rr
          ∧ (∀ col, col ∈ row_columns rr → 1 ≤ col ≤ Z.of_nat (length row))
          ∧ (∀ i, (i < length row)%nat →
               Z.of_nat (i + 1) ∉ row_columns rr → row !! i = Some "")
          ∧ (∀ i val, row !! i = Some val → val ≠ "" →
               ∃ c, c ∈ rr ∧ cell_column c = Some (Z.of_nat (i + 1))
                    ∧ cell_text shared c = val).
Proof.
  split; [apply worksheet_rows_omap|]. split; [done|]. intros rr.
  unfold dense_row. case_bool_decide as He.
  - split; [by rewrite <- (row_vals_empty shared)|done].
  - split.
    { split; [done|]. by intros ?%(row_vals_empty shared). }
    intros row [= <-].
    destruct (max_key_spec _ He) as [Hmax Hle].
    set (mx := max_key (row_vals shared rr)) in *.
    assert (Hmx : 1 ≤ mx).
    { apply row_vals_is_Some in Hmax.
      apply list_elem_of_omap in Hmax as (c & _ & Hc).
      by eapply cell_column_pos. }
    rewrite length_fmap, length_seqZ, Z2Nat.id by lia.
    split; [by apply row_vals_is_Some in Hmax|]. split; [|split].
    + intros col Hcol. split.
      * apply list_elem_of_omap in Hcol as (c & _ & Hc). by eapply cell_column_pos.
      * by apply Hle, row_vals_is_Some.
    + intros i Hi Hnot. rewrite list_lookup_fmap, lookup_seqZ_lt by lia. cbn.
      f_equal. rewrite <- (row_vals_is_Some shared) in Hnot.
      apply eq_None_not_Some in Hnot.
      replace (1 + Z.of_nat i) with (Z.of_nat (i + 1)) by lia. by rewrite Hnot.
    + intros i val Hi Hval. rewrite list_lookup_fmap in Hi.
      destruct (seqZ 1 mx !! i) as [col|] eqn:Hcol; [|done].
      apply lookup_seqZ in Hcol as [-> _]. cbn in Hi. injection Hi as Hi.
      replace (1 + Z.of_nat i) with (Z.of_nat (i + 1)) in Hi by lia.
      destruct (row_vals shared rr !! Z.of_nat (i + 1)) as [v|] eqn:Hv;
        [|by destruct Hval].
      cbn in Hi. subst v. by apply row_vals_Some in Hv.
Qed.

Lemma worksheet_rows_dense_witness :
  dense_row (row_vals ["x"; "y"]
    [ {| attr_r := Some "C7"; attr_t := Some "s"; inline_t := None;
         value_v := Some (Some "1") |};
      {| attr_r := Some "A7"; attr_t := None; inline_t := None;
         value_v := Some (Some "12") |} ]) = Some ["12"; ""; "y"]
  ∧ ["12"; ""; "y"] !! 1%nat = Some "".
Proof.
  split; [vm_compute; reflexivity|].
  pose proof (worksheet_rows_dense ["x"; "y"] []) as (_ & _ & H).
  destruct (H [ {| attr_r := Some "C7"; attr_t := Some "s"; inline_t := None;
                   value_v := Some (Some "1") |};
                {| attr_r := Some "A7"; attr_t := None; inline_t := None;
                   value_v := Some (Some "12") |} ]) as [_ Hrow].
  destruct (Hrow ["12"; ""; "y"]) as (_ & _ & Hgap & _).
  - vm_compute. reflexivity.
  - apply Hgap.
    + cbn. lia.
    + vm_compute. intros Hin.
      repeat (apply elem_of_cons in Hin as [Hin|Hin]; [discriminate Hin|]).
      by apply elem_of_nil in Hin.
Defined.

(** C10.  A shared-string reference that is a negative number within the
    length of the table is a position counted from the end of the table:
    the cell gets a shared string instead of its own text.  (The claim
    holds for the other malformed references, see
    [cell_text_bad_reference] below.) *)
Theorem cell_text_negative_reference :
  cell_text ["Name"; "Phone"]
    {| attr_r := Some "A2"; attr_t := Some "s"; inline_t := None;
       value_v := Some (Some "-1") |} = "Phone"
  ∧ worksheet_rows ["Name"; "Phone"]
      [[ {| attr_r := Some "A2"; attr_t := Some "s"; inline_t := None;
            value_v := Some (Some "-1") |} ]] = [["Phone"]].
Proof. split; vm_compute; reflexivity. Qed.

Lemma py_index_None {A} (l : list A) (i : Z) :
  py_index l i = None ↔ i < - Z.of_nat (length l) ∨ Z.of_nat (length l) ≤ i.
Proof.
  unfold py_index. cbv zeta.
  destruct ((0 <=? i) && (i <? Z.of_nat (length l))) eqn:H1.
  - apply andb_true_iff in H1 as [?%Z.leb_le ?%Z.ltb_lt].
    rewrite lookup_ge_None. lia.
  - destruct ((- Z.of_nat (length l) <=? i) && (i <? 0)) eqn:H2.
    + apply andb_true_iff in H2 as [?%Z.leb_le ?%Z.ltb_lt].
      rewrite lookup_ge_None. lia.
    + apply andb_false_iff in H1, H2. rewrite !Z.leb_gt, !Z.ltb_ge in *.
      split; [lia|done].
Qed.

(** A shared-string cell whose text is no integer literal, or an integer
    outside [-len .. len - 1], keeps its own text; parsing the cell never
    fails, [cell_text] being a total function. *)
Lemma cell_text_bad_reference (shared : list string) (c : cell_elem)
    (text : option string) :
  inline_t c = None → value_v c = Some text → attr_t c = Some "s" →
  (py_int (text_or_empty text) = None
   ∨ ∃ i, py_int (text_or_empty text) = Some i
          ∧ (i < - Z.of_nat (length shared) ∨ Z.of_nat (length shared) ≤ i)) →
  cell_text shared c = text_or_empty text.
Proof.
  intros Hi Hv Ht Hbad. unfold cell_text. rewrite Hi, Hv, Ht.
  rewrite bool_decide_eq_true_2 by done.
  destruct Hbad as [->|(i & -> & Hr)]; [done|]. cbn.
  apply py_index_None in Hr. by rewrite Hr.
Qed.

Lemma cell_text_good_reference (shared : list string) (c : cell_elem)
    (text : option string) (i : Z) (val : string) :
  inline_t c = None → value_v c = Some text → attr_t c = Some "s" →
  py_int (text_or_empty text) = Some i →
  0 ≤ i → shared !! Z.to_nat i = Some val →
  cell_text shared c = val.
Proof.
  intros Hi Hv Ht Hint Hpos Hval. unfold cell_text. rewrite Hi, Hv, Ht.
  rewrite bool_decide_eq_true_2 by done. rewrite Hint. cbn.
  unfold py_index. cbv zeta. apply lookup_lt_Some in Hval as Hlt.
  replace ((0 <=? i) && (i <? Z.of_nat (length shared))) with true.
  - by rewrite Hval.
  - symmetry. apply andb_true_iff. rewrite Z.leb_le, Z.ltb_lt. lia.
Qed.

(** ** Records *)

Lemma dict_get_set_eq (key val : string) (d : record) :
  dict_get key (dict_set key val d) = Some val.
Proof.
  induction d as [|[k v] d IH]; cbn.
  - by rewrite bool_decide_eq_true_2.
  - case_bool_decide as Hk; cbn.
    + by rewrite bool_decide_eq_true_2.
    + by rewrite bool_decide_eq_false_2.
Qed.

Lemma dict_get_set_ne (key key' val : string) (d : record) :
  key ≠ key' → dict_get key' (dict_set key val d) = dict_get key' d.
Proof.
  intros Hne. induction d as [|[k v] d IH]; cbn.
  - by rewrite bool_decide_eq_false_2.
  - case_bool_decide as Hk; cbn.
    + subst k. by rewrite !bool_decide_eq_false_2.
    + by rewrite IH.
Qed.

Lemma otr_key_set_id (val : string) (r : record) :
  otr_key (dict_set "id" val r) = otr_key r.
Proof.
  unfold otr_key, dict_get_default. by rewrite !dict_get_set_ne.
Qed.

(** ** [dedupe_otr] *)

Lemma first_occurrences_after_nil (before : list record) :
  first_occurrences_after before [] = [].
Proof. reflexivity. Qed.

Lemma first_occurrences_after_cons (before : list record) (r : record)
    (rest : list record) :
  first_occurrences_after before (r :: rest)
  = (if decide (otr_key r ∈ otr_key <$> before) then [] else [r])
    ++ first_occurrences_after (before ++ [r]) rest.
Proof.
  unfold first_occurrences_after. cbn [imap omap take].
  rewrite app_nil_r.
  assert (Hrest :
    imap ((λ i r0, if decide (otr_key r0 ∈ otr_key <$> (before ++ take i (r :: rest)))
                   then None else Some r0) ∘ S) rest
    = imap (λ i r0, if decide (otr_key r0 ∈ otr_key <$> ((before ++ [r]) ++ take i rest))
                    then None else Some r0) rest).
  { apply imap_ext. intros i x _. cbn. by rewrite <- app_assoc. }
  rewrite Hrest. by destruct (decide _).
Qed.

Lemma dedupe_loop_spec (records before : list record)
    (seen : gset (string * string * string * string)) (out : list record) :
  (∀ k, k ∈ seen ↔ k ∈ otr_key <$> before) →
  dedupe_loop seen out records = out ++ first_occurrences_after before records.
Proof.
  revert before seen out.
  induction records as [|r rest IH]; intros before seen out Hseen.
  - rewrite first_occurrences_after_nil. cbn. by rewrite app_nil_r.
  - cbn [dedupe_loop]. rewrite first_occurrences_after_cons.
    case_bool_decide as Hin.
    + rewrite decide_True by (by apply Hseen). cbn.
      apply IH. intros k. rewrite fmap_app, elem_of_app, <- Hseen. cbn.
      rewrite list_elem_of_singleton. split; [by left|]. by intros [?| ->].
    + rewrite decide_False by (by rewrite <- Hseen).
      rewrite (IH (before ++ [r]) ({[otr_key r]} ∪ seen) (out ++ [r])).
      * by rewrite <- app_assoc.
      * intros k. rewrite fmap_app, elem_of_app, <- Hseen. cbn.
        rewrite list_elem_of_singleton, elem_of_union, elem_of_singleton. tauto.
Qed.

Lemma first_occurrences_after_keys (records before : list record) :
  NoDup (otr_key <$> first_occurrences_after before records)
  ∧ (∀ k, k ∈ otr_key <$> first_occurrences_after before records →
          k ∉ otr_key <$> before)
  ∧ (∀ r, r ∈ records →
          otr_key r ∈ otr_key <$> before
          ∨ otr_key r ∈ otr_key <$> first_occurrences_after before records).
Proof.
  revert before. induction records as [|r rest IH]; intros before.
  - rewrite first_occurrences_after_nil. cbn. split; [constructor|].
    split; [by intros k ?%elem_of_nil|by intros r ?%elem_of_nil].
  - rewrite first_occurrences_after_cons.
    destruct (IH (before ++ [r])) as (Hnd & Hdisj & Hcov).
    assert (Hsnoc : ∀ k, k ∈ otr_key <$> (before ++ [r])
                          ↔ k ∈ otr_key <$> before ∨ k = otr_key r).
    { intros k. rewrite fmap_app, elem_of_app. cbn.
      by rewrite list_elem_of_singleton. }
    destruct (decide (otr_key r ∈ otr_key <$> before)) as [Hin|Hin]; cbn.
    + split; [done|]. split.
      * intros k Hk Hb. apply (Hdisj k Hk), Hsnoc. by left.
      * intros r' [->|Hr']%elem_of_cons; [by left|].
        destruct (Hcov r' Hr') as [[?| ->]%Hsnoc|?]; auto.
    + split; [|split].
      * constructor; [|done]. intros Hk. apply (Hdisj _ Hk), Hsnoc. by right.
      * intros k [->|Hk]%elem_of_cons; [done|].
        intros Hb. apply (Hdisj k Hk), Hsnoc. by left.
      * intros r' [->|Hr']%elem_of_cons; [right; by left|].
        destruct (Hcov r' Hr') as [[?| ->]%Hsnoc|?]; auto.
        -- right. by left.
        -- right. by right.
Qed.

Lemma first_occurrences_elem (records : list record) (r : record) :
  r ∈ first_occurrences records
  ↔ ∃ i, records !! i = Some r ∧ otr_key r ∉ otr_key <$> take i records.
Proof.
  unfold first_occurrences, first_occurrences_after.
  rewrite list_elem_of_omap. split.
  - intros (o & Ho & Hr). cbn in Hr. subst o.
    apply list_elem_of_lookup in Ho as [i Hi].
    rewrite list_lookup_imap in Hi.
    destruct (records !! i) as [r'|] eqn:Hri; [|done]. cbn in Hi.
    destruct (decide _) as [|Hn]; [done|].
    injection Hi as ->. by exists i.
  - intros (i & Hi & Hn). exists (Some r). split; [|done].
    apply list_elem_of_lookup. exists i. rewrite list_lookup_imap, Hi. cbn.
    by rewrite decide_False.
Qed.

Lemma dedupe_otr_first_occurrences (records : list record) :
  dedupe_otr records
  = imap (λ i r, dict_set "id" (make_id "otr" (i + 1)) r)
         (first_occurrences records).
Proof.
  unfold dedupe_otr, first_occurrences.
  rewrite (dedupe_loop_spec records [] ∅ []); [done|].
  intros k. cbn. rewrite elem_of_nil. by rewrite elem_of_empty.
Qed.

Lemma dedupe_otr_keys (records : list record) :
  otr_key <$> dedupe_otr records = otr_key <$> first_occurrences records.
Proof.
  rewrite dedupe_otr_first_occurrences, fmap_imap.
  rewrite <- (imap_const otr_key). apply imap_ext.
  intros i r _. cbn. apply otr_key_set_id.
Qed.

Lemma first_occurrences_after_sublist (records before : list record) :
  sublist (first_occurrences_after before records) records.
Proof.
  revert before. induction records as [|r rest IH]; intros before.
  - by rewrite first_occurrences_after_nil.
  - rewrite first_occurrences_after_cons. destruct (decide _); cbn.
    + by apply sublist_cons.
    + by apply sublist_skip.
Qed.

(** The key of a record is the four texts that the script reads from it:
    two records have the same key exactly when they agree on the
    lower-cased normalized name and on the normalized phone, passed date
    and return-to-grid date, whatever their other fields. *)
Lemma otr_key_eq (r r' : record) :
  otr_key r = otr_key r'
  ↔ lower (normalize_text (default "" (dict_get "name" r)))
    = lower (normalize_text (default "" (dict_get "name" r')))
    ∧ normalize_text (default "" (dict_get "phone" r))
      = normalize_text (default "" (dict_get "phone" r'))
    ∧ normalize_text (default "" (dict_get "passed" r))
      = normalize_text (default "" (dict_get "passed" r'))
    ∧ normalize_text (default "" (dict_get "rtgDate" r))
      = normalize_text (default "" (dict_get "rtgDate" r')).
Proof.
  unfold otr_key, dict_get_default. split.
  - by intros [= -> -> -> ->].
  - by intros (-> & -> & -> & ->).
Qed.

(** C3.  Deduplication keeps, in input order, exactly the first record of
    each group of records with the same key (lower-cased normalized name,
    normalized phone, normalized passed date, normalized return-to-grid
    date); a later record with the key of an earlier one is dropped
    whatever its other fields.  The kept records get the identifiers
    [otr_1], [otr_2], ... in output order and keep their other fields.
    The last two parts state the key field by field: a record is kept
    exactly when no earlier record agrees with it on all four texts, and no
    two records of the result agree on all four. *)
Theorem dedupe_otr_first_wins (records : list record) :
  dedupe_otr records
  = imap (λ i r, dict_set "id" (make_id "otr" (i + 1)) r)
         (first_occurrences records)
  ∧ sublist (first_occurrences records) records
  ∧ (∀ r, r ∈ first_occurrences records
          ↔ ∃ i, records !! i = Some r
                 ∧ otr_key r ∉ otr_key <$> take i records)
  ∧ NoDup (otr_key <$> dedupe_otr records)
  ∧ (∀ r, r ∈ records → otr_key r ∈ otr_key <$> dedupe_otr records)
  ∧ length (dedupe_otr records) = length (first_occurrences records)
  ∧ (∀ i r, dedupe_otr records !! i = Some r →
       dict_get "id" r = Some ("otr_" +:+ str_of_nat (i + 1))
       ∧ ∃ r0, first_occurrences records !! i = Some r0
               ∧ otr_key r = otr_key r0
               ∧ ∀ k, k ≠ "id" → dict_get k r = dict_get k r0)
  ∧ (∀ r, r ∈ first_occurrences records
          ↔ ∃ i : nat,
              records !! i = Some r
              ∧ ∀ (j : nat) r', (j < i)%nat → records !! j = Some r' →
                  ¬ (lower (normalize_text (default "" (dict_get "name" r')))
                     = lower (normalize_text (default "" (dict_get "name" r)))
                     ∧ normalize_text (default "" (dict_get "phone" r'))
                       = normalize_text (default "" (dict_get "phone" r))
                     ∧ normalize_text (default "" (dict_get "passed" r'))
                       = normalize_text (default "" (dict_get "passed" r))
                     ∧ normalize_text (default "" (dict_get "rtgDate" r'))
                       = normalize_text (default "" (dict_get "rtgDate" r))))
  ∧ (∀ (i j : nat) r r',
       i ≠ j →
       dedupe_otr records !! i = Some r →
       dedupe_otr records !! j = Some r' →
       ¬ (lower (normalize_text (default "" (dict_get "name" r)))
          = lower (normalize_text (default "" (dict_get "name" r')))
          ∧ normalize_text (default "" (dict_get "phone" r))
            = normalize_text (default "" (dict_get "phone" r'))
          ∧ normalize_text (default "" (dict_get "passed" r))
            = normalize_text (default "" (dict_get "passed" r'))
          ∧ normalize_text (default "" (dict_get "rtgDate" r))
            = normalize_text (default "" (dict_get "rtgDate" r')))).
Proof.
  split; [apply dedupe_otr_first_occurrences|].
  split; [apply first_occurrences_after_sublist|].
  split; [apply first_occurrences_elem|].
  destruct (first_occurrences_after_keys records []) as (Hnd & _ & Hcov).
  assert (Hnodup : NoDup (otr_key <$> dedupe_otr records)).
  { by rewrite dedupe_otr_keys. }
  split; [done|]. split.
  { intros r Hr. rewrite dedupe_otr_keys.
    destruct (Hcov r Hr) as [Hnil|?]; [|done]. by apply elem_of_nil in Hnil. }
  split; [by rewrite dedupe_otr_first_occurrences, length_imap|].
  split.
  { intros i r. rewrite dedupe_otr_first_occurrences, list_lookup_imap.
    destruct (first_occurrences records !! i) as [r0|]; [|done].
    cbn. intros [= <-]. split; [apply dict_get_set_eq|].
    exists r0. split; [done|]. split; [apply otr_key_set_id|].
    intros k Hk. by apply dict_get_set_ne. }
  split.
  { intros r. rewrite first_occurrences_elem. split.
    - intros (i & Hi & Hnew). exists i. split; [done|].
      intros j r' Hj Hr' Hsame%otr_key_eq. apply Hnew.
      rewrite <- Hsame. apply list_elem_of_fmap. exists r'. split; [done|].
      apply list_elem_of_lookup. exists j. rewrite lookup_take_lt by done.
      done.
    - intros (i & Hi & Hnew). exists i. split; [done|].
      intros (r' & Hkey & Hin)%list_elem_of_fmap.
      apply list_elem_of_lookup in Hin as [j Hj].
      assert (Hlt : (j < i)%nat).
      { apply lookup_lt_Some in Hj. rewrite length_take in Hj. lia. }
      rewrite lookup_take_lt in Hj by done.
      apply (Hnew j r' Hlt Hj). by apply otr_key_eq. }
  intros i j r r' Hij Hi Hj Hsame%otr_key_eq. apply Hij.
  apply (NoDup_lookup _ i j (otr_key r) Hnodup).
  - by rewrite list_lookup_fmap, Hi.
  - by rewrite list_lookup_fmap, Hj, Hsame.
Qed.

Lemma dedupe_otr_first_wins_witness :
  dedupe_otr
    [ [("id", "otrmain_1"); ("name", "Ann"); ("phone", "1"); ("age", "30")];
      [("id", "otrajggh_1"); ("name", "ANN "); ("phone", "1"); ("age", "31")];
      [("id", "otrajggh_2"); ("name", "Ann"); ("phone", "2")];
      [("name", "Ann"); ("phone", "1"); ("passed", "2024-01-05")];
      [("name", "Ann"); ("phone", "1"); ("rtgDate", "2024-02-06")];
      [("name", "ann"); ("phone", " 2"); ("notes", "again")] ]
  = [ [("id", "otr_1"); ("name", "Ann"); ("phone", "1"); ("age", "30")];
      [("id", "otr_2"); ("name", "Ann"); ("phone", "2")];
      [("name", "Ann"); ("phone", "1"); ("passed", "2024-01-05");
       ("id", "otr_3")];
      [("name", "Ann"); ("phone", "1"); ("rtgDate", "2024-02-06");
       ("id", "otr_4")] ].
Proof.
  exact (proj1 (dedupe_otr_first_wins
    [ [("id", "otrmain_1"); ("name", "Ann"); ("phone", "1"); ("age", "30")];
      [("id", "otrajggh_1"); ("name", "ANN "); ("phone", "1"); ("age", "31")];
      [("id", "otrajggh_2"); ("name", "Ann"); ("phone", "2")];
      [("name", "Ann"); ("phone", "1"); ("passed", "2024-01-05")];
      [("name", "Ann"); ("phone", "1"); ("rtgDate", "2024-02-06")];
      [("name", "ann"); ("phone", " 2"); ("notes", "again")] ])).
Defined.

Example dedupe_otr_collapses :
  dedupe_otr
    [ [("id", "otrmain_1"); ("name", "Ann"); ("phone", "1"); ("age", "30")];
      [("id", "otrajggh_1"); ("name", "ANN "); ("phone", "1"); ("age", "31")];
      [("id", "otrajggh_2"); ("name", "Bob"); ("phone", "2")] ]
  = [ [("id", "otr_1"); ("name", "Ann"); ("phone", "1"); ("age", "30")];
      [("id", "otr_2"); ("name", "Bob"); ("phone", "2")] ].
Proof. vm_compute. reflexivity. Qed.

(** ** The extraction loop *)

Lemma collect_Ok {A} (rs : list (result A)) (l : list A) :
  collect rs = Ok l ↔ rs = Ok <$> l.
Proof.
  revert l. induction rs as [|r rs IH]; intros l; cbn.
  - split; [by intros [= <-]|]. by destruct l.
  - destruct r as [a|e]; cbn.
    + destruct (collect rs) as [l'|e] eqn:Hc; cbn.
      * split.
        -- intros [= <-]. cbn. f_equal. by apply IH.
        -- destruct l as [|a' l]; [done|]. cbn. intros [= <- Hrs].
           apply IH in Hrs. by injection Hrs as ->.
      * split; [done|]. destruct l as [|a' l]; [done|]. cbn.
        intros [= <- Hrs]. by apply IH in Hrs.
    + split; [done|]. by destruct l.
Qed.

Lemma collect_Raise {A} (rs : list (result A)) (e : exn) :
  collect rs = Raise e → Raise e ∈ rs.
Proof.
  induction rs as [|r rs IH]; cbn; [done|].
  destruct r as [a|e']; cbn.
  - destruct (collect rs) as [l'|e''] eqn:Hc; cbn; [done|].
    intros [= ->]. right. by apply IH.
  - intros [= ->]. by left.
Qed.

(** The loop of an extractor whose body either passes a row over or
    appends the record built from it. *)
Section Loop.
Variable step : nat → list string → result (option record).
Variable skip : list string → bool.
Variable build : nat → list string → result record.

Hypothesis step_spec :
  ∀ n row, step n row =
    if skip row then Ok None else rec ←! build n row; Ok (Some rec).

Lemma extract_rows_spec (rows : list (list string)) (out : list record) :
  extract_rows step rows out =
    recs ←! collect (imap (λ k row, build (length out + k)%nat row)
                          (filter (λ row, skip row = false) rows));
    Ok (out ++ recs).
Proof.
  revert out. induction rows as [|row rows IH]; intros out.
  - cbn. by rewrite app_nil_r.
  - cbn [extract_rows]. rewrite step_spec, filter_cons.
    destruct (skip row) eqn:Hs.
    + rewrite decide_False by done. cbn [bind]. apply IH.
    + rewrite decide_True by done. cbn [imap collect].
      rewrite Nat.add_0_r.
      destruct (build (length out) row) as [rec|e]; [|done].
      cbn [bind]. rewrite IH, length_app. cbn [length].
      assert (Himap :
        imap (λ k row0, build (length out + 1 + k)%nat row0)
             (filter (λ row0, skip row0 = false) rows)
        = imap ((λ k row0, build (length out + k)%nat row0) ∘ S)
               (filter (λ row0, skip row0 = false) rows)).
      { apply imap_ext. intros k r _. cbn. f_equal. lia. }
      rewrite Himap. destruct (collect _) as [recs|e]; [|done].
      cbn. by rewrite <- app_assoc.
Qed.
End Loop.

Lemma is_headerish_empty (phrases : list string) :
  is_headerish "" phrases = true.
Proof. reflexivity. Qed.

Lemma is_headerish_false (v : string) (phrases : list string) :
  is_headerish v phrases = false
  ↔ title v ≠ "" ∧ ∀ p, p ∈ phrases → ¬ occurs_in p (title v).
Proof.
  unfold is_headerish, title. cbv zeta. case_bool_decide as He.
  - split; [done|]. by intros [? _].
  - rewrite <- not_true_iff_false, existsb_exists. split.
    + intros Hn. split; [done|]. intros p Hp Hocc. apply Hn. exists p.
      split; [by apply list_elem_of_In|by apply contains_spec].
    + intros [_ Hn] (p & Hp%list_elem_of_In & Hc%contains_spec). by eapply Hn.
Qed.

Lemma not_headerish_truthy (v : string) (phrases : list string) :
  is_headerish v phrases = false → v ≠ "".
Proof. intros H ->. by rewrite is_headerish_empty in H. Qed.

Lemma any_but_id_intro (rec : record) (k v : string) :
  (k, v) ∈ rec → k ≠ "id" → v ≠ "" → any_but_id rec = true.
Proof.
  intros Hin Hk Hv. unfold any_but_id. apply existsb_exists.
  exists (k, v). split.
  - apply list_elem_of_In, list_elem_of_filter. by split.
  - cbn. unfold truthy. by rewrite bool_decide_eq_false_2.
Qed.

Lemma dict_get_cons_eq (k v : string) (d : record) :
  dict_get k ((k, v) :: d) = Some v.
Proof. cbn. by rewrite bool_decide_eq_true_2. Qed.

Lemma dict_get_cons_ne (k k' v : string) (d : record) :
  k ≠ k' → dict_get k' ((k, v) :: d) = dict_get k' d.
Proof. intros Hne. cbn. by rewrite bool_decide_eq_false_2. Qed.

(** The lookup of a field name in a record that is written out. *)
Ltac dict_lookup :=
  repeat first
    [ rewrite dict_get_cons_eq
    | rewrite dict_get_cons_ne by discriminate ].

(** The two tests that follow the construction of [rec] let it through. *)
Ltac keep_record Hh key :=
  match goal with
  | |- context [any_but_id ?rec] =>
      rewrite (any_but_id_intro rec key _
                 ltac:(apply list_elem_of_In; cbn; tauto)
                 ltac:(discriminate) Hh)
  end;
  cbn [negb]; unfold dict_item; dict_lookup; cbn [default];
  by rewrite (bool_decide_eq_false_2 _ Hh).

(** In each extractor the two tests after the header test never pass a row
    over: the identity field of a row that is not headerish is not empty. *)
Lemma sheet_step_spec (s : sheet) (cols : gmap string nat) (n : nat)
    (row : list string) :
  sheet_step s cols n row =
    if is_headerish (sheet_identity s cols row) (sheet_phrases s) then Ok None
    else rec ←! sheet_record s cols n row; Ok (Some rec).
Proof.
  destruct s; cbn [sheet_step sheet_identity sheet_phrases sheet_record].
  - unfold drivers_step. cbv zeta.
    destruct (is_headerish _ _) eqn:Hh; [done|].
    apply not_headerish_truthy in Hh.
    cbn [existsb]. unfold truthy at 1.
    rewrite (bool_decide_eq_false_2 _ Hh). cbn [negb orb bind].
    done.
  - unfold leads_step. cbv zeta.
    destruct (is_headerish _ _) eqn:Hh; [done|].
    apply not_headerish_truthy in Hh.
    unfold leads_record. cbv zeta.
    destruct (excel_serial_to_iso _) as [d1|]; [|done].
    destruct (excel_serial_to_iso _) as [d2|]; [|done].
    cbn [bind existsb]. unfold dict_item. dict_lookup. cbn [default].
    unfold truthy at 1. rewrite (bool_decide_eq_false_2 _ Hh).
    cbn [negb orb]. done.
  - unfold otr_step. cbv zeta.
    destruct (is_headerish _ _) eqn:Hh; [done|].
    apply not_headerish_truthy in Hh.
    unfold otr_record. cbv zeta.
    destruct (excel_serial_to_iso _) as [d1|]; [|done].
    destruct (excel_serial_to_iso _) as [d2|]; [|done].
    cbn [bind]. keep_record Hh "name".
  - unfold ag4_hires_step. cbv zeta.
    destruct (is_headerish _ _) eqn:Hh; [done|].
    apply not_headerish_truthy in Hh.
    unfold ag4_hires_record. cbv zeta.
    destruct (excel_serial_to_iso _) as [d1|]; [|done].
    destruct (excel_serial_to_iso _) as [d2|]; [|done].
    cbn [bind]. keep_record Hh "name".
  - unfold ag4_sep_step. cbv zeta.
    destruct (is_headerish _ _) eqn:Hh; [done|].
    apply not_headerish_truthy in Hh.
    unfold ag4_sep_record. cbv zeta.
    destruct (excel_serial_to_iso _) as [d1|]; [|done].
    destruct (excel_serial_to_iso _) as [d2|]; [|done].
    destruct (excel_serial_to_iso _) as [d3|]; [|done].
    cbn [bind]. keep_record Hh "name".
  - unfold historical_step. cbv zeta.
    destruct (is_headerish _ _) eqn:Hh; [done|].
    apply not_headerish_truthy in Hh.
    unfold historical_record. cbv zeta.
    destruct (excel_serial_to_iso _) as [d1|]; [|done].
    cbn [bind]. keep_record Hh "lastName".
Qed.

Lemma parse_sheet_unfold (s : sheet) (rows : list (list string)) :
  parse_sheet s rows =
    hc ←! find_header_row rows (sheet_keys s);
    extract_rows (sheet_step s hc.2) (drop (hc.1 + 1) rows) [].
Proof. by destruct s. Qed.

(** An extractor returns the records of the rows that it keeps, numbered
    in order, or the first exception of their construction. *)
Lemma parse_sheet_spec (s : sheet) (rows : list (list string)) (h : nat)
    (cols : gmap string nat) :
  find_header_row rows (sheet_keys s) = Ok (h, cols) →
  parse_sheet s rows =
    collect (imap (λ k row, sheet_record s cols k row)
                  (kept_rows s cols (drop (h + 1) rows))).
Proof.
  intros Hh. rewrite parse_sheet_unfold, Hh. cbn [bind fst snd].
  rewrite (extract_rows_spec _
             (λ row, is_headerish (sheet_identity s cols row) (sheet_phrases s))
             (sheet_record s cols))
    by (intros n row; apply sheet_step_spec).
  cbn [length Nat.add]. unfold kept_rows.
  by destruct (collect _).
Qed.

Lemma parse_sheet_no_header (s : sheet) (rows : list (list string)) (e : exn) :
  find_header_row rows (sheet_keys s) = Raise e →
  parse_sheet s rows = Raise RuntimeError.
Proof.
  intros Hh. rewrite parse_sheet_unfold, Hh. cbn.
  unfold find_header_row in Hh.
  by apply find_header_row_from_Raise in Hh as [-> _].
Qed.

Lemma kept_rows_elem (s : sheet) (cols : gmap string nat)
    (rows : list (list string)) (row : list string) :
  row ∈ kept_rows s cols rows
  ↔ row ∈ rows
    ∧ title (sheet_identity s cols row) ≠ ""
    ∧ ∀ p, p ∈ sheet_phrases s → ¬ occurs_in p (title (sheet_identity s cols row)).
Proof.
  unfold kept_rows. rewrite list_elem_of_filter, is_headerish_false. tauto.
Qed.

Lemma parse_sheet_records (s : sheet) (rows : list (list string)) (h : nat)
    (cols : gmap string nat) (out : list record) :
  find_header_row rows (sheet_keys s) = Ok (h, cols) →
  parse_sheet s rows = Ok out →
  length out = length (kept_rows s cols (drop (h + 1) rows))
  ∧ ∀ k rec, out !! k = Some rec →
      ∃ row, kept_rows s cols (drop (h + 1) rows) !! k = Some row
             ∧ sheet_record s cols k row = Ok rec.
Proof.
  intros Hh Hp. rewrite (parse_sheet_spec s rows h cols Hh) in Hp.
  apply collect_Ok in Hp. split.
  - apply (f_equal length) in Hp. by rewrite length_imap, length_fmap in Hp.
  - intros k rec Hk. apply (f_equal (λ l, l !! k)) in Hp.
    rewrite list_lookup_imap, list_lookup_fmap, Hk in Hp. cbn in Hp.
    destruct (kept_rows s cols (drop (h + 1) rows) !! k) as [row|]; [|done].
    cbn in Hp. injection Hp as Hp. by exists row.
Qed.

Lemma get_missing (row : list string) : get row None = "".
Proof. reflexivity. Qed.

Lemma get_out_of_range (row : list string) (i : nat) :
  (length row ≤ i)%nat → get row (Some i) = "".
Proof. intros Hi. cbn. by rewrite bool_decide_eq_true_2. Qed.

Lemma get_in_range (row : list string) (i : nat) (v : string) :
  row !! i = Some v → get row (Some i) = normalize_text v.
Proof.
  intros Hi. cbn. apply lookup_lt_Some in Hi as Hlt.
  rewrite bool_decide_eq_false_2 by lia. by rewrite Hi.
Qed.

Lemma sheet_record_Raise (s : sheet) (cols : gmap string nat) (n : nat)
    (row : list string) (e : exn) :
  sheet_record s cols n row = Raise e →
  ∃ t, t ∈ sheet_date_titles s
       ∧ excel_serial_to_iso (get row (cols !! t)) = Raise e.
Proof.
  destruct s; cbn [sheet_record sheet_date_titles]; [done|..];
    unfold leads_record, otr_record, ag4_hires_record, ag4_sep_record,
      historical_record; cbv zeta; intros Hrec;
    repeat match type of Hrec with
           | context [excel_serial_to_iso ?v] =>
               let Hd := fresh "Hd" in
               destruct (excel_serial_to_iso v) eqn:Hd;
               [cbn [bind] in Hrec
               |injection Hrec as <-; eexists; split; [|exact Hd];
                rewrite !elem_of_cons; tauto]
           end;
    discriminate Hrec.
Qed.

Lemma lower_empty (s : string) : lower s = "" ↔ s = "".
Proof. by destruct s. Qed.

Lemma sheet_identity_normalized (s : sheet) (cols : gmap string nat)
    (row : list string) :
  normalize_text (sheet_identity s cols row) = sheet_identity s cols row
  ∧ strip (sheet_identity s cols row) = sheet_identity s cols row.
Proof. destruct s; apply get_normalized. Qed.

(** C2 (amended).  An extractor emits one record, numbered in order, for
    each row after the header row whose identity field (a normalized text)
    is not empty and, lower-cased, contains none of the header-echo or
    caption phrases of its sheet, and for no other row (when the date of a
    kept row leaves the calendar the extraction raises instead).  A row
    whose identity field is empty is passed over, whatever its other
    fields.  [parse_otr rows prefix] is [parse_sheet (Otr prefix) rows]. *)
Theorem extractor_keeps_identified_rows (s : sheet) (rows : list (list string))
    (h : nat) (cols : gmap string nat) :
  find_header_row rows (sheet_keys s) = Ok (h, cols) →
  parse_sheet s rows =
    collect (imap (λ k row, sheet_record s cols k row)
                  (kept_rows s cols (drop (h + 1) rows)))
  ∧ (∀ row, row ∈ kept_rows s cols (drop (h + 1) rows)
            ↔ row ∈ drop (h + 1) rows
              ∧ sheet_identity s cols row ≠ ""
              ∧ ∀ p, p ∈ sheet_phrases s →
                  ¬ occurs_in p (lower (sheet_identity s cols row)))
  ∧ (∀ out, parse_sheet s rows = Ok out →
       length out = length (kept_rows s cols (drop (h + 1) rows))
       ∧ ∀ k rec, out !! k = Some rec →
           ∃ row, kept_rows s cols (drop (h + 1) rows) !! k = Some row
                  ∧ sheet_record s cols k row = Ok rec)
  ∧ (∀ e, parse_sheet s rows = Raise e → e = OverflowError).
Proof.
  intros Hh. split; [by apply parse_sheet_spec|]. split; [|split].
  - intros row. rewrite kept_rows_elem. unfold title.
    rewrite (proj1 (sheet_identity_normalized s cols row)), lower_empty. done.
  - intros out Hout. by apply parse_sheet_records.
  - intros e He. rewrite (parse_sheet_spec s rows h cols Hh) in He.
    apply collect_Raise, list_elem_of_lookup in He as [k Hk].
    rewrite list_lookup_imap in Hk.
    destruct (kept_rows s cols (drop (h + 1) rows) !! k) as [row|]; [|done].
    cbn in Hk. injection Hk as Hk.
    apply sheet_record_Raise in Hk as (t & _ & Hk).
    by apply excel_serial_Raise in Hk as [-> _].
Qed.

Lemma extractor_keeps_identified_rows_witness :
  parse_sheet (Otr "otrmain")
    [ ["Driver Name"; "Phone#"; "AJG DT"; "GH DT"; "Onboarding Training"];
      [""; "555-0100"]; ["Ann"; "555-0101"]; ["driver name"] ]
  = collect (imap (λ k row,
                     sheet_record (Otr "otrmain")
                       (header_cols ["Driver Name"; "Phone#"; "AJG DT"; "GH DT";
                                     "Onboarding Training"]) k row)
               (kept_rows (Otr "otrmain")
                  (header_cols ["Driver Name"; "Phone#"; "AJG DT"; "GH DT";
                                "Onboarding Training"])
                  (drop (0 + 1)
                     [ ["Driver Name"; "Phone#"; "AJG DT"; "GH DT";
                        "Onboarding Training"];
                       [""; "555-0100"]; ["Ann"; "555-0101"]; ["driver name"] ]))).
Proof.
  refine (proj1 (extractor_keeps_identified_rows (Otr "otrmain") _ 0 _ _)).
  reflexivity.
Defined.

(** C2, as stated, fails: a row after the header whose phone field is not
    empty and whose identity field is empty gives no record. *)
Lemma empty_identity_row_counterexample :
  find_header_row
    [ ["Driver Name"; "Phone#"; "AJG DT"; "GH DT"; "Onboarding Training"];
      [""; "555-0100"] ] otr_keys
  = Ok (0%nat, header_cols ["Driver Name"; "Phone#"; "AJG DT"; "GH DT";
                           "Onboarding Training"])
  ∧ get [""; "555-0100"]
        (header_cols ["Driver Name"; "Phone#"; "AJG DT"; "GH DT";
                      "Onboarding Training"] !! "phone#") = "555-0100"
  ∧ is_headerish
      (get [""; "555-0100"]
        (header_cols ["Driver Name"; "Phone#"; "AJG DT"; "GH DT";
                      "Onboarding Training"] !! "driver name")) [] = true
  ∧ parse_otr
      [ ["Driver Name"; "Phone#"; "AJG DT"; "GH DT"; "Onboarding Training"];
        [""; "555-0100"] ] "otr" = Ok [].
Proof. repeat split; vm_compute; reflexivity. Qed.

(** ** Fallback titles and missing columns *)

Lemma excel_serial_empty : excel_serial_to_iso "" = Ok "".
Proof. reflexivity. Qed.

Lemma str_or_first_nonempty (a b : string) :
  str_or a b = first_nonempty [a; b].
Proof.
  unfold str_or, truthy. cbn. case_bool_decide; [|done]. cbn.
  by case_bool_decide.
Qed.

Lemma sheet_record_fallback (s : sheet) (field : string) (titles : list string)
    (cols : gmap string nat) (n : nat) (row : list string) (rec : record) :
  (s, field, titles) ∈ fallback_fields →
  sheet_record s cols n row = Ok rec →
  dict_get field rec
  = Some (first_nonempty ((λ t, get row (cols !! t)) <$> titles)).
Proof.
  intros Hin Hrec. unfold fallback_fields in Hin.
  repeat (apply elem_of_cons in Hin as [Hin|Hin]);
    [..|by apply elem_of_nil in Hin];
    injection Hin as -> -> ->; cbn [sheet_record] in Hrec.
  - injection Hrec as <-. unfold drivers_record. dict_lookup.
    by rewrite str_or_first_nonempty.
  - injection Hrec as <-. unfold drivers_record. dict_lookup.
    by rewrite str_or_first_nonempty.
  - unfold historical_record in Hrec. cbv zeta in Hrec.
    destruct (excel_serial_to_iso _) as [d|]; [|done].
    injection Hrec as <-. dict_lookup. by rewrite str_or_first_nonempty.
Qed.

Lemma sheet_record_missing (s : sheet) (field : string) (titles : list string)
    (cols : gmap string nat) (n : nat) (row : list string) (rec : record) :
  (field, titles) ∈ sheet_fields s →
  (∀ t, t ∈ titles → cols !! t = None) →
  sheet_record s cols n row = Ok rec →
  dict_get field rec = Some "".
Proof.
  intros Hin Hnone Hrec.
  apply Forall_forall in Hnone.
  destruct s; cbn [sheet_fields] in Hin;
    repeat (apply elem_of_cons in Hin as [Hin|Hin]);
    try (by apply elem_of_nil in Hin);
    injection Hin as -> ->;
    repeat match goal with
           | H : Forall _ (_ :: _) |- _ => apply Forall_cons in H as [? H]
           end;
    cbn [sheet_record] in Hrec;
    unfold drivers_record, leads_record, otr_record, ag4_hires_record,
      ag4_sep_record, historical_record in Hrec;
    cbv zeta in Hrec;
    repeat match goal with
           | H : cols !! _ = None |- _ => rewrite H in Hrec; clear H
           end;
    rewrite ?get_missing, ?excel_serial_empty in Hrec;
    cbn [bind] in Hrec;
    repeat match type of Hrec with
           | context [excel_serial_to_iso ?v] =>
               destruct (excel_serial_to_iso v); [cbn [bind] in Hrec|done]
           end;
    injection Hrec as <-; dict_lookup; reflexivity.
Qed.

(** C9 (amended).  When the header row of a sheet is found and a field has
    none of its titles in the header map, the lookup of the field gives the
    empty text without an error ([get] gives the empty text for a missing
    index and for an index beyond the row) and the field is the empty text
    in every record of the sheet.  The extraction completes unless a date
    cell of a kept row holds a day count beyond 2958465, the last day of
    the calendar, in which case it raises [OverflowError]. *)
Theorem missing_column_empty_field (s : sheet) (rows : list (list string))
    (h : nat) (cols : gmap string nat) (field : string) (titles : list string) :
  find_header_row rows (sheet_keys s) = Ok (h, cols) →
  (field, titles) ∈ sheet_fields s →
  (∀ t, t ∈ titles → cols !! t = None) →
  (∀ out rec, parse_sheet s rows = Ok out → rec ∈ out →
     dict_get field rec = Some "")
  ∧ (∀ row t, t ∈ titles → get row (cols !! t) = "")
  ∧ (∀ row, get row None = "")
  ∧ (∀ row i, (length row ≤ i)%nat → get row (Some i) = "")
  ∧ (∀ e, parse_sheet s rows = Raise e →
       e = OverflowError
       ∧ ∃ row t digits,
           row ∈ kept_rows s cols (drop (h + 1) rows)
           ∧ t ∈ sheet_date_titles s
           ∧ matches_serial (get row (cols !! t)) digits
           ∧ 2958465 < int_of_digits digits)
  ∧ ((∀ row t digits,
        row ∈ kept_rows s cols (drop (h + 1) rows) →
        t ∈ sheet_date_titles s →
        matches_serial (get row (cols !! t)) digits →
        int_of_digits digits ≤ 2958465) →
     ∃ out, parse_sheet s rows = Ok out).
Proof.
  intros Hh Hin Hnone.
  assert (Hraise : ∀ e, parse_sheet s rows = Raise e →
    e = OverflowError
    ∧ ∃ row t digits,
        row ∈ kept_rows s cols (drop (h + 1) rows)
        ∧ t ∈ sheet_date_titles s
        ∧ matches_serial (get row (cols !! t)) digits
        ∧ 2958465 < int_of_digits digits).
  { intros e He. rewrite (parse_sheet_spec s rows h cols Hh) in He.
    apply collect_Raise, list_elem_of_lookup in He as [k Hk].
    rewrite list_lookup_imap in Hk.
    destruct (kept_rows s cols (drop (h + 1) rows) !! k) as [row|] eqn:Hrow;
      [|done].
    cbn in Hk. injection Hk as Hk.
    apply sheet_record_Raise in Hk as (t & Ht & Hk).
    apply excel_serial_Raise in Hk as (-> & digits & Hm & Hbig).
    rewrite (proj2 (get_normalized row (cols !! t))) in Hm.
    split; [done|]. exists row, t, digits. split; [|done].
    apply list_elem_of_lookup. by exists k. }
  split; [|split; [|split; [|split; [|split]]]].
  - intros out rec Hout [k Hk]%list_elem_of_lookup.
    destruct (parse_sheet_records s rows h cols out Hh Hout) as [_ Hrecs].
    destruct (Hrecs k rec Hk) as (row & _ & Hrec).
    by eapply sheet_record_missing.
  - intros row t Ht. by rewrite (Hnone t Ht).
  - done.
  - intros row i Hi. by apply get_out_of_range.
  - done.
  - intros Hdates. destruct (parse_sheet s rows) as [out|e] eqn:Hp; [by eauto|].
    destruct (Hraise e eq_refl) as (_ & row & t & digits & Hrow & Ht & Hm & Hbig).
    specialize (Hdates row t digits Hrow Ht Hm). lia.
Qed.

Lemma missing_column_empty_field_witness :
  dict_get "incentives"
    [ ("id", "hist_1"); ("lastName", "Doe"); ("firstName", "Jo");
      ("position", ""); ("terminationDate", "2023-03-15"); ("incentives", "") ]
  = Some "".
Proof.
  refine (proj1 (missing_column_empty_field Historical
    [ ["Last Name"; "First Name"; "Termination Date"]; ["Doe"; "Jo"; "45000"] ]
    0 (header_cols ["Last Name"; "First Name"; "Termination Date"])
    "incentives" ["incentives"; "incentives "] _ _ _)
    [[ ("id", "hist_1"); ("lastName", "Doe"); ("firstName", "Jo");
       ("position", ""); ("terminationDate", "2023-03-15");
       ("incentives", "") ]] _ _ _).
  - reflexivity.
  - cbn. rewrite !elem_of_cons. tauto.
  - intros t [->|[->|[]%elem_of_nil]%elem_of_cons]%elem_of_cons;
      vm_compute; reflexivity.
  - vm_compute. reflexivity.
  - by left.
Defined.

(** C9, as stated, fails: the header row is found, no column is titled
    [incentives], and the extraction raises, because the termination date
    of a row leaves the calendar. *)
Lemma missing_column_counterexample :
  find_header_row
    [ ["Last Name"; "First Name"; "Termination Date"];
      ["Doe"; "Jo"; "2958466"] ] historical_keys
  = Ok (0%nat, header_cols ["Last Name"; "First Name"; "Termination Date"])
  ∧ header_cols ["Last Name"; "First Name"; "Termination Date"] !! "incentives"
    = None
  ∧ header_cols ["Last Name"; "First Name"; "Termination Date"] !! "incentives "
    = None
  ∧ parse_historical
      [ ["Last Name"; "First Name"; "Termination Date"];
        ["Doe"; "Jo"; "2958466"] ] = Raise OverflowError.
Proof. repeat split; vm_compute; reflexivity. Qed.

(** C5 (amended).  A field with a primary title and a fallback title is
    the first text that is not empty among the cell of the primary column
    and the cell of the fallback column, taken in that order, a title that
    the header map lacks counting as an empty cell; it is empty when both
    are.  So the cell of the fallback column is taken when the primary
    column is there with an empty cell.  (The keys of the header map are
    trimmed: the spellings with a trailing space are never among them.) *)
Theorem fallback_first_nonempty_cell (s : sheet) (field : string)
    (titles : list string) (rows : list (list string)) (h : nat)
    (cols : gmap string nat) (out : list record) :
  (s, field, titles) ∈ fallback_fields →
  find_header_row rows (sheet_keys s) = Ok (h, cols) →
  parse_sheet s rows = Ok out →
  (∀ k rec, out !! k = Some rec →
     ∃ row, kept_rows s cols (drop (h + 1) rows) !! k = Some row
            ∧ dict_get field rec
              = Some (first_nonempty ((λ t, get row (cols !! t)) <$> titles)))
  ∧ (∀ row t, cols !! t = None → get row (cols !! t) = "")
  ∧ (∀ a b, first_nonempty [a; b] = if bool_decide (a = "") then b else a)
  ∧ cols !! "twic card " = None
  ∧ cols !! "incentives " = None.
Proof.
  intros Hin Hh Hout. split; [|split; [|split]].
  - intros k rec Hk.
    destruct (parse_sheet_records s rows h cols out Hh Hout) as [_ Hrecs].
    destruct (Hrecs k rec Hk) as (row & Hrow & Hrec). exists row.
    split; [done|]. by eapply sheet_record_fallback.
  - by intros row t ->.
  - intros a b. cbn. case_bool_decide; [|done]. by case_bool_decide.
  - unfold find_header_row in Hh.
    apply find_header_row_from_Ok in Hh as (_ & row & _ & _ & _ & _ & ->).
    apply trailing_space_titles_absent.
Qed.

Lemma fallback_first_nonempty_cell_witness :
  ∃ row,
    kept_rows Drivers
      (header_cols ["Driver Name:"; "Home Base:"; "Position / Division";
                    "Driver Availability & Constraints"; "TWIC Card "])
      (drop (0 + 1)
         [ ["Driver Name:"; "Home Base:"; "Position / Division";
            "Driver Availability & Constraints"; "TWIC Card "];
           ["Bob"; "Reno"; "Lead"; ""; "yes"] ]) !! 0%nat = Some row
    ∧ dict_get "twic"
        [ ("id", "sep_1"); ("name", "Bob"); ("homeBase", "Reno");
          ("position", "Lead"); ("notes", ""); ("twic", "yes");
          ("hiredCity", ""); ("currentCity", ""); ("preferredPartner", "");
          ("routeRestrictions", "") ]
      = Some (first_nonempty
                ((λ t, get row
                         (header_cols
                            ["Driver Name:"; "Home Base:"; "Position / Division";
                             "Driver Availability & Constraints"; "TWIC Card "]
                          !! t)) <$> ["twic card"; "twic card "])).
Proof.
  refine (proj1 (fallback_first_nonempty_cell Drivers "twic"
    ["twic card"; "twic card "]
    [ ["Driver Name:"; "Home Base:"; "Position / Division";
       "Driver Availability & Constraints"; "TWIC Card "];
      ["Bob"; "Reno"; "Lead"; ""; "yes"] ] 0 _
    [[ ("id", "sep_1"); ("name", "Bob"); ("homeBase", "Reno");
       ("position", "Lead"); ("notes", ""); ("twic", "yes");
       ("hiredCity", ""); ("currentCity", ""); ("preferredPartner", "");
       ("routeRestrictions", "") ]] _ _ _) 0%nat _ _).
  - unfold fallback_fields. rewrite !elem_of_cons. tauto.
  - reflexivity.
  - vm_compute. reflexivity.
  - reflexivity.
Defined.

(** C5, as stated, fails: the header map has the primary title of the
    position field, the cell of that column is empty, and the record gets
    the text of the fallback column. *)
Lemma fallback_column_counterexample :
  find_header_row
    [ ["Driver Name:"; "Home Base:"; "Position / " +:+ LF +:+ "Division";
       "Position / Division"; "Driver Availability & Constraints"];
      ["Bob"; "Reno"; ""; "Lead"; ""] ] drivers_keys
  = Ok (0%nat,
        header_cols
          ["Driver Name:"; "Home Base:"; "Position / " +:+ LF +:+ "Division";
           "Position / Division"; "Driver Availability & Constraints"])
  ∧ header_cols
      ["Driver Name:"; "Home Base:"; "Position / " +:+ LF +:+ "Division";
       "Position / Division"; "Driver Availability & Constraints"]
    !! position_title_nl = Some 2%nat
  ∧ get ["Bob"; "Reno"; ""; "Lead"; ""] (Some 2%nat) = ""
  ∧ parse_drivers
      [ ["Driver Name:"; "Home Base:"; "Position / " +:+ LF +:+ "Division";
         "Position / Division"; "Driver Availability & Constraints"];
        ["Bob"; "Reno"; ""; "Lead"; ""] ]
    = Ok [[ ("id", "sep_1"); ("name", "Bob"); ("homeBase", "Reno");
            ("position", "Lead"); ("notes", ""); ("twic", "");
            ("hiredCity", ""); ("currentCity", ""); ("preferredPartner", "");
            ("routeRestrictions", "") ]].
Proof. repeat split; vm_compute; reflexivity. Qed.

(** * Further properties *)

(** ** [normalize_text] and [lower] *)

Lemma normalize_text_normalized (v : string) : normalized (normalize_text v).
Proof.
  unfold normalized, normalize_text. split; [|apply strip_starts_clean].
  apply all_chars_strip, replace_CR_no_CR.
Qed.

Lemma normalized_fixed (s : string) : normalized s → normalize_text s = s.
Proof.
  intros (Hcr & H1 & H2). unfold normalize_text, replace.
  rewrite (replace_loop_absent (CR +:+ LF)), replace_loop_absent.
  - by apply strip_clean.
  - intros t Ht. rewrite is_prefix_CR in Ht. destruct t as [|ch rest]; [done|].
    by exists ch, rest.
  - done.
  - intros [|ch rest] Ht; [done|]. cbn in Ht.
    apply andb_true_iff in Ht as [Hch _]. by exists ch, rest.
  - done.
Qed.

(** X1.  [normalize_text] produces texts without a carriage return and
    without white space at either end, it leaves exactly those texts
    unchanged, and so applying it twice is applying it once. *)
Theorem normalize_text_normal_form (v : string) :
  normalized (normalize_text v)
  ∧ (normalize_text v = v ↔ normalized v)
  ∧ normalize_text (normalize_text v) = normalize_text v.
Proof.
  split; [apply normalize_text_normalized|]. split.
  - split; [intros <-; apply normalize_text_normalized|apply normalized_fixed].
  - apply normalized_fixed, normalize_text_normalized.
Qed.

Lemma lower_char_idemp (ch : ascii) : lower_char (lower_char ch) = lower_char ch.
Proof. by destruct ch as [[] [] [] [] [] [] [] []]. Qed.

Lemma lower_idemp (s : string) : lower (lower s) = lower s.
Proof.
  induction s as [|ch s IH]; [done|]. cbn. by rewrite lower_char_idemp, IH.
Qed.

Lemma lower_length (s : string) : String.length (lower s) = String.length s.
Proof. induction s as [|ch s IH]; [done|]. cbn. by rewrite IH. Qed.

Lemma lower_char_CR (ch : ascii) :
  bool_decide ("013"%char = lower_char ch) = bool_decide ("013"%char = ch).
Proof. by destruct ch as [[] [] [] [] [] [] [] []]. Qed.

Lemma lower_char_LF (ch : ascii) :
  bool_decide ("010"%char = lower_char ch) = bool_decide ("010"%char = ch).
Proof. by destruct ch as [[] [] [] [] [] [] [] []]. Qed.

Lemma is_prefix_CR_lower (t : string) : is_prefix CR (lower t) = is_prefix CR t.
Proof. rewrite !is_prefix_CR. destruct t; [done|]. cbn. apply lower_char_CR. Qed.

Lemma is_prefix_cons (a b : ascii) (p s : string) :
  is_prefix (String a p) (String b s) = bool_decide (a = b) && is_prefix p s.
Proof. reflexivity. Qed.

Lemma is_prefix_CRLF_lower (t : string) :
  is_prefix (CR +:+ LF) (lower t) = is_prefix (CR +:+ LF) t.
Proof.
  change (CR +:+ LF) with (String "013"%char LF).
  destruct t as [|a t]; [done|]. cbn [lower].
  rewrite !is_prefix_cons, lower_char_CR. f_equal.
  destruct t as [|b t]; [done|]. cbn [lower]. unfold LF.
  by rewrite !is_prefix_cons, lower_char_LF.
Qed.

Lemma replace_loop_lower (old new : string) (skip : nat) (s : string) :
  (∀ t, is_prefix old (lower t) = is_prefix old t) → lower new = new →
  replace_loop old new skip (lower s) = lower (replace_loop old new skip s).
Proof.
  intros Hold Hnew. revert skip.
  induction s as [|ch s IH]; intros skip; [done|].
  cbn [lower replace_loop]. destruct skip as [|k]; [|apply IH].
  change (String (lower_char ch) (lower s)) with (lower (String ch s)).
  rewrite Hold. destruct (is_prefix old (String ch s)).
  - by rewrite lower_app, Hnew, IH.
  - cbn. by rewrite IH.
Qed.

Lemma lstrip_lower (s : string) : lstrip (lower s) = lower (lstrip s).
Proof.
  induction s as [|ch s IH]; [done|]. cbn. rewrite is_space_lower_char.
  by destruct (is_space ch).
Qed.

Lemma strip_lower (s : string) : strip (lower s) = lower (strip s).
Proof.
  unfold strip, rstrip.
  by rewrite lstrip_lower, <- lower_rev, lstrip_lower, <- lower_rev.
Qed.

Lemma normalize_text_lower (v : string) :
  normalize_text (lower v) = lower (normalize_text v).
Proof.
  unfold normalize_text, replace.
  rewrite (replace_loop_lower (CR +:+ LF) LF) by (apply is_prefix_CRLF_lower || done).
  rewrite (replace_loop_lower CR LF) by (apply is_prefix_CR_lower || done).
  apply strip_lower.
Qed.

Lemma title_lower (v : string) : title (lower v) = title v.
Proof. unfold title. by rewrite normalize_text_lower, lower_idemp. Qed.

Lemma title_normalize (v : string) : title (normalize_text v) = title v.
Proof. unfold title. by rewrite (normalized_fixed _ (normalize_text_normalized v)). Qed.

Lemma title_fixed (v : string) :
  lower (title v) = title v ∧ normalize_text (title v) = title v.
Proof.
  unfold title. split; [apply lower_idemp|].
  rewrite <- normalize_text_lower.
  by rewrite (normalized_fixed _ (normalize_text_normalized (lower v))).
Qed.

Lemma app_inj_length (a a' b b' : string) :
  String.length a = String.length a' → a +:+ b = a' +:+ b' → a = a' ∧ b = b'.
Proof.
  revert a'. induction a as [|ch a IH]; intros [|ch' a'] Hlen Heq; try done.
  rewrite !app_cons in Heq. injection Heq as -> Heq. cbn in Hlen.
  destruct (IH a' ltac:(lia) Heq) as [-> ->]. done.
Qed.

(** A text that occurs in a lower-cased text is itself in lower case. *)
Lemma occurs_in_lower (p x : string) : occurs_in p (lower x) → lower p = p.
Proof.
  intros (before & after & Hx).
  assert (Hl : lower (lower x) = lower x) by apply lower_idemp.
  rewrite Hx, !lower_app in Hl.
  apply app_inj_length in Hl as [_ Hl]; [|apply lower_length].
  by apply app_inj_length in Hl as [Hl _]; [|apply lower_length].
Qed.

Lemma lower_join (sep : string) (parts : list string) :
  lower (join sep parts) = join (lower sep) (lower <$> parts).
Proof.
  induction parts as [|p parts IH]; [done|].
  destruct parts as [|q parts]; [done|].
  change (join sep (p :: q :: parts)) with (p +:+ sep +:+ join sep (q :: parts)).
  rewrite !lower_app, IH. done.
Qed.

Lemma header_text_lower (row : list string) :
  lower (header_text row) = header_text row.
Proof.
  unfold header_text. rewrite lower_join, <- list_fmap_compose.
  change (lower " | ") with " | ". f_equal. apply list_fmap_ext.
  intros i x _. cbn. apply lower_idemp.
Qed.

(** X2.  [is_headerish] looks at its argument through [normalize_text] and
    [lower]: the case of the letters, the line ends and the surrounding
    white space of the argument do not matter.  The phrases are compared as
    they are: a phrase with a capital letter matches nothing, so that with
    such phrases only the empty texts are headerish. *)
Theorem is_headerish_insensitive (v : string) (phrases : list string) :
  is_headerish (lower v) phrases = is_headerish v phrases
  ∧ is_headerish (normalize_text v) phrases = is_headerish v phrases
  ∧ ((∀ p, p ∈ phrases → lower p ≠ p) →
     is_headerish v phrases = bool_decide (normalize_text v = "")).
Proof.
  unfold is_headerish. cbv zeta. fold (title v) (title (lower v))
    (title (normalize_text v)).
  rewrite title_lower, title_normalize. split; [done|]. split; [done|].
  intros Hcap.
  assert (Ht : title v = "" ↔ normalize_text v = "") by apply lower_empty.
  case_bool_decide as He1; case_bool_decide as He2; try tauto.
  apply not_true_iff_false. rewrite existsb_exists.
    intros (p & Hp%list_elem_of_In & Hc%contains_spec).
    by apply occurs_in_lower, Hcap in Hc.
Qed.

(** X3.  The keywords of the header search are compared with lower-cased
    row texts as they are: when a required keyword has a capital letter no
    row can contain it, and the search fails whatever the grid. *)
Theorem find_header_row_capital_keyword (rows : list (list string))
    (must_have : list string) (k : string) :
  k ∈ must_have → lower k ≠ k →
  find_header_row rows must_have = Raise RuntimeError.
Proof.
  intros Hk Hcap. unfold find_header_row.
  apply find_header_row_from_Raise. split; [done|].
  intros row _. apply row_has_keys_false. intros Hall.
  specialize (Hall k Hk). rewrite <- header_text_lower in Hall.
  by apply occurs_in_lower in Hall.
Qed.

Lemma find_header_row_capital_keyword_witness :
  find_header_row [["Driver Name"; "Home Base"]] ["Driver Name"]
  = Raise RuntimeError.
Proof.
  refine (find_header_row_capital_keyword _ _ "Driver Name" _ _).
  - by left.
  - discriminate.
Defined.

(** ** Decimal texts *)

Lemma string_of_uint_digits (d : Decimal.uint) :
  all_chars is_digit (NilEmpty.string_of_uint d) = true.
Proof. induction d; cbn; done. Qed.

Lemma str_of_nat_digits (n : nat) : all_chars is_digit (str_of_nat n) = true.
Proof. apply string_of_uint_digits. Qed.

Lemma str_of_nat_nonempty (n : nat) : str_of_nat n ≠ "".
Proof.
  unfold str_of_nat. intros He.
  assert (Hnil : Nat.to_uint n = Decimal.Nil)
    by (by destruct (Nat.to_uint n)).
  pose proof (Unsigned.of_to n) as Hn. rewrite Hnil in Hn. cbn in Hn.
  subst n. discriminate Hnil.
Qed.

Lemma str_of_nat_inj (n m : nat) : str_of_nat n = str_of_nat m → n = m.
Proof.
  unfold str_of_nat. intros He. apply Unsigned.to_uint_inj.
  apply (f_equal NilEmpty.uint_of_string) in He.
  rewrite !NilEmpty.usu in He. by injection He.
Qed.

Lemma int_of_digits_loop_uint (d : Decimal.uint) (acc : nat) :
  int_of_digits_loop (Z.of_nat acc) (NilEmpty.string_of_uint d)
  = Z.of_nat (Nat.of_uint_acc d acc).
Proof.
  revert acc. induction d as [|d IH|d IH|d IH|d IH|d IH|d IH|d IH|d IH|d IH|d IH];
    intros acc; [done|..];
    cbn [NilEmpty.string_of_uint int_of_digits_loop Nat.of_uint_acc];
    rewrite <- IH; f_equal; rewrite Nat.tail_mul_spec;
    change (ord "0") with 48; change (ord "1") with 49;
    change (ord "2") with 50; change (ord "3") with 51;
    change (ord "4") with 52; change (ord "5") with 53;
    change (ord "6") with 54; change (ord "7") with 55;
    change (ord "8") with 56; change (ord "9") with 57; lia.
Qed.

Lemma int_of_digits_str_of_nat (n : nat) :
  int_of_digits (str_of_nat n) = Z.of_nat n.
Proof.
  unfold int_of_digits, str_of_nat.
  change 0 with (Z.of_nat 0).
  rewrite (int_of_digits_loop_uint (Nat.to_uint n) 0).
  f_equal. apply Unsigned.of_to.
Qed.

Lemma matches_serial_str_of_nat (n : nat) :
  matches_serial (str_of_nat n) (str_of_nat n).
Proof.
  split; [apply str_of_nat_nonempty|]. split; [apply str_of_nat_digits|].
  by left.
Qed.

(** ** The result of [excel_serial_to_iso] *)

Lemma zero_pad_digits (width : nat) (s : string) :
  all_chars is_digit s = true → all_chars is_digit (zero_pad width s) = true.
Proof.
  intros Hs. unfold zero_pad.
  induction (width - String.length s)%nat as [|k IH]; [done|].
  rewrite Nat.iter_succ. cbn [all_chars]. by rewrite IH.
Qed.

Lemma zero_pad_nonempty (width : nat) (s : string) :
  s ≠ "" → zero_pad width s ≠ "".
Proof.
  intros Hs. unfold zero_pad.
  by destruct (width - String.length s)%nat.
Qed.

Lemma date_char_digit (s : string) :
  all_chars is_digit s = true → all_chars is_date_char s = true.
Proof.
  apply all_chars_impl. intros ch Hch. unfold is_date_char. by rewrite Hch.
Qed.

Lemma date_char_not_space (ch : ascii) :
  is_date_char ch = true → not_space ch = true.
Proof.
  unfold is_date_char. intros [Hd| ->%bool_decide_eq_true]%orb_true_iff;
    [by apply digit_not_space|done].
Qed.

(** The ISO text of a date starts with digits followed by a dash and is
    made of digits and dashes. *)
Lemma strftime_ymd_shape (date : Z * Z * Z) :
  ∃ a rest, strftime_ymd date = a +:+ String "-"%char rest
            ∧ a ≠ "" ∧ all_chars is_digit a = true
            ∧ all_chars is_date_char (strftime_ymd date) = true.
Proof.
  destruct date as [[y m] d]. unfold strftime_ymd, str_of_Z.
  set (a := zero_pad 4 (str_of_nat (Z.to_nat y))).
  set (b := zero_pad 2 (str_of_nat (Z.to_nat m))).
  set (c := zero_pad 2 (str_of_nat (Z.to_nat d))).
  assert (Ha : all_chars is_digit a = true)
    by apply zero_pad_digits, str_of_nat_digits.
  assert (Hb : all_chars is_digit b = true)
    by apply zero_pad_digits, str_of_nat_digits.
  assert (Hc : all_chars is_digit c = true)
    by apply zero_pad_digits, str_of_nat_digits.
  exists a, (b +:+ "-" +:+ c). split; [done|].
  split; [apply zero_pad_nonempty, str_of_nat_nonempty|]. split; [done|].
  rewrite all_chars_app, (date_char_digit a Ha).
  change ("-" +:+ b +:+ "-" +:+ c) with (String "-"%char (b +:+ "-" +:+ c)).
  cbn [all_chars andb]. rewrite all_chars_app, (date_char_digit b Hb).
  change ("-" +:+ c) with (String "-"%char c).
  cbn [all_chars andb]. by rewrite (date_char_digit c Hc).
Qed.

Lemma dash_not_digit : is_digit "-"%char = false.
Proof. reflexivity. Qed.

Lemma excel_serial_iso_text (date : Z * Z * Z) :
  strip (strftime_ymd date) = strftime_ymd date
  ∧ fullmatch_serial (strftime_ymd date) = None.
Proof.
  destruct (strftime_ymd_shape date) as (a & rest & Hs & Ha & Hd & Hall).
  split.
  - apply strip_no_space.
    by apply (all_chars_impl is_date_char), Hall; apply date_char_not_space.
  - rewrite Hs. unfold fullmatch_serial.
    rewrite span_stop by (eauto using dash_not_digit).
    by rewrite bool_decide_eq_false_2.
Qed.

Lemma excel_serial_result (v w : string) :
  excel_serial_to_iso v = Ok w →
  strip w = w
  ∧ (∀ digits, ¬ matches_serial w digits)
  ∧ excel_serial_to_iso w = Ok w.
Proof.
  intros Hv.
  enough (H : strip w = w ∧ (w = "" ∨ fullmatch_serial w = None)).
  { destruct H as [Hs Hw]. split; [done|]. split.
    - destruct Hw as [->|Hn]; [|by apply fullmatch_serial_None].
      intros digits Hm. by apply matches_serial_nonempty in Hm.
    - unfold excel_serial_to_iso. cbv zeta. rewrite Hs.
      case_bool_decide as He; [by rewrite He|].
      destruct Hw as [Hw|Hw]; [done|]. by rewrite Hw. }
  unfold excel_serial_to_iso in Hv. cbv zeta in Hv.
  case_bool_decide as He; [injection Hv as <-; by auto|].
  destruct (fullmatch_serial (strip v)) as [digits|] eqn:Hf.
  - destruct (int_of_digits digits <=? 0); [injection Hv as <-; by auto|].
    destruct (datetime_add_days base (int_of_digits digits)) as [date|];
      [|done].
    cbn in Hv. injection Hv as <-.
    destruct (excel_serial_iso_text date). auto.
  - injection Hv as <-. split; [apply strip_idemp|by right].
Qed.

(** X4.  A text that [excel_serial_to_iso] returns has no white space at
    either end and is not a day count any more, and the conversion gives
    it back as it is: converting twice is converting once. *)
Theorem excel_serial_stable (v w : string) :
  excel_serial_to_iso v = Ok w →
  strip w = w
  ∧ (∀ digits, ¬ matches_serial w digits)
  ∧ excel_serial_to_iso w = Ok w.
Proof. apply excel_serial_result. Qed.

Lemma excel_serial_stable_witness :
  excel_serial_to_iso "2023-03-15" = Ok "2023-03-15".
Proof.
  refine (proj2 (proj2 (excel_serial_stable " 45000.0" "2023-03-15" _))).
  reflexivity.
Defined.

(** ** Well-formed shared-string references *)

Lemma int_literal_loop_uint (d : Decimal.uint) (acc : nat) :
  int_literal_loop (Z.of_nat acc) true (NilEmpty.string_of_uint d)
  = Some (Z.of_nat (Nat.of_uint_acc d acc)).
Proof.
  revert acc. induction d as [|d IH|d IH|d IH|d IH|d IH|d IH|d IH|d IH|d IH|d IH];
    intros acc; [done|..];
    cbn [NilEmpty.string_of_uint Nat.of_uint_acc];
    rewrite <- IH; cbn [int_literal_loop];
    match goal with
    | |- context [is_digit ?ch] => change (is_digit ch) with true
    end; cbn iota; f_equal; rewrite Nat.tail_mul_spec;
    change (ord "0") with 48; change (ord "1") with 49;
    change (ord "2") with 50; change (ord "3") with 51;
    change (ord "4") with 52; change (ord "5") with 53;
    change (ord "6") with 54; change (ord "7") with 55;
    change (ord "8") with 56; change (ord "9") with 57; lia.
Qed.

Lemma int_literal_loop_start (s : string) :
  all_chars is_digit s = true → s ≠ "" →
  int_literal_loop 0 false s = int_literal_loop 0 true s.
Proof.
  destruct s as [|ch s]; [done|]. cbn. intros Hch%andb_true_iff _.
  destruct Hch as [-> _]. done.
Qed.

Lemma py_int_digits (s : string) :
  all_chars is_digit s = true → py_int s = int_literal_loop 0 false s.
Proof.
  intros Hs. unfold py_int.
  rewrite strip_no_space by (by apply (all_chars_impl is_digit), Hs;
                             apply digit_not_space).
  destruct s as [|ch s]; [done|]. cbn in Hs.
  apply andb_true_iff in Hs as [Hch _].
  by destruct ch as [[] [] [] [] [] [] [] []].
Qed.

(** [int(str(n))] is [n]. *)
Lemma py_int_str_of_nat (n : nat) : py_int (str_of_nat n) = Some (Z.of_nat n).
Proof.
  rewrite py_int_digits by apply str_of_nat_digits.
  rewrite int_literal_loop_start
    by (apply str_of_nat_digits || apply str_of_nat_nonempty).
  unfold str_of_nat. change 0 with (Z.of_nat 0).
  rewrite (int_literal_loop_uint (Nat.to_uint n) 0).
  do 2 f_equal. apply Unsigned.of_to.
Qed.

(** X5.  A cell without inline text, of type [s], whose value is the
    decimal text of a number [i] gets the shared string number [i]
    (counting from 0) when the table has one, and keeps the decimal text
    otherwise. *)
Theorem cell_text_decimal_reference (shared : list string) (c : cell_elem)
    (i : nat) :
  inline_t c = None →
  value_v c = Some (Some (str_of_nat i)) →
  attr_t c = Some "s" →
  cell_text shared c = default (str_of_nat i) (shared !! i).
Proof.
  intros Hi Hv Ht. unfold cell_text. rewrite Hi, Hv, Ht.
  rewrite bool_decide_eq_true_2 by done. unfold text_or_empty.
  cbn [default from_option id]. unfold id.
  rewrite py_int_str_of_nat. cbn [mbind option_bind].
  unfold py_index. cbv zeta.
  destruct (decide (i < length shared)%nat) as [Hlt|Hge].
  - rewrite (proj2 (andb_true_iff _ _)), Nat2Z.id
      by (rewrite Z.leb_le, Z.ltb_lt; lia).
    destruct (lookup_lt_is_Some_2 shared i Hlt) as [val ->]. done.
  - rewrite (proj2 (andb_false_iff _ _)) by (right; apply Z.ltb_ge; lia).
    rewrite (proj2 (andb_false_iff _ _)) by (right; apply Z.ltb_ge; lia).
    by rewrite (lookup_ge_None_2 shared i) by lia.
Qed.

Lemma cell_text_decimal_reference_witness :
  cell_text ["Name"; "Phone"; "Notes"]
    {| attr_r := Some "B1"; attr_t := Some "s"; inline_t := None;
       value_v := Some (Some "2") |} = "Notes".
Proof.
  refine (cell_text_decimal_reference ["Name"; "Phone"; "Notes"]
    {| attr_r := Some "B1"; attr_t := Some "s"; inline_t := None;
       value_v := Some (Some "2") |} 2 _ _ _); reflexivity.
Defined.

(** ** The records of an extractor *)

(** The record of a row, opened: the conversions of its date cells
    succeeded and the record is the written-out dictionary. *)
Ltac open_record Hrec :=
  cbn [sheet_record] in Hrec;
  unfold drivers_record, leads_record, otr_record, ag4_hires_record,
    ag4_sep_record, historical_record in Hrec;
  cbv zeta in Hrec;
  repeat match type of Hrec with
         | context [excel_serial_to_iso ?v] =>
             let Hd := fresh "Hdate" in
             destruct (excel_serial_to_iso v) eqn:Hd;
             [cbn [bind] in Hrec|discriminate Hrec]
         end;
  injection Hrec as <-.

Lemma parse_sheet_Ok_header (s : sheet) (rows : list (list string))
    (out : list record) :
  parse_sheet s rows = Ok out →
  ∃ h cols, find_header_row rows (sheet_keys s) = Ok (h, cols).
Proof.
  rewrite parse_sheet_unfold.
  destruct (find_header_row rows (sheet_keys s)) as [[h cols]|e]; [|done].
  eauto.
Qed.

Lemma parse_sheet_Ok_records (s : sheet) (rows : list (list string))
    (out : list record) :
  parse_sheet s rows = Ok out →
  ∃ h cols,
    find_header_row rows (sheet_keys s) = Ok (h, cols)
    ∧ ∀ k rec, out !! k = Some rec →
        ∃ row, kept_rows s cols (drop (h + 1) rows) !! k = Some row
               ∧ sheet_record s cols k row = Ok rec.
Proof.
  intros Hout. destruct (parse_sheet_Ok_header s rows out Hout) as (h & cols & Hh).
  exists h, cols. split; [done|].
  by destruct (parse_sheet_records s rows h cols out Hh Hout).
Qed.

Lemma sheet_record_id (s : sheet) (cols : gmap string nat) (n : nat)
    (row : list string) (rec : record) :
  sheet_record s cols n row = Ok rec →
  dict_get "id" rec = Some (make_id (sheet_prefix s) (n + 1)).
Proof. intros Hrec. destruct s; open_record Hrec; reflexivity. Qed.

Lemma sheet_record_columns (s : sheet) (cols : gmap string nat) (n : nat)
    (row : list string) (rec : record) :
  sheet_record s cols n row = Ok rec → rec.*1 = sheet_columns s.
Proof. intros Hrec. destruct s; open_record Hrec; reflexivity. Qed.

Lemma sheet_record_identity (s : sheet) (cols : gmap string nat) (n : nat)
    (row : list string) (rec : record) :
  sheet_record s cols n row = Ok rec →
  dict_get (identity_field s) rec = Some (sheet_identity s cols row).
Proof.
  intros Hrec. destruct s; open_record Hrec;
    cbn [identity_field sheet_identity]; dict_lookup; reflexivity.
Qed.

Lemma make_id_inj (prefix : string) (n m : nat) :
  make_id prefix n = make_id prefix m → n = m.
Proof.
  unfold make_id. intros He.
  apply (inj (String.app prefix)) in He.
  apply (inj (String.app "_")) in He. by apply str_of_nat_inj.
Qed.

(** X6.  In the output of an extractor the record at position [k]
    (from 0) has the identifier [<prefix>_<k+1>]: the identifiers count
    from 1 without a gap, and no two records share one. *)
Theorem extractor_identifiers_sequential (s : sheet)
    (rows : list (list string)) (out : list record) :
  parse_sheet s rows = Ok out →
  (∀ k rec, out !! k = Some rec →
     dict_get "id" rec
     = Some (sheet_prefix s +:+ "_" +:+ str_of_nat (k + 1)))
  ∧ NoDup (dict_get "id" <$> out).
Proof.
  intros Hout.
  destruct (parse_sheet_Ok_records s rows out Hout) as (h & cols & _ & Hrecs).
  assert (Hid : ∀ k rec, out !! k = Some rec →
            dict_get "id" rec = Some (make_id (sheet_prefix s) (k + 1))).
  { intros k rec Hk. destruct (Hrecs k rec Hk) as (row & _ & Hrec).
    by eapply sheet_record_id. }
  split; [done|]. apply NoDup_alt. intros i j x Hi Hj.
  rewrite list_lookup_fmap in Hi, Hj.
  destruct (out !! i) as [ri|] eqn:Hri; [|done].
  destruct (out !! j) as [rj|] eqn:Hrj; [|done].
  cbn in Hi, Hj. rewrite (Hid i ri Hri) in Hi. rewrite (Hid j rj Hrj) in Hj.
  injection Hi as <-. injection Hj as Hj. apply make_id_inj in Hj. lia.
Qed.

Lemma extractor_identifiers_sequential_witness :
  dict_get "id"
    [ ("id", "lead_2"); ("name", "Bo"); ("dateAccepted", "");
      ("dateSentPhase2", ""); ("position", ""); ("recruiter", "");
      ("notes", "") ]
  = Some ("lead" +:+ "_" +:+ str_of_nat (1 + 1)).
Proof.
  refine (proj1 (extractor_identifiers_sequential Leads
    [ ["Driver Name"; "Date of Position Acceptance"; "Date Sent to Phase 2"];
      ["Al"; "45000"]; [""; "x"]; ["Bo"] ]
    [ [ ("id", "lead_1"); ("name", "Al"); ("dateAccepted", "2023-03-15");
        ("dateSentPhase2", ""); ("position", ""); ("recruiter", "");
        ("notes", "") ];
      [ ("id", "lead_2"); ("name", "Bo"); ("dateAccepted", "");
        ("dateSentPhase2", ""); ("position", ""); ("recruiter", "");
        ("notes", "") ] ] _) 1%nat _ _).
  - vm_compute. reflexivity.
  - reflexivity.
Defined.

(** X7.  Every record of an extractor has the field names of its sheet, in
    the order of the script, the identifier first. *)
Theorem extractor_record_columns (s : sheet) (rows : list (list string))
    (out : list record) (rec : record) :
  parse_sheet s rows = Ok out → rec ∈ out →
  rec.*1 = sheet_columns s ∧ NoDup rec.*1.
Proof.
  intros Hout [k Hk]%list_elem_of_lookup.
  destruct (parse_sheet_Ok_records s rows out Hout) as (h & cols & _ & Hrecs).
  destruct (Hrecs k rec Hk) as (row & _ & Hrec).
  rewrite (sheet_record_columns _ _ _ _ _ Hrec). split; [done|].
  destruct s; cbn [sheet_columns];
    match goal with
    | |- ?P => apply (bool_decide_unpack P); vm_compute; exact I
    end.
Qed.

Lemma extractor_record_columns_witness :
  [ ("id", "hist_1"); ("lastName", "Doe"); ("firstName", "Jo");
    ("position", ""); ("terminationDate", "2023-03-15");
    ("incentives", "") ].*1 = sheet_columns Historical.
Proof.
  refine (proj1 (extractor_record_columns Historical
    [ ["Last Name"; "First Name"; "Termination Date"]; ["Doe"; "Jo"; "45000"] ]
    [[ ("id", "hist_1"); ("lastName", "Doe"); ("firstName", "Jo");
       ("position", ""); ("terminationDate", "2023-03-15");
       ("incentives", "") ]] _ _ _)).
  - vm_compute. reflexivity.
  - by left.
Defined.

Lemma not_space_normalized (s : string) :
  no_CR s = true → all_chars not_space s = true → normalized s.
Proof.
  intros Hcr Hsp. split; [done|]. split.
  - destruct s as [|ch s]; [done|]. cbn [all_chars] in Hsp.
    apply andb_true_iff in Hsp as [Hch _]. exact Hch.
  - rewrite <- all_chars_rev in Hsp. destruct (String.rev s) as [|ch t]; [done|].
    cbn [all_chars] in Hsp. apply andb_true_iff in Hsp as [Hch _]. exact Hch.
Qed.

Lemma date_text_normalized (date : Z * Z * Z) :
  normalize_text (strftime_ymd date) = strftime_ymd date.
Proof.
  destruct (strftime_ymd_shape date) as (_ & _ & _ & _ & _ & Hall).
  apply normalized_fixed, not_space_normalized.
  - apply (all_chars_impl is_date_char); [|done].
    intros [[] [] [] [] [] [] [] []]; done.
  - apply (all_chars_impl is_date_char); [|done]. apply date_char_not_space.
Qed.

Lemma normalized_strip (v : string) : normalize_text v = v → strip v = v.
Proof.
  intros Hv. destruct (normalize_text_normalized v) as (_ & H1 & H2).
  rewrite Hv in H1, H2. by apply strip_clean.
Qed.

(** The conversion of a normalized text is a normalized text. *)
Lemma excel_serial_normalized (v w : string) :
  normalize_text v = v → excel_serial_to_iso v = Ok w → normalize_text w = w.
Proof.
  intros Hn Hv. unfold excel_serial_to_iso in Hv. cbv zeta in Hv.
  rewrite (normalized_strip v Hn) in Hv.
  case_bool_decide as He; [by injection Hv as <-|].
  destruct (fullmatch_serial v) as [digits|].
  - destruct (int_of_digits digits <=? 0); [by injection Hv as <-|].
    destruct (datetime_add_days base (int_of_digits digits)) as [date|];
      [|done].
    cbn in Hv. injection Hv as <-. apply date_text_normalized.
  - by injection Hv as <-.
Qed.

Lemma str_or_normalized (a b : string) :
  normalize_text a = a → normalize_text b = b →
  normalize_text (str_or a b) = str_or a b.
Proof. intros Ha Hb. unfold str_or. by destruct (truthy a). Qed.

Lemma get_normalize (row : list string) (idx : option nat) :
  normalize_text (get row idx) = get row idx.
Proof. apply get_normalized. Qed.

Lemma sheet_record_normalized (s : sheet) (cols : gmap string nat) (n : nat)
    (row : list string) (rec : record) :
  sheet_record s cols n row = Ok rec →
  Forall (λ kv, kv.1 = "id" ∨ normalize_text kv.2 = kv.2) rec.
Proof.
  intros Hrec.
  destruct s; open_record Hrec;
    repeat match goal with
           | H : excel_serial_to_iso (get _ _) = Ok _ |- _ =>
               apply excel_serial_normalized in H; [|apply get_normalize]
           end;
    repeat (apply Forall_cons; split;
            [first [ by left
                   | right; cbn [snd];
                     first [ apply get_normalize
                           | assumption
                           | apply str_or_normalized; apply get_normalize
                           | reflexivity ] ]
            |]);
    apply Forall_nil_2.
Qed.

(** X8.  Every field of a record of an extractor, the identifier apart, is
    a normalized text: it has no carriage return and no white space at
    either end, and [normalize_text] leaves it unchanged. *)
Theorem extractor_fields_normalized (s : sheet) (rows : list (list string))
    (out : list record) (rec : record) (k v : string) :
  parse_sheet s rows = Ok out → rec ∈ out → (k, v) ∈ rec → k ≠ "id" →
  normalize_text v = v ∧ normalized v.
Proof.
  intros Hout [i Hi]%list_elem_of_lookup Hkv Hk.
  destruct (parse_sheet_Ok_records s rows out Hout) as (h & cols & _ & Hrecs).
  destruct (Hrecs i rec Hi) as (row & _ & Hrec).
  apply sheet_record_normalized in Hrec.
  rewrite Forall_forall in Hrec. destruct (Hrec (k, v) Hkv) as [?|Hv]; [done|].
  cbn in Hv. split; [done|]. rewrite <- Hv. apply normalize_text_normalized.
Qed.

Lemma extractor_fields_normalized_witness :
  normalize_text "Jo Ann" = "Jo Ann" ∧ normalized "Jo Ann".
Proof.
  refine (extractor_fields_normalized Historical
    [ ["Last Name"; "First Name"; "Termination Date"];
      [" Doe "; "  Jo Ann" +:+ CR +:+ LF; "45000"] ]
    [[ ("id", "hist_1"); ("lastName", "Doe"); ("firstName", "Jo Ann");
       ("position", ""); ("terminationDate", "2023-03-15");
       ("incentives", "") ]]
    [ ("id", "hist_1"); ("lastName", "Doe"); ("firstName", "Jo Ann");
      ("position", ""); ("terminationDate", "2023-03-15");
      ("incentives", "") ] "firstName" "Jo Ann" _ _ _ _).
  - vm_compute. reflexivity.
  - by left.
  - rewrite !elem_of_cons. tauto.
  - discriminate.
Defined.

(** X9.  Every record of an extractor has an identity field ([name], or
    [lastName] for the historical sheet) that is not empty and that,
    lower-cased, contains none of the header-echo or caption phrases of
    the sheet. *)
Theorem extractor_identity_present (s : sheet) (rows : list (list string))
    (out : list record) (rec : record) :
  parse_sheet s rows = Ok out → rec ∈ out →
  ∃ v, dict_get (identity_field s) rec = Some v
       ∧ v ≠ ""
       ∧ ∀ p, p ∈ sheet_phrases s → ¬ occurs_in p (lower v).
Proof.
  intros Hout [i Hi]%list_elem_of_lookup.
  destruct (parse_sheet_Ok_records s rows out Hout) as (h & cols & _ & Hrecs).
  destruct (Hrecs i rec Hi) as (row & Hrow & Hrec).
  exists (sheet_identity s cols row).
  split; [by eapply sheet_record_identity|].
  assert (Hkept : row ∈ kept_rows s cols (drop (h + 1) rows))
    by (apply list_elem_of_lookup; eauto).
  apply kept_rows_elem in Hkept as (_ & Hne & Hph). unfold title in Hne, Hph.
  rewrite (proj1 (sheet_identity_normalized s cols row)) in Hne, Hph.
  split; [|done]. by rewrite lower_empty in Hne.
Qed.

Lemma extractor_identity_present_witness :
  ∃ v, dict_get (identity_field Historical)
         [ ("id", "hist_1"); ("lastName", "Doe"); ("firstName", "Jo");
           ("position", ""); ("terminationDate", ""); ("incentives", "") ]
       = Some v
       ∧ v ≠ ""
       ∧ ∀ p, p ∈ sheet_phrases Historical → ¬ occurs_in p (lower v).
Proof.
  refine (extractor_identity_present Historical
    [ ["Last Name"; "First Name"; "Termination Date"];
      ["PAST DRIVERS"]; ["Doe"; "Jo"] ]
    [[ ("id", "hist_1"); ("lastName", "Doe"); ("firstName", "Jo");
       ("position", ""); ("terminationDate", ""); ("incentives", "") ]]
    _ _ _).
  - vm_compute. reflexivity.
  - by left.
Defined.

Lemma sheet_record_date_field (s : sheet) (cols : gmap string nat) (n : nat)
    (row : list string) (rec : record) (f : string) :
  sheet_record s cols n row = Ok rec → f ∈ sheet_date_fields s →
  ∃ v w, excel_serial_to_iso v = Ok w ∧ dict_get f rec = Some w.
Proof.
  intros Hrec Hf.
  destruct s; cbn [sheet_date_fields] in Hf;
    repeat (apply elem_of_cons in Hf as [->|Hf]);
    try (by apply elem_of_nil in Hf);
    open_record Hrec; dict_lookup; eauto.
Qed.

(** X10.  A date field of a record of an extractor is never left as a day
    count: it does not match the digit pattern, and the date conversion
    gives it back unchanged. *)
Theorem extractor_dates_converted (s : sheet) (rows : list (list string))
    (out : list record) (rec : record) (f : string) :
  parse_sheet s rows = Ok out → rec ∈ out → f ∈ sheet_date_fields s →
  ∃ w, dict_get f rec = Some w
       ∧ (∀ digits, ¬ matches_serial w digits)
       ∧ excel_serial_to_iso w = Ok w.
Proof.
  intros Hout [i Hi]%list_elem_of_lookup Hf.
  destruct (parse_sheet_Ok_records s rows out Hout) as (h & cols & _ & Hrecs).
  destruct (Hrecs i rec Hi) as (row & _ & Hrec).
  destruct (sheet_record_date_field s cols i row rec f Hrec Hf)
    as (v & w & Hv & Hw).
  exists w. split; [done|]. by apply excel_serial_result in Hv as (_ & ? & ?).
Qed.

Lemma extractor_dates_converted_witness :
  ∃ w, dict_get "terminationDate"
         [ ("id", "hist_1"); ("lastName", "Doe"); ("firstName", "Jo");
           ("position", ""); ("terminationDate", "2023-03-15");
           ("incentives", "") ] = Some w
       ∧ (∀ digits, ¬ matches_serial w digits)
       ∧ excel_serial_to_iso w = Ok w.
Proof.
  refine (extractor_dates_converted Historical
    [ ["Last Name"; "First Name"; "Termination Date"]; ["Doe"; "Jo"; "45000"] ]
    [[ ("id", "hist_1"); ("lastName", "Doe"); ("firstName", "Jo");
       ("position", ""); ("terminationDate", "2023-03-15");
       ("incentives", "") ]] _ "terminationDate" _ _ _).
  - vm_compute. reflexivity.
  - by left.
  - by left.
Defined.

(** ** Errors of an extractor *)

Lemma collect_Raise_intro {A} (rs : list (result A)) (e : exn) :
  Raise e ∈ rs → ∃ e', collect rs = Raise e'.
Proof.
  intros Hin. destruct (collect rs) as [l|e'] eqn:Hc; [|by eauto].
  apply collect_Ok in Hc. subst rs.
  apply list_elem_of_fmap in Hin as (a & Ha & _). discriminate Ha.
Qed.

Lemma sheet_record_raises (s : sheet) (cols : gmap string nat) (n : nat)
    (row : list string) (t : string) (e : exn) :
  t ∈ sheet_date_titles s →
  excel_serial_to_iso (get row (cols !! t)) = Raise e →
  ∃ e', sheet_record s cols n row = Raise e'.
Proof.
  intros Ht He.
  destruct (sheet_record s cols n row) as [rec|e'] eqn:Hrec; [|by eauto].
  exfalso.
  destruct s; cbn [sheet_date_titles] in Ht;
    repeat (apply elem_of_cons in Ht as [->|Ht]);
    try (by apply elem_of_nil in Ht);
    open_record Hrec; congruence.
Qed.

Lemma find_header_row_Raise (rows : list (list string))
    (must_have : list string) (e : exn) :
  find_header_row rows must_have = Raise e
  ↔ e = RuntimeError ∧ ∀ row, row ∈ rows → ¬ has_all_keys must_have row.
Proof.
  unfold find_header_row. rewrite find_header_row_from_Raise.
  split; intros [-> H]; (split; [done|]); intros row Hrow;
    by apply row_has_keys_false, H.
Qed.

(** X11.  An extractor raises the header-not-found error exactly when no
    row of the grid contains all the keywords of its sheet, never
    returning an empty list for a sheet without header; it raises
    [OverflowError] exactly when the header is found and a date cell of a
    row that it keeps holds a day count beyond 2958465. *)
Theorem extractor_errors (s : sheet) (rows : list (list string)) :
  (parse_sheet s rows = Raise RuntimeError
   ↔ ∀ row, row ∈ rows → ¬ has_all_keys (sheet_keys s) row)
  ∧ (parse_sheet s rows = Raise OverflowError
     ↔ ∃ h cols row t digits,
         find_header_row rows (sheet_keys s) = Ok (h, cols)
         ∧ row ∈ kept_rows s cols (drop (h + 1) rows)
         ∧ t ∈ sheet_date_titles s
         ∧ matches_serial (get row (cols !! t)) digits
         ∧ 2958465 < int_of_digits digits).
Proof.
  assert (Hover : ∀ h cols e,
    find_header_row rows (sheet_keys s) = Ok (h, cols) →
    parse_sheet s rows = Raise e →
    e = OverflowError
    ∧ ∃ row t digits,
        row ∈ kept_rows s cols (drop (h + 1) rows)
        ∧ t ∈ sheet_date_titles s
        ∧ matches_serial (get row (cols !! t)) digits
        ∧ 2958465 < int_of_digits digits).
  { intros h cols e Hh He. rewrite (parse_sheet_spec s rows h cols Hh) in He.
    apply collect_Raise, list_elem_of_lookup in He as [k Hk].
    rewrite list_lookup_imap in Hk.
    destruct (kept_rows s cols (drop (h + 1) rows) !! k) as [row|] eqn:Hrow;
      [|done].
    cbn in Hk. injection Hk as Hk.
    apply sheet_record_Raise in Hk as (t & Ht & Hk).
    apply excel_serial_Raise in Hk as (-> & digits & Hm & Hbig).
    rewrite (proj2 (get_normalized row (cols !! t))) in Hm.
    split; [done|]. exists row, t, digits. split; [|done].
    apply list_elem_of_lookup. by exists k. }
  split.
  - split.
    + intros Hp.
      destruct (find_header_row rows (sheet_keys s)) as [[h cols]|e] eqn:Hh.
      * by destruct (Hover h cols RuntimeError eq_refl Hp) as [? _].
      * by apply find_header_row_Raise in Hh as [_ ?].
    + intros Hno. apply (parse_sheet_no_header s rows RuntimeError).
      by apply find_header_row_Raise.
  - split.
    + intros Hp.
      destruct (find_header_row rows (sheet_keys s)) as [[h cols]|e] eqn:Hh.
      * destruct (Hover h cols OverflowError eq_refl Hp)
          as (_ & row & t & digits & ?). by exists h, cols, row, t, digits.
      * by rewrite (parse_sheet_no_header s rows e Hh) in Hp.
    + intros (h & cols & row & t & digits & Hh & Hrow & Ht & Hm & Hbig).
      assert (Hex : excel_serial_to_iso (get row (cols !! t)) = Raise OverflowError).
      { apply excel_serial_Raise. split; [done|]. exists digits.
        by rewrite (proj2 (get_normalized row (cols !! t))). }
      apply list_elem_of_lookup in Hrow as [k Hk].
      destruct (sheet_record_raises s cols k row t _ Ht Hex) as [e' He'].
      destruct (collect_Raise_intro
                  (imap (λ k row, sheet_record s cols k row)
                        (kept_rows s cols (drop (h + 1) rows))) e')
        as [e'' He''].
      { apply list_elem_of_lookup. exists k.
        by rewrite list_lookup_imap, Hk; cbn; rewrite He'. }
      rewrite <- (parse_sheet_spec s rows h cols Hh) in He''.
      by destruct (Hover h cols e'' Hh He'') as [-> _].
Qed.

(** ** Rows before the header and rows added at the end *)

Lemma find_header_row_from_shift (i : nat) (rows : list (list string))
    (must_have : list string) :
  find_header_row_from i rows must_have =
    match find_header_row_from 0 rows must_have with
    | Ok hc => Ok ((i + hc.1)%nat, hc.2)
    | Raise e => Raise e
    end.
Proof.
  revert i. induction rows as [|row rows IH]; intros i; [done|]. cbn.
  destruct (row_has_keys must_have row); [cbn; by rewrite Nat.add_0_r|].
  rewrite (IH (S i)), (IH 1%nat).
  destruct (find_header_row_from 0 rows must_have) as [[h c]|e]; [|done].
  cbn. do 2 f_equal. lia.
Qed.

Lemma find_header_row_from_skip (i : nat) (pre rows : list (list string))
    (must_have : list string) :
  (∀ row, row ∈ pre → ¬ has_all_keys must_have row) →
  find_header_row_from i (pre ++ rows) must_have
  = find_header_row_from (i + length pre) rows must_have.
Proof.
  revert i. induction pre as [|row pre IH]; intros i Hpre.
  - cbn. by rewrite Nat.add_0_r.
  - cbn. rewrite (proj2 (row_has_keys_false must_have row))
      by (apply Hpre; by left).
    rewrite IH by (intros r Hr; apply Hpre; by right). f_equal. lia.
Qed.

Lemma find_header_row_skip (pre rows : list (list string))
    (must_have : list string) :
  (∀ row, row ∈ pre → ¬ has_all_keys must_have row) →
  find_header_row (pre ++ rows) must_have =
    match find_header_row rows must_have with
    | Ok hc => Ok ((length pre + hc.1)%nat, hc.2)
    | Raise e => Raise e
    end.
Proof.
  intros Hpre. unfold find_header_row.
  rewrite find_header_row_from_skip by done. cbn [Nat.add].
  apply find_header_row_from_shift.
Qed.

Lemma find_header_row_found_app (rows more : list (list string))
    (must_have : list string) (h : nat) (cols : gmap string nat) :
  find_header_row rows must_have = Ok (h, cols) →
  find_header_row (rows ++ more) must_have = Ok (h, cols)
  ∧ (h < length rows)%nat.
Proof.
  unfold find_header_row. revert h.
  induction rows as [|row rows IH]; intros h; [done|]. cbn.
  destruct (row_has_keys must_have row).
  - intros [= <- <-]. split; [done|]. lia.
  - intros Hh.
    rewrite find_header_row_from_shift in Hh.
    destruct (find_header_row_from 0 rows must_have) as [[h0 c0]|e] eqn:H0;
      [|done].
    cbn in Hh. injection Hh as <- <-.
    destruct (IH h0 eq_refl) as [Happ Hlt].
    rewrite find_header_row_from_shift, Happ. cbn. split; [done|]. lia.
Qed.

Lemma collect_app {A} (rs1 rs2 : list (result A)) :
  collect (rs1 ++ rs2) =
    l1 ←! collect rs1; l2 ←! collect rs2; Ok (l1 ++ l2).
Proof.
  induction rs1 as [|r rs1 IH]; cbn.
  - by destruct (collect rs2).
  - destruct r as [a|e]; [|done]. cbn. rewrite IH.
    destruct (collect rs1) as [l1|e]; [|done]. cbn.
    by destruct (collect rs2).
Qed.

Lemma collect_length {A} (rs : list (result A)) (l : list A) :
  collect rs = Ok l → length l = length rs.
Proof. intros ->%collect_Ok. by rewrite length_fmap. Qed.

(** X12.  Rows above the header row play no part: putting rows that do not
    contain all the keywords in front of a grid changes nothing in what an
    extractor returns, records, identifiers and errors alike. *)
Theorem extractor_ignores_rows_above (s : sheet)
    (pre rows : list (list string)) :
  (∀ row, row ∈ pre → ¬ has_all_keys (sheet_keys s) row) →
  parse_sheet s (pre ++ rows) = parse_sheet s rows.
Proof.
  intros Hpre. rewrite !parse_sheet_unfold, find_header_row_skip by done.
  destruct (find_header_row rows (sheet_keys s)) as [[h cols]|e]; [|done].
  cbn [bind fst snd]. f_equal.
  replace (length pre + h + 1)%nat with (length pre + (h + 1))%nat by lia.
  by rewrite drop_app_add.
Qed.

Lemma extractor_ignores_rows_above_witness :
  parse_sheet Leads
    ([["Leads report"]; []; ["Driver Name"; "printed 2024"]]
     ++ [ ["Driver Name"; "Date of Position Acceptance"; "Date Sent to Phase 2"];
          ["Al"; "45000"] ])
  = parse_sheet Leads
      [ ["Driver Name"; "Date of Position Acceptance"; "Date Sent to Phase 2"];
        ["Al"; "45000"] ].
Proof.
  refine (extractor_ignores_rows_above Leads _ _ _).
  intros row Hrow Hall. apply row_has_keys_true in Hall.
  repeat (apply elem_of_cons in Hrow as [->|Hrow]; [by vm_compute in Hall|]).
  by apply elem_of_nil in Hrow.
Defined.

(** X13.  Rows added after the last row change neither the records of the
    rows before them nor their identifiers: the records of the new rows
    that are kept come after them, numbered on. *)
Theorem extractor_append_rows (s : sheet) (rows more : list (list string))
    (h : nat) (cols : gmap string nat) :
  find_header_row rows (sheet_keys s) = Ok (h, cols) →
  parse_sheet s (rows ++ more) =
    out ←! parse_sheet s rows;
    recs ←! collect (imap (λ k row, sheet_record s cols (length out + k) row)
                          (kept_rows s cols more));
    Ok (out ++ recs).
Proof.
  intros Hh. destruct (find_header_row_found_app _ more _ _ _ Hh) as [Hh' Hlt].
  rewrite (parse_sheet_spec s _ h cols Hh'), (parse_sheet_spec s _ h cols Hh).
  rewrite drop_app_le by lia. unfold kept_rows.
  rewrite filter_app, imap_app, collect_app.
  destruct (collect (imap _ (filter _ (drop (h + 1) rows)))) as [out|e] eqn:Hc;
    [|done].
  cbn [bind]. apply collect_length in Hc. rewrite length_imap in Hc.
  rewrite Hc. done.
Qed.

Lemma extractor_append_rows_witness :
  parse_sheet Leads
    ([ ["Driver Name"; "Date of Position Acceptance"; "Date Sent to Phase 2"];
       ["Al"; "45000"] ] ++ [[""; "1"]; ["Bo"]])
  = out ←! parse_sheet Leads
             [ ["Driver Name"; "Date of Position Acceptance";
                "Date Sent to Phase 2"];
               ["Al"; "45000"] ];
    recs ←! collect
              (imap (λ k row,
                       sheet_record Leads
                         (header_cols ["Driver Name";
                                       "Date of Position Acceptance";
                                       "Date Sent to Phase 2"])
                         (length out + k) row)
                    (kept_rows Leads
                       (header_cols ["Driver Name";
                                     "Date of Position Acceptance";
                                     "Date Sent to Phase 2"])
                       [[""; "1"]; ["Bo"]]));
    Ok (out ++ recs).
Proof.
  refine (extractor_append_rows Leads _ _ 0 _ _). reflexivity.
Defined.

(** ** The header map *)

(** X14.  The header map of a located header row sends titles to positions
    of that row: every index is within the row, every cell of the row has
    its title among the keys, and every key is a lower-case normalized
    text, so that a title with a capital letter or with white space at an
    end is never found. *)
Theorem header_map_invariants (rows : list (list string))
    (must_have : list string) (h : nat) (cols : gmap string nat) :
  find_header_row rows must_have = Ok (h, cols) →
  ∃ hrow,
    rows !! h = Some hrow
    ∧ (∀ t i, cols !! t = Some i →
         (i < length hrow)%nat ∧ lower t = t ∧ normalize_text t = t)
    ∧ (∀ v, v ∈ hrow → is_Some (cols !! lower (normalize_text v)))
    ∧ (∀ t, lower t ≠ t ∨ normalize_text t ≠ t → cols !! t = None).
Proof.
  unfold find_header_row. intros Hh.
  apply find_header_row_from_Ok in Hh as (k & hrow & -> & Hk & _ & _ & ->).
  exists hrow. split; [done|].
  assert (Hkeys : ∀ t i, header_cols hrow !! t = Some i →
            (i < length hrow)%nat ∧ lower t = t ∧ normalize_text t = t).
  { intros t i (v & Hv & <- & _)%header_cols_lookup.
    split; [by eapply lookup_lt_Some|]. apply title_fixed. }
  split; [done|]. split.
  - intros v Hv. apply not_eq_None_Some. intros Hnone.
    by apply (proj1 (header_cols_lookup_None hrow _) Hnone v Hv).
  - intros t Ht. destruct (header_cols hrow !! t) as [i|] eqn:Hi; [|done].
    destruct (Hkeys t i Hi) as (_ & ? & ?). by destruct Ht.
Qed.

Lemma header_map_invariants_witness :
  ∃ hrow,
    [["Roster"]; [" Driver Name "; "HOME base"]] !! 1%nat = Some hrow
    ∧ (∀ t i, header_cols [" Driver Name "; "HOME base"] !! t = Some i →
         (i < length hrow)%nat ∧ lower t = t ∧ normalize_text t = t)
    ∧ (∀ v, v ∈ hrow →
         is_Some (header_cols [" Driver Name "; "HOME base"]
                  !! lower (normalize_text v)))
    ∧ (∀ t, lower t ≠ t ∨ normalize_text t ≠ t →
         header_cols [" Driver Name "; "HOME base"] !! t = None).
Proof.
  refine (header_map_invariants [["Roster"]; [" Driver Name "; "HOME base"]]
            ["driver name"; "home base"] 1 _ _).
  reflexivity.
Defined.

(** ** More on [dedupe_otr] *)

Lemma first_occurrences_after_app (before a b : list record) :
  first_occurrences_after before (a ++ b)
  = first_occurrences_after before a ++ first_occurrences_after (before ++ a) b.
Proof.
  revert before. induction a as [|r a IH]; intros before.
  - cbn [app]. by rewrite first_occurrences_after_nil, app_nil_r.
  - cbn [app]. rewrite !first_occurrences_after_cons, IH.
    by rewrite <- !app_assoc.
Qed.

Lemma first_occurrences_after_distinct (before records : list record) :
  NoDup (otr_key <$> records) →
  (∀ r, r ∈ records → otr_key r ∉ otr_key <$> before) →
  first_occurrences_after before records = records.
Proof.
  revert before. induction records as [|r rest IH]; intros before Hnd Hnew.
  - apply first_occurrences_after_nil.
  - rewrite first_occurrences_after_cons. cbn in Hnd.
    apply NoDup_cons in Hnd as [Hr Hnd].
    rewrite decide_False by (apply Hnew; by left). cbn. f_equal.
    apply IH; [done|]. intros r' Hr'.
    rewrite fmap_app, elem_of_app. cbn. rewrite list_elem_of_singleton.
    intros [Hb|He].
    + by apply (Hnew r'); [right|].
    + apply Hr. rewrite <- He. by apply list_elem_of_fmap_2.
Qed.

Lemma first_occurrences_after_elem (before records : list record) (r : record) :
  r ∈ first_occurrences_after before records
  ↔ ∃ i, records !! i = Some r
         ∧ otr_key r ∉ otr_key <$> (before ++ take i records).
Proof.
  unfold first_occurrences_after. rewrite list_elem_of_omap. split.
  - intros (o & Ho & Hr). cbn in Hr. subst o.
    apply list_elem_of_lookup in Ho as [i Hi].
    rewrite list_lookup_imap in Hi.
    destruct (records !! i) as [r'|] eqn:Hri; [|done]. cbn in Hi.
    destruct (decide _) as [|Hn]; [done|].
    injection Hi as ->. by exists i.
  - intros (i & Hi & Hn). exists (Some r). split; [|done].
    apply list_elem_of_lookup. exists i. rewrite list_lookup_imap, Hi. cbn.
    by rewrite decide_False.
Qed.

Lemma dict_set_idemp (key val val' : string) (d : record) :
  dict_set key val (dict_set key val' d) = dict_set key val d.
Proof.
  induction d as [|[k v] d IH]; cbn.
  - by rewrite bool_decide_eq_true_2.
  - case_bool_decide as Hk; cbn.
    + by rewrite bool_decide_eq_true_2.
    + rewrite bool_decide_eq_false_2 by done. by rewrite IH.
Qed.

Lemma first_occurrences_keys_NoDup (records : list record) :
  NoDup (otr_key <$> first_occurrences records).
Proof. by destruct (first_occurrences_after_keys records []) as [? _]. Qed.

(** X15.  Deduplicating a deduplicated list changes nothing: the records,
    their order and their identifiers stay. *)
Theorem dedupe_otr_idempotent (records : list record) :
  dedupe_otr (dedupe_otr records) = dedupe_otr records.
Proof.
  rewrite (dedupe_otr_first_occurrences (dedupe_otr records)).
  unfold first_occurrences at 1.
  rewrite first_occurrences_after_distinct.
  - rewrite dedupe_otr_first_occurrences. apply list_eq. intros i.
    rewrite !list_lookup_imap.
    destruct (first_occurrences records !! i) as [r|]; [|done].
    cbn. f_equal. apply dict_set_idemp.
  - rewrite dedupe_otr_keys. apply first_occurrences_keys_NoDup.
  - intros r _. cbn. apply not_elem_of_nil.
Qed.

(** X16.  When two lists of records are joined and deduplicated, as the
    script does with the two new-hire sheets, the result starts with the
    deduplication of the first list, identifiers included; the records of
    the second list follow, numbered on, a record being kept exactly when
    its key occurs neither in the first list nor earlier in the second. *)
Theorem dedupe_otr_concat (main ajggh : list record) :
  dedupe_otr (main ++ ajggh)
  = dedupe_otr main
    ++ imap (λ i r, dict_set "id"
                      (make_id "otr" (length (dedupe_otr main) + i + 1)) r)
            (first_occurrences_after main ajggh)
  ∧ (∀ r, r ∈ first_occurrences_after main ajggh
          ↔ ∃ i, ajggh !! i = Some r
                 ∧ otr_key r ∉ otr_key <$> (main ++ take i ajggh)).
Proof.
  split; [|apply first_occurrences_after_elem].
  rewrite !dedupe_otr_first_occurrences. unfold first_occurrences.
  rewrite first_occurrences_after_app, imap_app, length_imap. cbn [app].
  f_equal.
Qed.

(** X17.  A list whose records have pairwise different keys loses no
    record: deduplication only renumbers it. *)
Theorem dedupe_otr_distinct_keys (records : list record) :
  NoDup (otr_key <$> records) →
  dedupe_otr records
  = imap (λ i r, dict_set "id" (make_id "otr" (i + 1)) r) records
  ∧ length (dedupe_otr records) = length records.
Proof.
  intros Hnd. rewrite dedupe_otr_first_occurrences. unfold first_occurrences.
  rewrite first_occurrences_after_distinct; [by rewrite length_imap|done|].
  intros r _. cbn. apply not_elem_of_nil.
Qed.

Lemma dedupe_otr_distinct_keys_witness :
  dedupe_otr [ [("id", "a_7"); ("name", "Ann")]; [("name", "Bob")] ]
  = imap (λ i r, dict_set "id" (make_id "otr" (i + 1)) r)
         [ [("id", "a_7"); ("name", "Ann")]; [("name", "Bob")] ]
  ∧ length (dedupe_otr [ [("id", "a_7"); ("name", "Ann")]; [("name", "Bob")] ])
    = length [ [("id", "a_7"); ("name", "Ann")]; [("name", "Bob")] ].
Proof.
  refine (dedupe_otr_distinct_keys _ _).
  match goal with
  | |- ?P => apply (bool_decide_unpack P); vm_compute; exact I
  end.
Defined.

(** ** More on [col_to_num] *)

Lemma ord_letter_of_value (v : Z) :
  1 ≤ v ≤ 26 →
  ord (letter_of_value v) = 64 + v ∧ is_upper_AZ (letter_of_value v) = true.
Proof.
  intros Hv. assert (Ho : ord (letter_of_value v) = 64 + v).
  { unfold ord, letter_of_value. rewrite N_ascii_embedding by lia. lia. }
  split; [done|]. unfold is_upper_AZ. rewrite Ho.
  apply andb_true_iff. rewrite !Z.leb_le. lia.
Qed.

Lemma col_to_num_onto_nat (k : nat) (n : Z) :
  1 ≤ n → Z.to_nat n = k →
  ∃ s, all_chars is_upper_AZ s = true ∧ s ≠ "" ∧ col_to_num s = n.
Proof.
  revert n. induction (lt_wf k) as [k _ IH]. intros n Hn Hk.
  set (q := (n - 1) / 26). set (v := (n - 1) mod 26 + 1).
  assert (Hqv : n = q * 26 + v ∧ 1 ≤ v ≤ 26 ∧ 0 ≤ q < n).
  { unfold q, v. Z.div_mod_to_equations. lia. }
  destruct Hqv as (Hnq & Hv & Hq).
  destruct (ord_letter_of_value v Hv) as [Ho Hup].
  destruct (decide (q = 0)) as [Hq0|Hq0].
  - exists (String (letter_of_value v) ""). cbn. rewrite Hup.
    split; [done|]. split; [done|]. unfold col_to_num. cbn. lia.
  - destruct (IH (Z.to_nat q) ltac:(lia) q ltac:(lia) eq_refl)
      as (s & Hs & Hne & Hc).
    exists (s +:+ String (letter_of_value v) ""). split; [|split].
    + rewrite all_chars_app, Hs. cbn. by rewrite Hup.
    + by destruct s.
    + rewrite col_to_num_snoc, Hc. lia.
Qed.

(** X18.  Every positive number is the column number of one and only one
    word of capital letters, and that word is not empty: [col_to_num]
    reaches every number from 1, each of them once. *)
Theorem col_to_num_onto (n : Z) :
  1 ≤ n →
  ∃ s, all_chars is_upper_AZ s = true ∧ s ≠ "" ∧ col_to_num s = n
       ∧ ∀ s', all_chars is_upper_AZ s' = true → col_to_num s' = n → s' = s.
Proof.
  intros Hn.
  destruct (col_to_num_onto_nat (Z.to_nat n) n Hn eq_refl) as (s & Hs & Hne & Hc).
  exists s. split; [done|]. split; [done|]. split; [done|].
  intros s' Hs' Hc'. apply col_to_num_inj; [done..|]. by rewrite Hc, Hc'.
Qed.

Lemma col_to_num_onto_witness :
  ∃ s, all_chars is_upper_AZ s = true ∧ s ≠ "" ∧ col_to_num s = 703
       ∧ ∀ s', all_chars is_upper_AZ s' = true → col_to_num s' = 703 → s' = s.
Proof. refine (col_to_num_onto 703 _). lia. Defined.

Lemma col_to_num_length_bounds (s : string) :
  all_chars is_upper_AZ s = true →
  26 ^ Z.of_nat (String.length s) ≤ 25 * col_to_num s + 1
  ∧ 25 * col_to_num s + 1 ≤ 26 ^ (Z.of_nat (String.length s) + 1) - 25.
Proof.
  remember (String.length s) as k eqn:Hk. revert s Hk.
  induction k as [|k IH]; intros s Hk Hs.
  - destruct s; [|done]. change (col_to_num "") with 0. cbn. lia.
  - destruct (snoc_cases s) as [->|(s' & ch & ->)]; [done|].
    rewrite all_chars_app in Hs. apply andb_true_iff in Hs as [Hs' Hch].
    cbn in Hch. rewrite andb_true_r in Hch. apply upper_AZ_value in Hch.
    rewrite app_length_str in Hk. cbn in Hk.
    destruct (IH s' ltac:(lia) Hs') as [Hlo Hhi].
    rewrite col_to_num_snoc.
    replace (Z.of_nat (S k)) with (Z.of_nat k + 1) by lia.
    rewrite !Z.pow_add_r, !Z.pow_1_r in * by lia. lia.
Qed.

(** X19.  Among words of capital letters a shorter word has the smaller
    column number: the one-letter columns come before the two-letter
    columns, and so on; a word of [k] letters has a column number between
    [(26^k - 1) / 25] and [26 (26^k - 1) / 25]. *)
Theorem col_to_num_shorter_first (s1 s2 : string) :
  all_chars is_upper_AZ s1 = true → all_chars is_upper_AZ s2 = true →
  (String.length s1 < String.length s2)%nat →
  col_to_num s1 < col_to_num s2
  ∧ 26 ^ Z.of_nat (String.length s1) - 1 ≤ 25 * col_to_num s1
  ∧ 25 * col_to_num s1 ≤ 26 * (26 ^ Z.of_nat (String.length s1) - 1).
Proof.
  intros H1 H2 Hlen.
  destruct (col_to_num_length_bounds s1 H1) as [Hlo1 Hhi1].
  destruct (col_to_num_length_bounds s2 H2) as [Hlo2 _].
  rewrite Z.pow_add_r, Z.pow_1_r in Hhi1 by lia.
  split; [|lia].
  assert (26 ^ (Z.of_nat (String.length s1) + 1)
          ≤ 26 ^ Z.of_nat (String.length s2))
    by (apply Z.pow_le_mono_r; lia).
  rewrite Z.pow_add_r, Z.pow_1_r in * by lia. lia.
Qed.

Lemma col_to_num_shorter_first_witness :
  col_to_num "ZZ" < col_to_num "AAA"
  ∧ 26 ^ Z.of_nat (String.length "ZZ") - 1 ≤ 25 * col_to_num "ZZ"
  ∧ 25 * col_to_num "ZZ" ≤ 26 * (26 ^ Z.of_nat (String.length "ZZ") - 1).
Proof.
  refine (col_to_num_shorter_first "ZZ" "AAA" _ _ _); [reflexivity..|].
  cbn. lia.
Defined.

(** ** Cell references and the cells of a row *)

(** X20.  A cell reference is accepted exactly when it starts with one or
    more capital letters followed by a digit; the letters, all of them,
    name the column.  What follows the first digit is not looked at, and a
    reference that starts with a small letter or a digit, or has no digit
    after its letters, is refused. *)
Theorem match_cell_ref_spec (r letters : string) :
  match_cell_ref r = Some letters
  ↔ letters ≠ "" ∧ all_chars is_upper_AZ letters = true
    ∧ ∃ d rest, r = letters +:+ String d rest ∧ is_digit d = true.
Proof.
  unfold match_cell_ref. split.
  - destruct (span_spec is_upper_AZ r) as (Hr & Hl & _).
    destruct (span is_upper_AZ r) as [ls rest]. cbn in Hr, Hl.
    unfold truthy. case_bool_decide as Hne; [done|]. cbn.
    destruct rest as [|d rest]; [done|].
    destruct (is_digit d) eqn:Hd; [|done]. intros [= <-]. eauto 6.
  - intros (Hne & Hl & d & rest & -> & Hd).
    rewrite span_stop; [|done|].
    + unfold truthy. by rewrite bool_decide_eq_false_2, Hd.
    + right. exists d, rest. split; [done|].
      unfold is_digit, is_upper_AZ in *.
      apply andb_true_iff in Hd as [?%Z.leb_le ?%Z.leb_le].
      apply andb_false_iff. left. apply Z.leb_gt. lia.
Qed.

Lemma add_cells_other (shared : list string) (rr : list cell_elem)
    (vals : gmap Z string) (col : Z) :
  (∀ c, c ∈ rr → cell_column c ≠ Some col) →
  foldl (add_cell shared) vals rr !! col = vals !! col.
Proof.
  revert vals. induction rr as [|c rr IH]; intros vals Hrr; [done|].
  cbn [foldl]. rewrite IH by (intros c' Hc'; apply Hrr; by right).
  rewrite add_cell_column.
  destruct (cell_column c) as [col'|] eqn:Hc; [|done].
  apply lookup_insert_ne. intros ->. by apply (Hrr c); [left|].
Qed.

Lemma row_vals_last (shared : list string) (rr1 rr2 : list cell_elem)
    (c : cell_elem) (col : Z) :
  cell_column c = Some col →
  (∀ c', c' ∈ rr2 → cell_column c' ≠ Some col) →
  row_vals shared (rr1 ++ c :: rr2) !! col = Some (cell_text shared c).
Proof.
  intros Hc Hrr2. unfold row_vals. rewrite foldl_app. cbn [foldl].
  rewrite add_cells_other by done. rewrite add_cell_column, Hc.
  apply lookup_insert_eq.
Qed.

Lemma dense_row_lookup (vals : gmap Z string) (row : list string)
    (col : Z) (val : string) :
  dense_row vals = Some row → (∀ k, is_Some (vals !! k) → 1 ≤ k) →
  vals !! col = Some val →
  row !! Z.to_nat (col - 1) = Some val.
Proof.
  unfold dense_row. case_bool_decide as He; [done|]. intros [= <-] Hpos Hcol.
  destruct (max_key_spec vals He) as [_ Hle].
  assert (1 ≤ col ≤ max_key vals) by (split; [apply Hpos|apply Hle]; eauto).
  rewrite list_lookup_fmap, lookup_seqZ_lt by lia. cbn.
  replace (1 + Z.of_nat (Z.to_nat (col - 1))) with col by lia.
  by rewrite Hcol.
Qed.

Lemma row_vals_keys_pos (shared : list string) (rr : list cell_elem) (k : Z) :
  is_Some (row_vals shared rr !! k) → 1 ≤ k.
Proof.
  intros Hk%row_vals_is_Some. apply list_elem_of_omap in Hk as (c & _ & Hc).
  by eapply cell_column_pos.
Qed.

(** X21.  When several cells of a [row] element name the same column, the
    last one in document order gives the text of that column. *)
Theorem dense_row_last_cell (shared : list string)
    (rr1 rr2 : list cell_elem) (c : cell_elem) (col : Z) (row : list string) :
  dense_row (row_vals shared (rr1 ++ c :: rr2)) = Some row →
  cell_column c = Some col →
  (∀ c', c' ∈ rr2 → cell_column c' ≠ Some col) →
  row !! Z.to_nat (col - 1) = Some (cell_text shared c).
Proof.
  intros Hrow Hc Hrr2. eapply dense_row_lookup; [done| |].
  - intros k. apply row_vals_keys_pos.
  - by apply row_vals_last.
Qed.

Lemma dense_row_last_cell_witness :
  ["late"; "b"] !! Z.to_nat (1 - 1) = Some "late".
Proof.
  refine (dense_row_last_cell []
    [ {| attr_r := Some "A1"; attr_t := None; inline_t := None;
         value_v := Some (Some "early") |} ]
    [ {| attr_r := Some "B1"; attr_t := None; inline_t := None;
         value_v := Some (Some "b") |} ]
    {| attr_r := Some "A1"; attr_t := None; inline_t := Some (Some "late");
       value_v := None |} 1 ["late"; "b"] _ _ _).
  - vm_compute. reflexivity.
  - reflexivity.
  - intros c' ->%list_elem_of_singleton. vm_compute. discriminate.
Defined.

Lemma row_vals_unique (shared : list string) (rr : list cell_elem)
    (c : cell_elem) (col : Z) :
  NoDup (row_columns rr) → c ∈ rr → cell_column c = Some col →
  row_vals shared rr !! col = Some (cell_text shared c).
Proof.
  intros Hnd Hin Hc. apply list_elem_of_split in Hin as (rr1 & rr2 & ->).
  apply row_vals_last; [done|]. intros c' Hc' Hcol.
  unfold row_columns in Hnd. rewrite omap_app in Hnd. cbn in Hnd.
  rewrite Hc in Hnd. apply NoDup_app in Hnd as (_ & _ & Hnd).
  apply NoDup_cons in Hnd as [Hnot _]. apply Hnot.
  apply list_elem_of_omap. by exists c'.
Qed.

(** X22.  When the cells of a [row] element name pairwise different
    columns, their order in the document does not matter: any
    rearrangement of the cells gives the same row. *)
Theorem dense_row_cell_order (shared : list string) (rr rr' : list cell_elem) :
  NoDup (row_columns rr) → rr ≡ₚ rr' →
  dense_row (row_vals shared rr) = dense_row (row_vals shared rr').
Proof.
  intros Hnd Hperm. f_equal. apply map_eq. intros col.
  assert (Hnd' : NoDup (row_columns rr'))
    by (unfold row_columns in *; by rewrite <- Hperm).
  destruct (row_vals shared rr !! col) as [v|] eqn:Hv.
  - apply row_vals_Some in Hv as (c & Hin & Hc & <-).
    symmetry. apply row_vals_unique; [done| |done]. by rewrite <- Hperm.
  - destruct (row_vals shared rr' !! col) as [v'|] eqn:Hv'; [|done].
    apply row_vals_Some in Hv' as (c & Hin & Hc & <-).
    rewrite <- Hperm in Hin.
    by rewrite (row_vals_unique shared rr c col Hnd Hin Hc) in Hv.
Qed.

Lemma dense_row_cell_order_witness :
  dense_row (row_vals []
    [ {| attr_r := Some "B1"; attr_t := None; inline_t := None;
         value_v := Some (Some "b") |};
      {| attr_r := Some "A1"; attr_t := None; inline_t := None;
         value_v := Some (Some "a") |} ])
  = dense_row (row_vals []
    [ {| attr_r := Some "A1"; attr_t := None; inline_t := None;
         value_v := Some (Some "a") |};
      {| attr_r := Some "B1"; attr_t := None; inline_t := None;
         value_v := Some (Some "b") |} ]).
Proof.
  refine (dense_row_cell_order [] _ _ _ _).
  - match goal with
    | |- ?P => apply (bool_decide_unpack P); vm_compute; exact I
    end.
  - apply Permutation_swap.
Defined.

(** ** The sheets of a workbook *)

Lemma rel_map_Done (rels : list rel_elem) (m m' : gmap string string) :
  rel_map rels m = Done m'
  ↔ (∀ r, r ∈ rels → is_Some (rel_id r) ∧ is_Some (rel_target r))
    ∧ m' = rel_table_from m rels.
Proof.
  unfold rel_table_from.
  revert m. induction rels as [|r rels IH]; intros m; cbn [rel_map foldl].
  - split.
    + intros [= <-]. split; [|done]. by intros r ?%elem_of_nil.
    + by intros [_ ->].
  - destruct (rel_id r) as [id|] eqn:Hid.
    + destruct (rel_target r) as [t|] eqn:Ht.
      * rewrite IH.
        split; intros [Hall ->]; (split; [|done]).
        -- intros r' [->|Hr']%elem_of_cons; [|by apply Hall].
           rewrite Hid, Ht. eauto.
        -- intros r' Hr'. apply Hall. by right.
      * split; [done|]. intros [Hall _].
        destruct (Hall r (list_elem_of_here _ _)) as [_ [? Hsome]].
        congruence.
    + split; [done|]. intros [Hall _].
      destruct (Hall r (list_elem_of_here _ _)) as [[? Hsome] _].
      congruence.
Qed.

Lemma load_sheets_Done (members : gmap string (list (list cell_elem)))
    (shared : list string) (relmap : gmap string string)
    (elems : list sheet_elem) (sheets0 sheets : gmap string (list (list string))) :
  load_sheets members shared relmap elems sheets0 = Done sheets →
  (∀ name rows, sheets !! name = Some rows →
     sheets0 !! name = Some rows
     ∨ ∃ s data, s ∈ elems ∧ sheet_name s = Some name
                 ∧ is_worksheet relmap s
                 ∧ members !! ("xl/" +:+ sheet_target relmap s) = Some data
                 ∧ rows = worksheet_rows shared data)
  ∧ (∀ name, is_Some (sheets0 !! name) → is_Some (sheets !! name))
  ∧ (∀ s, s ∈ elems →
       ∃ name, sheet_name s = Some name
               ∧ (is_worksheet relmap s →
                  is_Some (members !! ("xl/" +:+ sheet_target relmap s))
                  ∧ is_Some (sheets !! name))).
Proof.
  revert sheets0. induction elems as [|s elems IH]; intros sheets0;
    cbn [load_sheets].
  - intros [= <-]. split; [by auto|]. split; [done|].
    by intros s ?%elem_of_nil.
  - destruct (sheet_name s) as [name|] eqn:Hname; [|done].
    unfold is_worksheet in *. cbv zeta.
    destruct (is_prefix "worksheets/" (sheet_target relmap s)) eqn:Hw;
      cbn [negb].
    + destruct (members !! ("xl/" +:+ sheet_target relmap s)) as [data|] eqn:Hd;
        [|done].
      intros (Hfrom & Hkeep & Hall)%IH. split; [|split].
      * intros n rows Hn. destruct (Hfrom n rows Hn) as [H0|(s' & d & ? & ?)].
        -- apply lookup_insert_Some in H0 as [[<- <-]|[_ H0]]; [|by left].
           right. exists s, data. split; [by left|]. by rewrite Hw.
        -- right. exists s', d. split; [by right|done].
      * intros n Hn. apply Hkeep. rewrite lookup_insert_is_Some.
        destruct (decide (name = n)); auto.
      * intros s' [->|Hs']%elem_of_cons; [|by apply Hall].
        exists name. split; [done|]. intros _. split; [by rewrite Hd|].
        apply Hkeep. rewrite lookup_insert_eq. eauto.
    + intros (Hfrom & Hkeep & Hall)%IH. split; [|split].
      * intros n rows Hn. destruct (Hfrom n rows Hn) as [H0|(s' & d & ? & ?)];
          [by left|].
        right. exists s', d. split; [by right|done].
      * done.
      * intros s' [->|Hs']%elem_of_cons; [|by apply Hall].
        exists name. split; [done|]. by rewrite Hw.
Qed.

Lemma load_sheets_succeeds (members : gmap string (list (list cell_elem)))
    (shared : list string) (relmap : gmap string string)
    (elems : list sheet_elem) (sheets0 : gmap string (list (list string))) :
  (∀ s, s ∈ elems →
     is_Some (sheet_name s)
     ∧ (is_worksheet relmap s →
        is_Some (members !! ("xl/" +:+ sheet_target relmap s)))) →
  ∃ sheets, load_sheets members shared relmap elems sheets0 = Done sheets.
Proof.
  revert sheets0. induction elems as [|s elems IH]; intros sheets0 Hall;
    cbn [load_sheets].
  - eauto.
  - destruct (Hall s (list_elem_of_here _ _)) as [[name ->] Hmem].
    unfold is_worksheet in Hmem. cbv zeta.
    destruct (is_prefix "worksheets/" (sheet_target relmap s)); cbn [negb].
    + destruct (Hmem eq_refl) as [data ->].
      apply IH. intros s' Hs'. apply Hall. by right.
    + apply IH. intros s' Hs'. apply Hall. by right.
Qed.

Lemma load_workbook_rows_Done (a : archive)
    (sheets : gmap string (list (list string))) :
  load_workbook_rows a = Done sheets →
  (∀ name rows, sheets !! name = Some rows →
     ∃ s data,
       s ∈ workbook_sheets a ∧ sheet_name s = Some name
       ∧ is_worksheet (rel_table (workbook_rels a)) s
       ∧ worksheet_member a
           !! ("xl/" +:+ sheet_target (rel_table (workbook_rels a)) s)
         = Some data
       ∧ rows = worksheet_rows (shared_strings (shared_si a)) data)
  ∧ (∀ s, s ∈ workbook_sheets a →
       is_worksheet (rel_table (workbook_rels a)) s →
       ∃ name, sheet_name s = Some name ∧ is_Some (sheets !! name)).
Proof.
  unfold load_workbook_rows. cbv zeta.
  destruct (rel_map (workbook_rels a) ∅) as [relmap|e] eqn:Hrel; [|done].
  apply rel_map_Done in Hrel as [_ ->]. cbn [and_then].
  fold (rel_table (workbook_rels a)).
  intros (Hfrom & _ & Hall)%load_sheets_Done. split.
  - intros name rows Hn. destruct (Hfrom name rows Hn) as [H0|H]; [|done].
    by rewrite lookup_empty in H0.
  - intros s Hs Hw. destruct (Hall s Hs) as (name & Hname & Hsome).
    exists name. split; [done|]. by apply Hsome.
Qed.

(** X23.  When the workbook loads, every grid of the result is the grid of
    a sheet element whose relationship target lies under [worksheets/],
    built from the member of that name with the shared strings of the
    archive; a sheet element with another target, or without a known
    relationship, contributes nothing, and every worksheet element has its
    name among the keys. *)
Theorem load_workbook_rows_sheets (a : archive)
    (sheets : gmap string (list (list string))) :
  load_workbook_rows a = Done sheets →
  (∀ name rows, sheets !! name = Some rows →
     ∃ s data,
       s ∈ workbook_sheets a ∧ sheet_name s = Some name
       ∧ is_prefix "worksheets/"
           (sheet_target (rel_table (workbook_rels a)) s) = true
       ∧ worksheet_member a
           !! ("xl/" +:+ sheet_target (rel_table (workbook_rels a)) s)
         = Some data
       ∧ rows = worksheet_rows (shared_strings (shared_si a)) data)
  ∧ (∀ s, s ∈ workbook_sheets a →
       is_prefix "worksheets/"
         (sheet_target (rel_table (workbook_rels a)) s) = true →
       ∃ name, sheet_name s = Some name ∧ is_Some (sheets !! name)).
Proof. apply load_workbook_rows_Done. Qed.

Lemma load_workbook_rows_sheets_witness :
  ∃ s data,
    s ∈ workbook_sheets example_archive
    ∧ sheet_name s = Some "LEADS"
    ∧ is_prefix "worksheets/"
        (sheet_target (rel_table (workbook_rels example_archive)) s) = true
    ∧ worksheet_member example_archive
        !! ("xl/" +:+ sheet_target
                        (rel_table (workbook_rels example_archive)) s)
      = Some data
    ∧ [["Driver Name"; "Date of Position Acceptance"; "Date Sent to Phase 2"];
       ["Bo"; ""; "45000"]]
      = worksheet_rows (shared_strings (shared_si example_archive)) data.
Proof.
  refine (proj1 (load_workbook_rows_sheets example_archive example_sheets _)
            "LEADS" _ _).
  - exact (eq_refl (Done example_sheets)
           <: load_workbook_rows example_archive = Done example_sheets).
  - vm_compute. reflexivity.
Defined.

(** X24.  For an archive that has its workbook member with a [sheets]
    element and its relationship member, and whose members are well-formed
    XML: the workbook loads exactly when every relationship element has
    its [Id] and [Target], every sheet element has its [name], and every
    sheet element whose target lies under [worksheets/] names a member of
    the archive; a sheet with another target never makes it fail. *)
Theorem load_workbook_rows_succeeds (a : archive) :
  (∃ sheets, load_workbook_rows a = Done sheets)
  ↔ (∀ r, r ∈ workbook_rels a → is_Some (rel_id r) ∧ is_Some (rel_target r))
    ∧ (∀ s, s ∈ workbook_sheets a →
         is_Some (sheet_name s)
         ∧ (is_prefix "worksheets/"
              (sheet_target (rel_table (workbook_rels a)) s) = true →
            is_Some (worksheet_member a
                     !! ("xl/" +:+ sheet_target
                                     (rel_table (workbook_rels a)) s)))).
Proof.
  unfold load_workbook_rows. cbv zeta. split.
  - intros [sheets Hl].
    destruct (rel_map (workbook_rels a) ∅) as [relmap|e] eqn:Hrel; [|done].
    apply rel_map_Done in Hrel as [Hrels ->]. cbn [and_then] in Hl.
    fold (rel_table (workbook_rels a)) in Hl.
    apply load_sheets_Done in Hl as (_ & _ & Hall). split; [done|].
    intros s Hs. destruct (Hall s Hs) as (name & Hname & Hsome).
    split; [by rewrite Hname|]. intros Hw. by apply Hsome.
  - intros [Hrels Hsheets].
    rewrite (proj2 (rel_map_Done (workbook_rels a) ∅
                      (rel_table (workbook_rels a))))
      by done.
    cbn [and_then]. by apply load_sheets_succeeds.
Qed.

(** ** The database of [main] *)

Lemma parse_sheet_id (s : sheet) (rows : list (list string))
    (out : list record) (k : nat) (rec : record) :
  parse_sheet s rows = Ok out →
  out !! k = Some rec →
  dict_get "id" rec = Some (make_id (sheet_prefix s) (k + 1)).
Proof.
  intros Hout Hk.
  destruct (parse_sheet_Ok_records s rows out Hout) as (h & cols & _ & Hrecs).
  destruct (Hrecs k rec Hk) as (row & _ & Hrec).
  by eapply sheet_record_id.
Qed.

Lemma dedupe_otr_id (records : list record) (k : nat) (rec : record) :
  dedupe_otr records !! k = Some rec →
  dict_get "id" rec = Some (make_id "otr" (k + 1)).
Proof.
  unfold dedupe_otr. rewrite list_lookup_imap.
  destruct (dedupe_loop ∅ [] records !! k) as [r|]; [|done].
  intros [= <-]. apply dict_get_set_eq.
Qed.

Lemma sheet_result_Done (sheets : gmap string (list (list string)))
    (name : string) (s : sheet) (out : list record) :
  sheet_result sheets (name, s) = Done out
  ↔ ∃ rows, sheets !! name = Some rows ∧ parse_sheet s rows = Ok out.
Proof.
  unfold sheet_result, sheet_item. cbn [fst snd].
  destruct (sheets !! name) as [rows|]; cbn [and_then].
  - destruct (parse_sheet s rows) as [o|e] eqn:Hp; cbn [run].
    + split.
      * intros [= <-]. eauto.
      * intros (? & [= <-] & Hq). congruence.
    + split; [done|]. intros (? & [= <-] & Hq). congruence.
  - split; [done|]. by intros (? & ? & _).
Qed.

Lemma sheet_result_Failed (sheets : gmap string (list (list string)))
    (name : string) (s : sheet) (e : run_exn) :
  sheet_result sheets (name, s) = Failed e
  ↔ (sheets !! name = None ∧ e = KeyError name)
    ∨ ∃ rows ex, sheets !! name = Some rows
                 ∧ parse_sheet s rows = Raise ex ∧ e = Extractor ex.
Proof.
  unfold sheet_result, sheet_item. cbn [fst snd].
  destruct (sheets !! name) as [rows|]; cbn [and_then].
  - destruct (parse_sheet s rows) as [o|ex] eqn:Hp; cbn [run].
    + split; [done|]. intros [[? _]|(? & ? & [= <-] & Hq & _)]; [done|].
      congruence.
    + split.
      * intros [= <-]. right. eauto.
      * intros [[? _]|(? & ? & [= <-] & Hq & ->)]; [done|]. congruence.
  - split.
    + intros [= <-]. by left.
    + intros [[_ ->]|(? & ? & ? & _)]; done.
Qed.

#[local] Instance Done_inj {A} : Inj (=) (=) (@Done A).
Proof. by intros a b [= ->]. Qed.

Lemma all_done_Done {A} (rs : list (outcome A)) (outs : list A) :
  all_done rs = Done outs ↔ rs = Done <$> outs.
Proof.
  revert outs. induction rs as [|r rs IH]; intros outs; cbn [all_done].
  - split.
    + by intros [= <-].
    + by destruct outs.
  - destruct r as [a|e]; cbn [and_then].
    + destruct (all_done rs) as [others|e] eqn:Hrs; cbn [and_then].
      * rewrite (proj1 (IH others) eq_refl). split.
        -- by intros [= <-].
        -- destruct outs as [|b outs]; [done|]. cbn.
           intros [= <- Heq]. apply (inj (fmap Done)) in Heq. by subst.
      * split; [done|]. destruct outs as [|b outs]; [done|]. cbn.
        intros [= <- Heq]. by apply IH in Heq.
    + split; [done|]. by destruct outs.
Qed.

Lemma all_done_Failed {A} (rs : list (outcome A)) (e : run_exn) :
  all_done rs = Failed e
  ↔ ∃ i : nat, rs !! i = Some (Failed e)
               ∧ ∀ (j : nat) r, (j < i)%nat → rs !! j = Some r →
                   ∃ a, r = Done a.
Proof.
  induction rs as [|r rs IH]; cbn [all_done].
  - split; [done|]. by intros (i & ? & _).
  - destruct r as [a|e']; cbn [and_then].
    + destruct (all_done rs) as [others|e''] eqn:Hrs; cbn [and_then].
      * split; [done|]. intros ([|i] & Hi & Hbefore); [done|].
        assert (Hf : Done others = Failed e); [|done].
        apply IH. exists i. split; [done|]. intros j r Hj Hr.
        apply (Hbefore (S j)); [lia|done].
      * split.
        -- intros [= ->]. destruct (proj1 IH eq_refl) as (i & Hi & Hbefore).
           exists (S i). split; [done|]. intros [|j] r Hj Hr.
           ++ injection Hr as <-. eauto.
           ++ apply (Hbefore j); [lia|done].
        -- intros ([|i] & Hi & Hbefore); [done|].
           apply IH. exists i. split; [done|]. intros j r Hj Hr.
           apply (Hbefore (S j)); [lia|done].
    + split.
      * intros [= ->]. exists 0%nat. split; [done|]. intros; lia.
      * intros ([|i] & Hi & Hbefore).
        -- by injection Hi as ->.
        -- destruct (Hbefore 0%nat (Failed e')) as [? ?]; [lia|done|done].
Qed.

(** [main] runs the plan in order and builds the database from the seven
    outputs. *)
Lemma build_db_plan (sheets : gmap string (list (list string))) :
  build_db sheets
  = outs ←? all_done (sheet_result sheets <$> sheet_plan); Done (db_of outs).
Proof.
  unfold build_db, sheet_plan, sheet_result, sheet_item.
  cbn [fmap list_fmap all_done fst snd parse_sheet].
  repeat match goal with
         | |- context [sheets !! ?n] =>
             destruct (sheets !! n); cbn [and_then]; [|reflexivity]
         | |- context [run ?r] =>
             destruct r; cbn [run and_then]; [|reflexivity]
         end.
  reflexivity.
Qed.

Lemma build_db_Done (sheets : gmap string (list (list string)))
    (db : list (string * list record)) :
  build_db sheets = Done db
  ↔ ∃ outs, sheet_result sheets <$> sheet_plan = Done <$> outs
            ∧ db = db_of outs.
Proof.
  rewrite build_db_plan.
  destruct (all_done (sheet_result sheets <$> sheet_plan)) as [outs|e] eqn:Hall;
    cbn [and_then].
  - apply all_done_Done in Hall. split.
    + intros [= <-]. eauto.
    + intros (outs' & Houts & ->). rewrite Hall in Houts.
      apply (inj (fmap Done)) in Houts. by subst.
  - split; [done|]. intros (outs & Houts & _).
    apply all_done_Done in Houts. congruence.
Qed.

Lemma build_db_Failed (sheets : gmap string (list (list string)))
    (e : run_exn) :
  build_db sheets = Failed e
  ↔ all_done (sheet_result sheets <$> sheet_plan) = Failed e.
Proof.
  rewrite build_db_plan.
  destruct (all_done (sheet_result sheets <$> sheet_plan)); cbn [and_then];
    [split; intros; discriminate|split; intros [= ->]; reflexivity].
Qed.

Lemma build_db_outputs (sheets : gmap string (list (list string)))
    (db : list (string * list record)) :
  build_db sheets = Done db →
  ∃ drivers leads otr_main otr_ajggh ag4_hires ag4_sep historical,
    db = db_of [drivers; leads; otr_main; otr_ajggh; ag4_hires; ag4_sep;
                historical]
    ∧ Forall2 (λ p out, ∃ rows, sheets !! p.1 = Some rows
                                ∧ parse_sheet p.2 rows = Ok out)
        sheet_plan
        [drivers; leads; otr_main; otr_ajggh; ag4_hires; ag4_sep; historical].
Proof.
  intros (outs & Houts & ->)%build_db_Done.
  assert (Hlen : length outs = 7%nat).
  { apply (f_equal length) in Houts. by rewrite !length_fmap in Houts. }
  do 7 (destruct outs as [|? outs]; [done|]). destruct outs; [|done].
  do 7 eexists. split; [done|].
  cbn in Houts. unfold sheet_plan.
  repeat match goal with
         | |- Forall2 _ (_ :: _) (_ :: _) => constructor
         | |- Forall2 _ [] [] => constructor
         end;
    cbn [fst snd]; apply sheet_result_Done; congruence.
Qed.

(** X25.  The database has the six categories in the order of the script,
    and in each of them the record at position [k] (from 0) has the
    identifier [<prefix>_<k+1>] with the prefix of the category: the merged
    OTR records carry [otr], never the prefix of the sheet they came
    from. *)
Theorem build_db_identifiers (sheets : gmap string (list (list string)))
    (db : list (string * list record)) :
  build_db sheets = Done db →
  db.*1 = db_prefixes.*1
  ∧ ∀ cat recs k rec,
      (cat, recs) ∈ db → recs !! k = Some rec →
      ∃ prefix, (cat, prefix) ∈ db_prefixes
                ∧ dict_get "id" rec
                  = Some (prefix +:+ "_" +:+ str_of_nat (k + 1)).
Proof.
  intros (d & l & om & oa & ah & asp & hi & -> & Hall)%build_db_outputs.
  split; [done|]. intros cat recs k rec Hin Hk.
  unfold sheet_plan in Hall.
  repeat match goal with
         | H : Forall2 _ (_ :: _) (_ :: _) |- _ =>
             apply Forall2_cons in H as [(? & _ & ?) H]
         end.
  cbn [snd] in *. unfold db_of, db_prefixes in *.
  repeat (apply elem_of_cons in Hin as [[= -> ->]|Hin];
          [eexists; split;
           [repeat first [apply list_elem_of_here | apply list_elem_of_further]
           |match goal with
            | Hp : parse_sheet ?s ?x = Ok ?o, Ho : ?o !! k = Some rec |- _ =>
                exact (parse_sheet_id s x o k rec Hp Ho)
            | Ho : dedupe_otr ?rs !! k = Some rec |- _ =>
                exact (dedupe_otr_id rs k rec Ho)
            end]|]).
  by apply elem_of_nil in Hin.
Qed.

Lemma build_db_identifiers_witness :
  ∃ prefix,
    ("otrHires", prefix) ∈ db_prefixes
    ∧ dict_get "id"
        [ ("id", "otr_3"); ("passed", ""); ("name", "Ed"); ("age", "");
          ("position", ""); ("yoe", ""); ("phone", ""); ("location", "");
          ("ajgCH", ""); ("ghCH", ""); ("i9", ""); ("nhpw", "");
          ("ajgDT", ""); ("ghDT", ""); ("onboarding", ""); ("insurance", "");
          ("gtg", ""); ("dispatched", ""); ("notes", ""); ("rtgDate", "") ]
      = Some (prefix +:+ "_" +:+ str_of_nat (2 + 1)).
Proof.
  refine (proj2 (build_db_identifiers example_sheets example_db _)
            "otrHires" (default [] (snd <$> example_db !! 2%nat)) 2%nat _ _ _).
  - exact (eq_refl (Done example_db)
           <: build_db example_sheets = Done example_db).
  - by apply (list_elem_of_lookup_2 example_db 2%nat).
  - reflexivity.
Defined.

(** X26.  [main] gets its database exactly when every sheet of the plan is
    in the workbook and the extractor of each returns its list. *)
Theorem build_db_succeeds (sheets : gmap string (list (list string))) :
  (∃ db, build_db sheets = Done db)
  ↔ ∀ name s, (name, s) ∈ sheet_plan →
      ∃ rows out, sheets !! name = Some rows ∧ parse_sheet s rows = Ok out.
Proof.
  split.
  - intros [db (outs & Houts & _)%build_db_Done] name s Hin.
    apply list_elem_of_lookup in Hin as [i Hi].
    assert (Hr : (sheet_result sheets <$> sheet_plan) !! i
                 = Some (sheet_result sheets (name, s))).
    { by rewrite list_lookup_fmap, Hi. }
    rewrite Houts, list_lookup_fmap in Hr.
    destruct (outs !! i) as [out|]; [|done]. injection Hr as Hr.
    symmetry in Hr. apply sheet_result_Done in Hr as (rows & ? & ?). eauto.
  - intros Hall. destruct (build_db sheets) as [db|e] eqn:Hdb; [eauto|].
    apply build_db_Failed, all_done_Failed in Hdb as (i & Hi & _).
    rewrite list_lookup_fmap in Hi.
    destruct (sheet_plan !! i) as [[name s]|] eqn:Hp; [|done].
    injection Hi as Hi.
    destruct (Hall name s) as (rows & out & Hrows & Hout).
    { apply list_elem_of_lookup. eauto. }
    assert (Hd : sheet_result sheets (name, s) = Done out).
    { apply sheet_result_Done. eauto. }
    congruence.
Qed.

(** X27.  When [main] fails, the exception is that of the first sheet, in
    the order of the plan, that the workbook does not have or whose
    extractor raises: a [KeyError] with the name of the sheet in the first
    case, the exception of the extractor in the second; the sheets before
    it were all read. *)
Theorem build_db_first_failure (sheets : gmap string (list (list string)))
    (e : run_exn) :
  build_db sheets = Failed e
  ↔ ∃ (i : nat) name s,
      sheet_plan !! i = Some (name, s)
      ∧ (∀ (j : nat) name' s',
           (j < i)%nat → sheet_plan !! j = Some (name', s') →
           ∃ rows out, sheets !! name' = Some rows
                       ∧ parse_sheet s' rows = Ok out)
      ∧ ((sheets !! name = None ∧ e = KeyError name)
         ∨ ∃ rows ex, sheets !! name = Some rows
                      ∧ parse_sheet s rows = Raise ex ∧ e = Extractor ex).
Proof.
  rewrite build_db_Failed, all_done_Failed. split.
  - intros (i & Hi & Hbefore). rewrite list_lookup_fmap in Hi.
    destruct (sheet_plan !! i) as [[name s]|] eqn:Hp; [|done].
    injection Hi as Hi. exists i, name, s. split; [done|]. split.
    + intros j name' s' Hj Hp'.
      destruct (Hbefore j (sheet_result sheets (name', s')) Hj) as [out Hout].
      { by rewrite list_lookup_fmap, Hp'. }
      apply sheet_result_Done in Hout as (rows & ? & ?). eauto.
    + by apply sheet_result_Failed.
  - intros (i & name & s & Hp & Hbefore & Hfail). exists i. split.
    + rewrite list_lookup_fmap, Hp. cbn. f_equal.
      by apply sheet_result_Failed.
    + intros j r Hj Hr. rewrite list_lookup_fmap in Hr.
      destruct (sheet_plan !! j) as [[name' s']|] eqn:Hp'; [|done].
      injection Hr as <-.
      destruct (Hbefore j name' s' Hj Hp') as (rows & out & ? & ?).
      exists out. apply sheet_result_Done. eauto.
Qed.

(** X28.  When the script gets its database from an archive, every sheet
    of the plan is a sheet element of the workbook whose relationship
    target lies under [worksheets/], and the extractor of the plan returned
    its list on the grid of the member of that target. *)
Theorem main_db_sheets (a : archive) (db : list (string * list record)) :
  main_db a = Done db →
  ∀ name s, (name, s) ∈ sheet_plan →
    ∃ elem data out,
      elem ∈ workbook_sheets a
      ∧ sheet_name elem = Some name
      ∧ is_prefix "worksheets/"
          (sheet_target (rel_table (workbook_rels a)) elem) = true
      ∧ worksheet_member a
          !! ("xl/" +:+ sheet_target (rel_table (workbook_rels a)) elem)
        = Some data
      ∧ parse_sheet s (worksheet_rows (shared_strings (shared_si a)) data)
        = Ok out.
Proof.
  unfold main_db.
  destruct (load_workbook_rows a) as [sheets|e] eqn:Hload; [|done].
  cbn [and_then]. intros (outs & Houts & _)%build_db_Done name s Hin.
  apply list_elem_of_lookup in Hin as [i Hi].
  assert (Hr : (sheet_result sheets <$> sheet_plan) !! i
               = Some (sheet_result sheets (name, s))).
  { by rewrite list_lookup_fmap, Hi. }
  rewrite Houts, list_lookup_fmap in Hr.
  destruct (outs !! i) as [out|]; [|done]. injection Hr as Hr.
  symmetry in Hr. apply sheet_result_Done in Hr as (rows & Hrows & Hout).
  destruct (proj1 (load_workbook_rows_Done a sheets Hload) name rows Hrows)
    as (elem & data & ? & ? & ? & ? & ->).
  by exists elem, data, out.
Qed.

Lemma main_db_sheets_witness :
  ∃ elem data out,
    elem ∈ workbook_sheets example_archive
    ∧ sheet_name elem = Some "Historical Drivers"
    ∧ is_prefix "worksheets/"
        (sheet_target (rel_table (workbook_rels example_archive)) elem) = true
    ∧ worksheet_member example_archive
        !! ("xl/" +:+ sheet_target
                        (rel_table (workbook_rels example_archive)) elem)
      = Some data
    ∧ parse_sheet Historical
        (worksheet_rows (shared_strings (shared_si example_archive)) data)
      = Ok out.
Proof.
  refine (main_db_sheets example_archive example_db _
            "Historical Drivers" Historical _).
  - exact (eq_refl (Done example_db) <: main_db example_archive = Done example_db).
  - by apply (list_elem_of_lookup_2 sheet_plan 6%nat).
Defined.
